(** * VibeCut frame scanner: a shallow embedding of
      [scripts/vibecut_frame_scanner.py] and the properties of its sampler,
      aggregator, motion-peak detector and result builder.

    Python's [float] is IEEE 754 binary64, and so is Rocq's primitive [float]:
    every arithmetic operation and comparison of the script is embedded as the
    primitive operation of the same name, so a value computed here is
    bit-for-bit the value the script computes.  Python's [int] is [Z].

    [main] is the run of the script in which every call returns;
    [Raising.main] is the same run with the calls outside the [try] that
    can raise.

    The segment parser and [main] of [scripts/vibecut_moviepy_pipeline.py],
    the SRT writer of [scripts/faster_whisper_transcribe.py] and the
    argument handling of [scripts/llama_local_4bit_server.py] are embedded
    after the scanner, each in a module of its own. *)

From Stdlib Require Import String ZArith List Bool Lia Floats.
From Stdlib Require Strings.Byte.
From Stdlib Require Decimal DecimalString.
Import ListNotations.

Set Warnings "-inexact-float,-register-all".

#[local] Open Scope Z_scope.

(* ================================================================== *)
(** ** Python numbers *)

Module PyFloat.

#[local] Open Scope float_scope.

(** [float(n)] of a Python int: the nearest double, ties to even. *)
Definition of_Z (n : Z) : float :=
  SF2Prim (binary_normalize prec emax n 0 false).

(** [int(x)] of a finite double truncates towards zero.  (On a NaN or an
    infinity Python raises; the script applies [int] to products of an
    array extent or a frame count with a constant below one, which are
    finite.) *)
Definition trunc (x : float) : Z :=
  match Prim2SF x with
  | S754_finite s m e =>
      let a := Z.shiftl (Zpos m) e in if s then (- a)%Z else a
  | _ => 0%Z
  end.

(** Truth value of a float: [bool(x)] is [x != 0.0]; a NaN is true. *)
Definition truthy (x : float) : bool := negb (x =? 0).

(** [x or d] *)
Definition or_else (x d : float) : float := if truthy x then x else d.

(** The builtins [min(a, b)] and [max(a, b)] keep their first argument
    unless the second compares strictly below (above) it. *)
Definition py_min (a b : float) : float := if b <? a then b else a.
Definition py_max (a b : float) : float := if a <? b then b else a.

(** [def clamp(value, low, high): return max(low, min(high, value))] *)
Definition clamp (value low high : float) : float :=
  py_max low (py_min high value).

(** Nearest integer to [n * 2^e], ties to even. *)
Definition round_half_even (n e : Z) : Z :=
  if (0 <=? e)%Z then (n * 2 ^ e)%Z
  else
    let d := (2 ^ (- e))%Z in
    let q := (n / d)%Z in
    let r := (n mod d)%Z in
    if (2 * r <? d)%Z then q
    else if (d <? 2 * r)%Z then (q + 1)%Z
    else if Z.even q then q else (q + 1)%Z.

(** [round(x, ndigits)] for a float [x] and [0 <= ndigits <= 22]: CPython
    prints [x] with [ndigits] decimals, correctly rounded from its exact
    binary value with ties to even, and reads the decimal back as the
    nearest double.  The decimal is [k / 10^ndigits] for the integer [k]
    below; [k] and [10^ndigits] are exact doubles as long as
    [k < 2^53], and then the correctly rounded quotient is that nearest
    double.  NaN, infinities and zeros round to themselves. *)
Definition py_round (x : float) (ndigits : Z) : float :=
  match Prim2SF x with
  | S754_finite s m e =>
      let k := round_half_even (Zpos m * 10 ^ ndigits) e in
      let r := of_Z k / of_Z (10 ^ ndigits) in
      if s then - r else r
  | _ => x
  end.

(** [lo <= x <= hi] as Python evaluates the chained comparison. *)
Definition between (lo x hi : float) : bool := (lo <=? x) && (x <=? hi).

End PyFloat.
Import PyFloat.

(* ================================================================== *)
(** ** Arrays of the numeric library *)

Module Numpy.

#[local] Open Scope float_scope.

(** A two-dimensional array read as a function from row and column to the
    element; its extent is kept beside it. *)
Definition array2 := Z -> Z -> Z.

(** An 8-bit image as the decoder yields it. *)
Definition pixels := Z -> Z -> Byte.byte.

Definition u8 (b : Byte.byte) : Z := Z.of_N (Byte.to_N b).

Definition as_array (p : pixels) : array2 := fun y x => u8 (p y x).

(** [cv2.absdiff(a, b)] on 8-bit images. *)
Definition absdiff (a b : pixels) : array2 :=
  fun y x => Z.abs (u8 (a y x) - u8 (b y x)).

Fixpoint sum_from (f : Z -> Z) (lo : Z) (n : nat) : Z :=
  match n with
  | O => 0%Z
  | S k => (f lo + sum_from f (lo + 1) k)%Z
  end.

(** A slice bound of a non-negative index is clipped to the extent. *)
Definition clip (i n : Z) : Z := Z.min (Z.max i 0) (Z.max n 0).

(** Sum and element count of [a[y1:y2, x1:x2]] for an array of extent
    [h] by [w]. *)
Definition region_sum (a : array2) (h w y1 y2 x1 x2 : Z) : Z :=
  let y1 := clip y1 h in let y2 := clip y2 h in
  let x1 := clip x1 w in let x2 := clip x2 w in
  sum_from (fun y => sum_from (fun x => a y x) x1 (Z.to_nat (x2 - x1)))
           y1 (Z.to_nat (y2 - y1)).

Definition region_count (h w y1 y2 x1 x2 : Z) : Z :=
  let y1 := clip y1 h in let y2 := clip y2 h in
  let x1 := clip x1 w in let x2 := clip x2 w in
  (Z.max 0 (y2 - y1) * Z.max 0 (x2 - x1))%Z.

(** [a[y1:y2, x1:x2].mean()] of an 8-bit array: the element sum, exact in
    a double, divided by the element count; an empty slice gives NaN. *)
Definition region_mean (a : array2) (h w y1 y2 x1 x2 : Z) : float :=
  of_Z (region_sum a h w y1 y2 x1 x2) / of_Z (region_count h w y1 y2 x1 x2).

Definition fsum (l : list float) : float := fold_left add l 0.

(** Modelled from the spec: [mean = average(motionValues)], the library's
    [ndarray.mean()] of a float array: the sum of the elements divided by
    their number.  (The library adds the elements in blocks; the sum is
    taken here from left to right.) *)
Definition mean (l : list float) : float :=
  fsum l / of_Z (Z.of_nat (length l)).

(** Modelled from the spec: [std = population standard deviation], the
    library's [ndarray.std()]: the square root of the mean of the squared
    deviations from the mean. *)
Definition std (l : list float) : float :=
  let m := mean l in
  sqrt (mean (map (fun x => (x - m) * (x - m)) l)).

(** [(arr > t).mean()]: the fraction of the elements above [t]. *)
Definition fraction_above (l : list float) (t : float) : float :=
  of_Z (Z.of_nat (length (filter (fun v => t <? v) l)))
  / of_Z (Z.of_nat (length l)).

End Numpy.
Import Numpy.

(* ================================================================== *)
(** ** The capture, the command line and the report *)

#[local] Open Scope float_scope.

(** A face rectangle [(x, y, fw, fh)] of [detectMultiScale]. *)
Record rect := { face_x : Z; face_y : Z; face_w : Z; face_h : Z }.

(** What the loop takes from a frame that was read: its grayscale image
    ([cv2.cvtColor]), the edge map of that image ([cv2.Canny]) and the faces
    found in it ([detectMultiScale]); the three are functions of the frame. *)
Record Sample := { gray : pixels; edges : pixels; faces : list rect }.

(** An opened [cv2.VideoCapture].  The frame count, width and height are
    integer properties which [cap.get] hands out as doubles holding that
    integer; [read_at i] is [cap.set(CAP_PROP_POS_FRAMES, i)] followed by
    [cap.read()], [None] when [ok] is false or the frame is [None].  All
    frames of a capture have the extent [(shape_h, shape_w)]. *)
Record Capture := {
  isOpened : bool;
  CAP_PROP_FRAME_COUNT : Z;
  CAP_PROP_FPS : float;
  CAP_PROP_FRAME_WIDTH : Z;
  CAP_PROP_FRAME_HEIGHT : Z;
  shape_h : Z;
  shape_w : Z;
  read_at : Z -> option Sample
}.

(** The world the script runs in: the file system, whether [cv2] and
    [numpy] can be imported, and what opening a path gives. *)
Record Env := {
  path_exists : string -> bool;
  cv2_imports : bool;
  VideoCapture : string -> Capture
}.

(** The parsed command line; [--sample-ratio] defaults to [0.1]. *)
Record Args := { input : string; sample_ratio : float }.

(** The JSON object printed on standard output. *)
Record Payload := {
  sampledFrames : Z;
  sampleStride : Z;
  portraitSignal : float;
  landscapeSignal : float;
  centeredFaceVerticalSignal : float;
  horizontalMotionSignal : float;
  highMotionShortClipSignal : float;
  motionPeaks : list float
}.

Definition fallback_payload : Payload :=
  {| sampledFrames := 0;
     sampleStride := 0;
     portraitSignal := 0.5;
     landscapeSignal := 0.5;
     centeredFaceVerticalSignal := 0.0;
     horizontalMotionSignal := 0.0;
     highMotionShortClipSignal := 0.0;
     motionPeaks := [] |}.

(** [int(cap.get(p) or 0)] of an integer property. *)
Definition int_or_0 (v : Z) : Z := if (v =? 0)%Z then 0%Z else v.

(* ================================================================== *)
(** ** Sampler *)

(** [clamp(float(args.sample_ratio or 0.1), 0.01, 0.5)] *)
Definition effective_ratio (ratio : float) : float :=
  clamp (or_else ratio 0.1) 0.01 0.5.

(** [max(1, int(total_frames * sample_ratio))] *)
Definition sample_count_of (total_frames : Z) (ratio' : float) : Z :=
  Z.max 1 (trunc (of_Z total_frames * ratio')).

(** [max(1, total_frames // sample_count)] *)
Definition sample_stride_of (total_frames sample_count : Z) : Z :=
  Z.max 1 (total_frames / sample_count).

(* ================================================================== *)
(** ** Frame feature extractor *)

Definition face_hit (h w : Z) (r : rect) : bool :=
  let cx := of_Z (face_x r) + of_Z (face_w r) / 2.0 in
  let cy := of_Z (face_y r) + of_Z (face_h r) / 2.0 in
  between (0.28 * of_Z w) cx (0.72 * of_Z w)
  && between (0.18 * of_Z h) cy (0.8 * of_Z h).

Definition centered_face_of (h w : Z) (fs : list rect) : float :=
  if (0 <? Z.of_nat (length fs))%Z then
    let hits := Z.of_nat (length (filter (face_hit h w) fs)) in
    clamp (of_Z hits / of_Z (Z.max 1 (Z.of_nat (length fs)))) 0.0 1.0
  else 0.0.

Record FrameScore := {
  portrait_score : float;
  landscape_score : float;
  centered_face : float
}.

Definition frame_scores (h w : Z) (s : Sample) : FrameScore :=
  let e := as_array (edges s) in
  let x_mid := (w / 2)%Z in
  let y_mid := (h / 2)%Z in
  let left_density := region_mean e h w 0 h 0 x_mid / 255.0 in
  let right_density := region_mean e h w 0 h x_mid w / 255.0 in
  let top_density := region_mean e h w 0 y_mid 0 w / 255.0 in
  let bottom_density := region_mean e h w y_mid h 0 w / 255.0 in
  let center_x1 := trunc (of_Z w * 0.25) in
  let center_x2 := trunc (of_Z w * 0.75) in
  let center_y1 := trunc (of_Z h * 0.18) in
  let center_y2 := trunc (of_Z h * 0.85) in
  let center_density :=
    region_mean e h w center_y1 center_y2 center_x1 center_x2 / 255.0 in
  let portrait_bias := if (w <=? h)%Z then 1.0 else 0.0 in
  let landscape_bias := if (h <? w)%Z then 1.0 else 0.0 in
  let cf := centered_face_of h w (faces s) in
  {| portrait_score :=
       0.38 * portrait_bias
       + 0.26 * center_density
       + 0.22 * cf
       + 0.14 * (top_density + bottom_density) * 0.5;
     landscape_score :=
       0.42 * landscape_bias
       + 0.27 * ((left_density + right_density) * 0.5)
       + 0.18 * abs (left_density - right_density)
       + 0.13 * (1.0 - cf);
     centered_face := cf |}.

(** Motion against the previous grayscale image: [(motion_value, band)],
    the mean of the whole difference and of its columns
    [int(w * 0.2) : int(w * 0.8)], both over 255. *)
Definition motion_against (h w : Z) (prev cur : pixels) : float * float :=
  let diff := absdiff prev cur in
  (region_mean diff h w 0 h 0 w / 255.0,
   region_mean diff h w 0 h (trunc (of_Z w * 0.2)) (trunc (of_Z w * 0.8))
   / 255.0).

(* ================================================================== *)
(** ** Aggregator: the [while] loop *)

Record ScanState := {
  frame_index : Z;
  sampled_frames : Z;
  portrait_score_total : float;
  landscape_score_total : float;
  centered_face_total : float;
  horizontal_motion_total : float;
  motion_values : list float;
  motion_timestamps : list float;
  prev_gray : option pixels
}.

Definition initial_state : ScanState :=
  {| frame_index := 0;
     sampled_frames := 0;
     portrait_score_total := 0.0;
     landscape_score_total := 0.0;
     centered_face_total := 0.0;
     horizontal_motion_total := 0.0;
     motion_values := [];
     motion_timestamps := [];
     prev_gray := None |}.

Section Loop.

Variable cap : Capture.
Variable total_frames sample_stride : Z.
Variable fps : float.

(** [frame_index / max(1.0, fps)] *)
Definition timestamp_of (index : Z) : float :=
  of_Z index / py_max 1.0 fps.

(** One pass through the body of [while frame_index < total_frames]. *)
Definition loop_body (st : ScanState) : ScanState :=
  match read_at cap (frame_index st) with
  | None =>
      {| frame_index := frame_index st + sample_stride;
         sampled_frames := sampled_frames st;
         portrait_score_total := portrait_score_total st;
         landscape_score_total := landscape_score_total st;
         centered_face_total := centered_face_total st;
         horizontal_motion_total := horizontal_motion_total st;
         motion_values := motion_values st;
         motion_timestamps := motion_timestamps st;
         prev_gray := prev_gray st |}
  | Some s =>
      let h := shape_h cap in
      let w := shape_w cap in
      let sc := frame_scores h w s in
      let '(motion_value, horizontal_motion_total') :=
        match prev_gray st with
        | None => (0.0, horizontal_motion_total st)
        | Some pg =>
            let '(mv, band) := motion_against h w pg (gray s) in
            (mv, horizontal_motion_total st + band)
        end in
      {| frame_index := frame_index st + sample_stride;
         sampled_frames := sampled_frames st + 1;
         portrait_score_total := portrait_score_total st + portrait_score sc;
         landscape_score_total :=
           landscape_score_total st + landscape_score sc;
         centered_face_total := centered_face_total st + centered_face sc;
         horizontal_motion_total := horizontal_motion_total';
         motion_values := motion_values st ++ [motion_value];
         motion_timestamps :=
           motion_timestamps st ++ [timestamp_of (frame_index st)];
         prev_gray := Some (gray s) |}
  end.

(** The loop, unrolled at most [fuel] times. *)
Fixpoint scan_loop (fuel : nat) (st : ScanState) : ScanState :=
  match fuel with
  | O => st
  | S fuel' =>
      if (frame_index st <? total_frames)%Z
      then scan_loop fuel' (loop_body st)
      else st
  end.

(** The index grows by at least one per pass when the stride is positive,
    so [total_frames] passes always reach the exit ([scan_exits] below). *)
Definition scan : ScanState :=
  scan_loop (Z.to_nat total_frames) initial_state.

End Loop.

(* ================================================================== *)
(** ** Motion peak detector *)

(** [enumerate(values)] *)
Definition enumerate {A : Type} (l : list A) : list (nat * A) :=
  combine (seq 0 (length l)) l.

(** [[(motion_timestamps[idx], float(value)) for idx, value in
      enumerate(motion_values) if value >= high_motion_threshold]].  The two
    lists have the same length ([reachable_aligned] below), so the
    subscript never leaves [motion_timestamps]. *)
Definition peak_pairs (timestamps values : list float) (threshold : float)
  : list (float * float) :=
  map (fun iv => (nth (fst iv) timestamps 0.0, snd iv))
      (filter (fun iv => threshold <=? snd iv) (enumerate values)).

(** [peak_pairs.sort(key=lambda item: item[1], reverse=True)]: a stable
    sort on the score, largest first; entries of equal score keep their
    order. *)
Fixpoint insert_desc (p : float * float) (l : list (float * float))
  : list (float * float) :=
  match l with
  | [] => [p]
  | q :: r => if snd p <? snd q then q :: insert_desc p r else p :: q :: r
  end.

Definition sort_desc (l : list (float * float)) : list (float * float) :=
  fold_right insert_desc [] l.

(** [any(abs(ts - existing) < 4.5 for existing in unique_peaks)] *)
Definition near_any (ts : float) (unique_peaks : list float) : bool :=
  existsb (fun existing => abs (ts - existing) <? 4.5) unique_peaks.

(** The loop over the sorted pairs, with its [continue] and [break]. *)
Fixpoint dedup_peaks (pairs : list (float * float)) (unique_peaks : list float)
  : list float :=
  match pairs with
  | [] => unique_peaks
  | (ts, _score) :: rest =>
      if near_any ts unique_peaks then dedup_peaks rest unique_peaks
      else
        let unique_peaks' := unique_peaks ++ [ts] in
        if (6 <=? length unique_peaks')%nat then unique_peaks'
        else dedup_peaks rest unique_peaks'
  end.

(** [np.array(motion_values, dtype=float) if motion_values else
     np.zeros((1,), dtype=float)] *)
Definition motion_array_of (values : list float) : list float :=
  match values with
  | [] => [0.0]
  | _ => values
  end.

Definition high_motion_threshold_of (values : list float) : float :=
  let motion_array := motion_array_of values in
  mean motion_array + 0.75 * std motion_array.

Definition high_motion_ratio_of (values : list float) : float :=
  let motion_array := motion_array_of values in
  if (0 <? length motion_array)%nat
  then fraction_above motion_array (high_motion_threshold_of values)
  else 0.0.

Definition unique_peaks_of (st : ScanState) : list float :=
  dedup_peaks
    (sort_desc (peak_pairs (motion_timestamps st) (motion_values st)
                           (high_motion_threshold_of (motion_values st))))
    [].

(* ================================================================== *)
(** ** Result builder and [main] *)

(** The payload built after the loop, for a state with
    [sampled_frames > 0]. *)
Definition build_payload (sample_stride : Z) (st : ScanState) : Payload :=
  let n := sampled_frames st in
  let portrait_signal := clamp (portrait_score_total st / of_Z n) 0.0 1.0 in
  let landscape_signal := clamp (landscape_score_total st / of_Z n) 0.0 1.0 in
  let centered_face_signal :=
    clamp (centered_face_total st / of_Z n) 0.0 1.0 in
  let horizontal_motion_signal :=
    clamp (horizontal_motion_total st / of_Z (Z.max 1 (n - 1))) 0.0 1.0 in
  let high_motion_short_clip_signal :=
    clamp (high_motion_ratio_of (motion_values st) * 1.35) 0.0 1.0 in
  {| sampledFrames := n;
     sampleStride := sample_stride;
     portraitSignal := py_round portrait_signal 4;
     landscapeSignal := py_round landscape_signal 4;
     centeredFaceVerticalSignal := py_round centered_face_signal 4;
     horizontalMotionSignal := py_round horizontal_motion_signal 4;
     highMotionShortClipSignal := py_round high_motion_short_clip_signal 4;
     motionPeaks := map (fun value => py_round value 2) (unique_peaks_of st) |}.

(** What a run leaves behind: the payload printed and the exit status. *)
Record Outcome := { printed : Payload; exit_status : Z }.

Definition print_and_return (p : Payload) (status : Z) : Outcome :=
  {| printed := p; exit_status := status |}.

(** [int(cap.get(cv2.CAP_PROP_FRAME_COUNT) or 0)] and
    [float(cap.get(cv2.CAP_PROP_FPS) or 30.0)] *)
Definition total_frames_of (cap : Capture) : Z :=
  int_or_0 (CAP_PROP_FRAME_COUNT cap).

Definition fps_of (cap : Capture) : float := or_else (CAP_PROP_FPS cap) 30.0.

(** The stride [main] derives for a capture and a [--sample-ratio]. *)
Definition stride_of (cap : Capture) (ratio : float) : Z :=
  let total_frames := total_frames_of cap in
  sample_stride_of total_frames
    (sample_count_of total_frames (effective_ratio ratio)).

(** The state in which [main] leaves its loop. *)
Definition scan_of (cap : Capture) (ratio : float) : ScanState :=
  scan cap (total_frames_of cap) (stride_of cap ratio) (fps_of cap).

Definition main (env : Env) (args : Args) : Outcome :=
  if negb (path_exists env (input args)) then
    print_and_return fallback_payload 0
  else if negb (cv2_imports env) then
    print_and_return fallback_payload 0
  else
    let cap := VideoCapture env (input args) in
    if negb (isOpened cap) then
      print_and_return fallback_payload 0
    else
      let total_frames := total_frames_of cap in
      let fps := fps_of cap in
      let width := int_or_0 (CAP_PROP_FRAME_WIDTH cap) in
      let height := int_or_0 (CAP_PROP_FRAME_HEIGHT cap) in
      if (total_frames <=? 0)%Z || (width <=? 0)%Z || (height <=? 0)%Z then
        print_and_return fallback_payload 0
      else
        let ratio := effective_ratio (sample_ratio args) in
        let sample_count := sample_count_of total_frames ratio in
        let sample_stride := sample_stride_of total_frames sample_count in
        let st := scan cap total_frames sample_stride fps in
        if (sampled_frames st <=? 0)%Z then
          print_and_return fallback_payload 0
        else
          print_and_return (build_payload sample_stride st) 0.

(* ================================================================== *)
(** ** Exceptions: the calls outside the [try] *)

(** [main] above is the run in which every call returns.  In the script
    only the two imports sit inside a [try]; [Raising.main] is the same
    run with the calls that can raise, from the parsed command line on:
    [Path(args.input).expanduser().resolve()] (line 38) and
    [input_path.exists()] (line 39), [int] of the frame count, the width
    and the height that [cap.get] reports as doubles (lines 55 to 58),
    the construction of the face detector from [cv2.data.haarcascades]
    (line 69), and the library calls of the loop body on a frame that was
    read (lines 91 to 145). *)
Module Raising.

Inductive exception :=
| RuntimeError
| OSError
| ValueError
| OverflowError
| AttributeError
| cv2_error.

(** A call returns a value or raises. *)
Inductive Result (A : Type) : Type :=
| Returned (a : A)
| Raised (e : exception).

Arguments Returned {A} a.
Arguments Raised {A} e.

Notation "x <- e ;; k" :=
  (match e with Returned x => k | Raised err => Raised err end)
  (at level 61, e at next level, right associativity).

(** [int(x)] of a double: [ValueError] on a NaN, [OverflowError] on an
    infinity, the truncation towards zero otherwise. *)
Definition int (x : float) : Result Z :=
  match Prim2SF x with
  | S754_nan => Raised ValueError
  | S754_infinity _ => Raised OverflowError
  | _ => Returned (trunc x)
  end.

(** [int(cap.get(p) or 0)]: a zero gives the int [0], any other double is
    converted. *)
Definition int_or_0 (v : float) : Result Z :=
  if truthy v then int v else Returned 0%Z.

(** The properties [cv2.CAP_PROP_FRAME_COUNT], [cv2.CAP_PROP_FPS],
    [cv2.CAP_PROP_FRAME_WIDTH] and [cv2.CAP_PROP_FRAME_HEIGHT]. *)
Inductive property := FRAME_COUNT | FPS | FRAME_WIDTH | FRAME_HEIGHT.

(** What a pass through the loop body meets at a frame index: no frame
    ([ok] false or [frame is None]); a frame, with what [cv2.cvtColor],
    [cv2.Canny] and [detectMultiScale] return for it; or a call of the
    body that raises there ([cv2.cvtColor] on line 91, [cv2.Canny] on
    line 92, [detectMultiScale] on line 112, [cv2.absdiff] against the
    previous grayscale image on line 142). *)
Inductive Reading :=
| no_frame
| frame (s : Sample)
| faulty (e : exception).

(** A [cv2.VideoCapture] as the script sees it: [get] returns doubles.
    As in [Capture], all frames have the extent [(frame_h, frame_w)]. *)
Record Device := {
  opened : bool;
  get : property -> float;
  frame_h : Z;
  frame_w : Z;
  read : Z -> Reading
}.

(** The world of a run.  [resolve] is [Path(s).expanduser().resolve()],
    which raises [RuntimeError] when the home directory of a [~user] prefix
    cannot be found; [exists_] is [Path.exists], which raises on an error
    other than a missing file; [CascadeClassifier] is line 69, which
    raises [AttributeError] in a [cv2] without [cv2.data]. *)
Record World := {
  resolve : string -> Result string;
  exists_ : string -> Result bool;
  imports : bool;
  open : string -> Device;
  CascadeClassifier : Result unit
}.

(** The capture of [main] above that a device gives when nothing raises:
    the three integer properties are the doubles truncated. *)
Definition capture_of (d : Device) : Capture :=
  {| isOpened := opened d;
     CAP_PROP_FRAME_COUNT := trunc (get d FRAME_COUNT);
     CAP_PROP_FPS := get d FPS;
     CAP_PROP_FRAME_WIDTH := trunc (get d FRAME_WIDTH);
     CAP_PROP_FRAME_HEIGHT := trunc (get d FRAME_HEIGHT);
     shape_h := frame_h d;
     shape_w := frame_w d;
     read_at := fun i =>
       match read d i with
       | frame s => Some s
       | _ => None
       end |}.

Section Loop.

Variable cap : Device.
Variable total_frames sample_stride : Z.
Variable fps : float.

(** The loop: a pass in which the body raises ends the run, any other
    pass is [loop_body]. *)
Fixpoint scan_loop (fuel : nat) (st : ScanState) : Result ScanState :=
  match fuel with
  | O => Returned st
  | S fuel' =>
      if (frame_index st <? total_frames)%Z then
        match read cap (frame_index st) with
        | faulty e => Raised e
        | _ =>
            scan_loop fuel'
              (loop_body (capture_of cap) sample_stride fps st)
        end
      else Returned st
  end.

Definition scan : Result ScanState :=
  scan_loop (Z.to_nat total_frames) initial_state.

End Loop.

Definition main (w : World) (args : Args) : Result Outcome :=
  input_path <- resolve w (input args) ;;
  found <- exists_ w input_path ;;
  if negb found then Returned (print_and_return fallback_payload 0)
  else if negb (imports w) then
    Returned (print_and_return fallback_payload 0)
  else
    let cap := open w input_path in
    if negb (opened cap) then
      Returned (print_and_return fallback_payload 0)
    else
      total_frames <- int_or_0 (get cap FRAME_COUNT) ;;
      let fps := or_else (get cap FPS) 30.0 in
      width <- int_or_0 (get cap FRAME_WIDTH) ;;
      height <- int_or_0 (get cap FRAME_HEIGHT) ;;
      if (total_frames <=? 0)%Z || (width <=? 0)%Z || (height <=? 0)%Z then
        Returned (print_and_return fallback_payload 0)
      else
        let ratio := effective_ratio (sample_ratio args) in
        let sample_count := sample_count_of total_frames ratio in
        let sample_stride := sample_stride_of total_frames sample_count in
        face_detector <- CascadeClassifier w ;;
        st <- scan cap total_frames sample_stride fps ;;
        if (sampled_frames st <=? 0)%Z then
          Returned (print_and_return fallback_payload 0)
        else
          Returned (print_and_return (build_payload sample_stride st) 0).

End Raising.

(* ================================================================== *)
(** * The MoviePy pipeline: [scripts/vibecut_moviepy_pipeline.py] *)

Module Pipeline.

#[local] Open Scope string_scope.
#[local] Open Scope float_scope.

(** A value returned by [json.loads]: [None], a bool, an int, a float, a
    string, a list, or a dict (its keys are strings, each held once). *)
Inductive json : Type :=
| JNone
| JBool (b : bool)
| JInt (n : Z)
| JFloat (x : float)
| JStr (s : string)
| JList (items : list json)
| JDict (entries : list (string * json)).

(** The truth value of such an object, as [or] tests it. *)
Definition truth (v : json) : bool :=
  match v with
  | JNone => false
  | JBool b => b
  | JInt n => negb (n =? 0)%Z
  | JFloat x => truthy x
  | JStr s => negb (s =? "")%string
  | JList items => match items with [] => false | _ => true end
  | JDict entries => match entries with [] => false | _ => true end
  end.

(** [d.get(key, default)] *)
Fixpoint dict_get (d : list (string * json)) (key : string) (default : json)
  : json :=
  match d with
  | [] => default
  | (k, v) :: rest =>
      if (k =? key)%string then v else dict_get rest key default
  end.

(** [float(n)] of an int: the nearest double; [None] stands for the
    [OverflowError] raised when that double would be infinite. *)
Definition float_of_int (n : Z) : option float :=
  let x := of_Z n in
  if abs x =? infinity then None else Some x.

(** An exception aborts what follows it. *)
Notation "x <- e ;; k" :=
  (match e with Some x => k | None => None end)
  (at level 61, e at next level, right associativity).

(** One segment of the result of [parse_segments]: the dict
    [{"start": ..., "end": ..., "speed": ...}]. *)
Record row := { start : float; end_ : float; speed : float }.

(** [out.sort(key=lambda row: row["start"])]: a stable sort on the start,
    smallest first. *)
Fixpoint insert_by_start (r : row) (l : list row) : list row :=
  match l with
  | [] => [r]
  | q :: t =>
      if start q <? start r then q :: insert_by_start r t else r :: q :: t
  end.

Definition sort_by_start (l : list row) : list row :=
  fold_right insert_by_start [] l.

Section Library.

(** [json.loads(raw)], [None] when it raises; and [float(s)] of a string,
    [None] when it raises [ValueError]. *)
Variable json_loads : string -> option json.
Variable float_of_str : string -> option float.

(** [float(v)]; [None] stands for the exception raised on [None], a list
    or a dict, on an int that is too large and on a string that is not a
    number. *)
Definition to_float (v : json) : option float :=
  match v with
  | JFloat x => Some x
  | JInt n => float_of_int n
  | JBool b => Some (if b then 1.0 else 0.0)
  | JStr s => float_of_str s
  | JNone | JList _ | JDict _ => None
  end.

(** [float(item.get(key, default) or default)] *)
Definition number (item : list (string * json)) (key : string)
    (default : float) : option float :=
  let v := dict_get item key (JFloat default) in
  if truth v then to_float v else Some default.

(** The loop of [parse_segments] over the items, appending to [out]. *)
Fixpoint parse_items (items : list json) (duration : float) (out : list row)
  : option (list row) :=
  match items with
  | [] => Some out
  | JDict item :: rest =>
      s <- number item "start" 0.0 ;;
      e <- number item "end" 0.0 ;;
      v <- number item "speed" 1.0 ;;
      let start := clamp s 0.0 duration in
      let end_ := clamp e 0.0 duration in
      let speed := clamp v 1.0 1.8 in
      if end_ - start <? 0.35 then parse_items rest duration out
      else
        parse_items rest duration
          (out ++ [ {| start := py_round start 3;
                       end_ := py_round end_ 3;
                       speed := py_round speed 3 |} ])
  | _ :: rest => parse_items rest duration out
  end.

(** [parse_segments(raw, duration)]; [None] when it raises. *)
Definition parse_segments (raw : string) (duration : float)
  : option (list row) :=
  let parsed :=
    match json_loads raw with Some v => v | None => JList [] end in
  match parsed with
  | JList items =>
      out <- parse_items items duration [] ;; Some (sort_by_start out)
  | _ => Some []
  end.

(** *** [main] *)

Inductive mode := vertical | horizontal.

Record Args := {
  input : string;
  output_dir : string;
  mode_ : mode;
  segments_json : string
}.

(** An opened [VideoFileClip]: its [duration] attribute, a float or
    [None]. *)
Record Clip := { duration : option float }.

(** The world [main] runs in.  [mkdir] tells whether
    [output_dir.mkdir(parents=True, exist_ok=True)] succeeds; [joinpath d
    name] is [str(d / name)]; [VideoFileClip] is [None] when the constructor
    raises.  [renders m idx start end speedx] tells whether the calls that
    render segment [idx] (from [subclip] to the [write_videofile] of the
    clip) all return, [speedx] being the factor of [vfx.speedx] when it is
    applied; [combines m n] tells whether the calls after the loop (from
    [concatenate_videoclips] to the last [close]) all return for [n]
    clips. *)
Record Env := {
  mkdir : string -> bool;
  joinpath : string -> string -> string;
  path_exists : string -> bool;
  moviepy_imports : bool;
  VideoFileClip : string -> option Clip;
  renders : mode -> nat -> float -> float -> option float -> bool;
  combines : mode -> nat -> bool
}.

(** The reason given in ["error"]; the text of the exception that follows
    the colon is left out. *)
Inductive failure :=
| missing_input
| moviepy_import_failed
| invalid_duration
| pipeline_failed.

(** The JSON object printed on standard output. *)
Record Report := {
  ok : bool;
  error : option failure;
  clipPaths : list string;
  combinedPath : option string
}.

(** What a run that returns leaves behind: the report, the exit status and
    the clips of the segments whose [write_videofile] returned, in order. *)
Record Outcome := {
  printed : Report;
  exit_status : Z;
  written : list string
}.

(** A run returns, or ends in an exception that nothing catches. *)
Inductive Result := Returned (o : Outcome) | Raised.

Definition failed (why : failure) (files : list string) : Result :=
  Returned {| printed := {| ok := false; error := Some why;
                            clipPaths := []; combinedPath := None |};
              exit_status := 0;
              written := files |}.

(** An entry of [segments] in [main]: a dict of [parse_segments], or the
    tuple [(0.0, min(duration, 20.0))]. *)
Inductive segment := Dict (r : row) | Tuple (a b : float).

(** [segment[key]] for a string key: a tuple raises [TypeError]. *)
Definition subscript (s : segment) (field : row -> float) : option float :=
  match s with
  | Dict r => Some (field r)
  | Tuple _ _ => None
  end.

(** [f"{idx:02d}"] *)
Definition format_02d (idx : nat) : string :=
  let digits := DecimalString.NilZero.string_of_uint (Nat.to_uint idx) in
  if (String.length digits <? 2)%nat then ("0" ++ digits)%string else digits.

Definition clip_name (idx : nat) : string :=
  ("clip_" ++ format_02d idx ++ ".mp4")%string.

(** The loop [for idx, segment in enumerate(segments, start=1)]: the paths
    appended to [clip_paths], and whether the loop ended without an
    exception. *)
Fixpoint build_clips (env : Env) (args : Args) (idx : nat)
    (segments : list segment) (clip_paths : list string)
  : list string * bool :=
  match segments with
  | [] => (clip_paths, true)
  | segment :: rest =>
      match
        (start <- subscript segment start ;;
         end_ <- subscript segment end_ ;;
         v <- subscript segment speed ;;
         Some (start, end_, or_else v 1.0))
      with
      | None => (clip_paths, false)
      | Some (start, end_, speed) =>
          if renders env (mode_ args) idx start end_
               (if 1.001 <? speed then Some speed else None)
          then build_clips env args (S idx) rest
                 (clip_paths
                  ++ [joinpath env (output_dir args) (clip_name idx)])
          else (clip_paths, false)
      end
  end.

Definition main (env : Env) (args : Args) : Result :=
  if negb (mkdir env (output_dir args)) then Raised
  else if negb (path_exists env (input args)) then failed missing_input []
  else if negb (moviepy_imports env) then failed moviepy_import_failed []
  else
    let combined_path := joinpath env (output_dir args) "combined.mp4" in
    match VideoFileClip env (input args) with
    | None => failed pipeline_failed []
    | Some source =>
        let duration :=
          match duration source with
          | Some d => or_else d 0.0
          | None => 0.0
          end in
        if duration <=? 0.0 then failed invalid_duration []
        else
          match parse_segments (segments_json args) duration with
          | None => failed pipeline_failed []
          | Some rows =>
              let segments :=
                match rows with
                | [] => [Tuple 0.0 (py_min duration 20.0)]
                | _ => map Dict rows
                end in
              let segments :=
                match mode_ args with
                | vertical => firstn 3 segments
                | horizontal => segments
                end in
              let '(clip_paths, returned) :=
                build_clips env args 1 segments [] in
              if negb returned then failed pipeline_failed clip_paths
              else
                match clip_paths with
                | [] =>
                    Returned
                      {| printed := {| ok := true; error := None;
                                       clipPaths := [];
                                       combinedPath := Some combined_path |};
                         exit_status := 0;
                         written := [] |}
                | _ =>
                    if combines env (mode_ args) (length clip_paths) then
                      Returned
                        {| printed :=
                             {| ok := true; error := None;
                                clipPaths := clip_paths;
                                combinedPath := Some combined_path |};
                           exit_status := 0;
                           written := clip_paths |}
                    else failed pipeline_failed clip_paths
                end
          end
    end.

End Library.

End Pipeline.

(* ================================================================== *)
(** * The transcription script: [scripts/faster_whisper_transcribe.py] *)

Module Transcribe.

#[local] Open Scope string_scope.
#[local] Open Scope float_scope.

(** An exception aborts what follows it. *)
Notation "x <- e ;; k" :=
  (match e with Some x => k | None => None end)
  (at level 61, e at next level, right associativity).

(** [round(x)] of a float: the nearest int, ties to even; [None] stands for
    the [OverflowError] on an infinity and the [ValueError] on a NaN. *)
Definition round_int (x : float) : option Z :=
  match Prim2SF x with
  | S754_zero _ => Some 0%Z
  | S754_finite s m e =>
      let k := round_half_even (Zpos m) e in
      Some (if s then (- k)%Z else k)
  | _ => None
  end.

(** [str(n)] of an int. *)
Definition str (n : Z) : string :=
  DecimalString.NilZero.string_of_int (Z.to_int n).

Fixpoint zeros (k : nat) : string :=
  match k with
  | O => ""
  | S k' => ("0" ++ zeros k')%string
  end.

(** [f"{n:0{width}d}"] for [n >= 0]: at least [width] digits, zeros in
    front. *)
Definition format_0d (width : nat) (n : Z) : string :=
  let digits := str n in
  (zeros (width - String.length digits) ++ digits)%string.

Definition _format_srt_timestamp (seconds : float) : option string :=
  let safe := py_max 0.0 (or_else seconds 0.0) in
  millis <- round_int (safe * 1000.0) ;;
  let hours := (millis / 3600000)%Z in
  let millis := (millis - hours * 3600000)%Z in
  let minutes := (millis / 60000)%Z in
  let millis := (millis - minutes * 60000)%Z in
  let secs := (millis / 1000)%Z in
  let millis := (millis - secs * 1000)%Z in
  Some (format_0d 2 hours ++ ":" ++ format_0d 2 minutes ++ ":"
        ++ format_0d 2 secs ++ "," ++ format_0d 3 millis)%string.

(** A cue as [main] builds it: the dict
    [{"text": ..., "start": ..., "end": ..., "confidence": ...}]. *)
Record cue := {
  text : string;
  start : float;
  end_ : float;
  confidence : option float
}.

(** A segment as the transcription yields it; [avg_logprob] can be
    [None]. *)
Record Segment := {
  segment_text : string;
  segment_start : float;
  segment_end : float;
  avg_logprob : option float
}.

Section Strings.

(** [s.strip()] *)
Variable strip : string -> string.

(** The loop of [_write_srt] over the cues, with its counter [idx] and its
    list [lines]; [None] when a timestamp cannot be formatted. *)
Fixpoint srt_lines (cues : list cue) (idx : Z) (lines : list string)
  : option (list string) :=
  match cues with
  | [] => Some lines
  | cue :: rest =>
      let text := strip (text cue) in
      let start := start cue in
      let end_ := end_ cue in
      if (text =? "")%string then srt_lines rest idx lines
      else if end_ <=? start + 0.01 then srt_lines rest idx lines
      else
        from <- _format_srt_timestamp start ;;
        to <- _format_srt_timestamp end_ ;;
        srt_lines rest (idx + 1)
          (lines ++ [str idx; (from ++ " --> " ++ to)%string; text; ""])
  end.

(** [_write_srt(cues, output_path)]: the text written to the file. *)
Definition _write_srt (cues : list cue) : option string :=
  lines <- srt_lines cues 1 [] ;;
  Some (String.concat (String (Ascii.ascii_of_nat 10) "") lines).

(** The loop of [main] over the segments of the transcription. *)
Fixpoint cues_of (segments : list Segment) (cues : list cue) : list cue :=
  match segments with
  | [] => cues
  | segment :: rest =>
      let text := strip (segment_text segment) in
      let start := or_else (segment_start segment) 0.0 in
      let end_ := or_else (segment_end segment) 0.0 in
      if (text =? "")%string then cues_of rest cues
      else if end_ <=? start + 0.01 then cues_of rest cues
      else
        cues_of rest
          (cues ++ [ {| text := text;
                        start := py_round start 3;
                        end_ := py_round end_ 3;
                        confidence :=
                          match avg_logprob segment with
                          | Some p => Some (py_round p 4)
                          | None => None
                          end |} ])
  end.

End Strings.

End Transcribe.

(* ================================================================== *)
(** * The local inference server: [scripts/llama_local_4bit_server.py] *)

Module LlamaServer.

#[local] Open Scope string_scope.
#[local] Open Scope float_scope.

Record Message := { role : string; content : string }.

(** The request as it is parsed: a field that is [null] is [None]; an
    absent [max_tokens], [temperature] or [top_p] has been given its
    default 512, 0.2 or 0.9, every other absent field is [None]. *)
Record CompletionRequest := {
  model : option string;
  prompt : option string;
  inputs : option string;
  messages : option (list Message);
  max_tokens : option Z;
  max_new_tokens : option Z;
  temperature : option float;
  top_p : option float
}.

(** Truth values of optional fields: [None], the empty string, the empty
    list and zero are false. *)
Definition some_text (s : option string) : option string :=
  match s with
  | Some t => if (t =? "")%string then None else Some t
  | None => None
  end.

Definition some_int (n : option Z) : option Z :=
  match n with
  | Some k => if (k =? 0)%Z then None else Some k
  | None => None
  end.

Definition some_float (x : option float) : option float :=
  match x with
  | Some y => if truthy y then Some y else None
  | None => None
  end.

(** What [completions] passes to [model.generate], with the prompt it
    tokenizes. *)
Record Generation := {
  gen_prompt : string;
  gen_max_new_tokens : Z;
  gen_do_sample : bool;
  gen_temperature : float;
  gen_top_p : float
}.

(** The answer: the error object, or the object built around the
    generated text. *)
Inductive Response :=
| empty_prompt
| generated (text : string).

Section Library.

(** [s.strip()], and the text decoded from what the model generates. *)
Variable strip : string -> string.
Variable generate : Generation -> string.

Definition resolve_prompt (req : CompletionRequest) : string :=
  match some_text (prompt req) with
  | Some p => p
  | None =>
      match some_text (inputs req) with
      | Some i => i
      | None =>
          match messages req with
          | Some ((_ :: _) as msgs) =>
              let merged :=
                String.concat (String (Ascii.ascii_of_nat 10) "")
                  (filter (fun c => negb (c =? "")%string)
                          (map content msgs)) in
              if (strip merged =? "")%string then "" else strip merged
          | _ => ""
          end
      end
  end.

(** The arguments of [model.generate] for a request and its prompt. *)
Definition generation_of (req : CompletionRequest) (prompt : string)
  : Generation :=
  let max_new_tokens :=
    match some_int (max_new_tokens req) with
    | Some n => n
    | None =>
        match some_int (max_tokens req) with
        | Some n => n
        | None => 512%Z
        end
    end in
  let max_new_tokens := Z.max 32 (Z.min max_new_tokens 1200) in
  let temperature :=
    match some_float (temperature req) with Some t => t | None => 0.2 end in
  let top_p :=
    match some_float (top_p req) with Some p => p | None => 0.9 end in
  {| gen_prompt := prompt;
     gen_max_new_tokens := max_new_tokens;
     gen_do_sample := 0 <? temperature;
     gen_temperature := py_max 0.0 (py_min temperature 1.2);
     gen_top_p := py_max 0.1 (py_min top_p 1.0) |}.

Definition completions (req : CompletionRequest) : Response :=
  let prompt := resolve_prompt req in
  if (prompt =? "")%string then empty_prompt
  else generated (strip (generate (generation_of req prompt))).

End Library.

End LlamaServer.

(* ================================================================== *)
(** * Facts about binary64 values *)

Module FloatFacts.

Lemma ltb_leb (x y : float) : (x <? y) = true -> (x <=? y) = true.
Proof.
  rewrite ltb_spec, leb_spec. unfold SFltb, SFleb.
  destruct (SFcompare (Prim2SF x) (Prim2SF y)) as [[]|]; congruence.
Qed.

(** [clamp(value, 0.0, 1.0)] lies in the unit interval for every double,
    a NaN included: [min(1.0, nan)] is [1.0]. *)
Lemma clamp_unit (x : float) : between 0 (clamp x 0 1) 1 = true.
Proof.
  unfold clamp, py_max, py_min, between.
  destruct (x <? 1) eqn:Hx1.
  - destruct (0 <? x) eqn:H0x.
    + now rewrite (ltb_leb _ _ H0x), (ltb_leb _ _ Hx1).
    + reflexivity.
  - reflexivity.
Qed.

(** A mantissa is below two to the number of its digits. *)
Lemma digits2_pos_bound (m : positive) :
  (Zpos m < 2 ^ Zpos (digits2_pos m))%Z.
Proof.
  induction m as [m IH|m IH|]; cbn [digits2_pos].
  - rewrite Pos2Z.inj_succ, Z.pow_succ_r by lia. lia.
  - rewrite Pos2Z.inj_succ, Z.pow_succ_r by lia. lia.
  - reflexivity.
Qed.

Lemma digits2_pos_lower (m : positive) :
  (2 ^ (Zpos (digits2_pos m) - 1) <= Zpos m)%Z.
Proof.
  induction m as [m IH|m IH|]; cbn [digits2_pos].
  - rewrite Pos2Z.inj_succ.
    replace (Z.succ (Zpos (digits2_pos m)) - 1)%Z
      with (Z.succ (Zpos (digits2_pos m) - 1))%Z by lia.
    rewrite Z.pow_succ_r by lia. lia.
  - rewrite Pos2Z.inj_succ.
    replace (Z.succ (Zpos (digits2_pos m)) - 1)%Z
      with (Z.succ (Zpos (digits2_pos m) - 1))%Z by lia.
    rewrite Z.pow_succ_r by lia. lia.
  - reflexivity.
Qed.

(** The mantissa of a binary64 value has at most 53 digits. *)
Lemma valid_digits (s : bool) (m : positive) (e : Z) :
  valid_binary (S754_finite s m e) = true ->
  (Zpos (digits2_pos m) <= 53)%Z.
Proof.
  cbn [SpecFloat.valid_binary]. unfold bounded, canonical_mantissa, fexp.
  intros H. apply andb_prop in H as [H _]. apply Z.eqb_eq in H.
  unfold prec in H. lia.
Qed.

Lemma valid_mantissa (s : bool) (m : positive) (e : Z) :
  valid_binary (S754_finite s m e) = true -> (Zpos m < 2 ^ 53)%Z.
Proof.
  intros H. apply valid_digits in H.
  eapply Z.lt_le_trans; [apply digits2_pos_bound|].
  apply Z.pow_le_mono_r; lia.
Qed.

Lemma Prim2SF_one : Prim2SF 1 = S754_finite false 4503599627370496 (-52).
Proof. vm_compute. reflexivity. Qed.

Lemma Prim2SF_zero : Prim2SF 0 = S754_zero false.
Proof. vm_compute. reflexivity. Qed.

(** A positive double that is at most one is [m * 2^e] with [e < 0] and
    [m <= 2^(-e)]. *)
Lemma finite_le_one (x : float) (m : positive) (e : Z) :
  Prim2SF x = S754_finite false m e ->
  (x <=? 1) = true ->
  (e < 0)%Z /\ (Zpos m <= 2 ^ (- e))%Z.
Proof.
  intros Hx Hle. rewrite leb_spec, Hx in Hle.
  assert (Hm : (Zpos m < 2 ^ 53)%Z).
  { apply (valid_mantissa false m e). rewrite <- Hx. apply Prim2SF_valid. }
  rewrite Prim2SF_one in Hle. unfold SFleb, SFcompare in Hle.
  destruct (Z.compare_spec e (-52)) as [He|He|He]; try discriminate.
  - subst e. split; [lia|]. rewrite Pos.compare_cont_spec in Hle.
    cbn [Pos.switch_Eq] in Hle.
    destruct (Pos.compare_spec m 4503599627370496) as [H|H|H];
      try discriminate.
    + subst m. vm_compute. discriminate.
    + apply Pos2Z.pos_lt_pos in H. apply Z.lt_le_incl. exact H.
  - split; [lia|].
    apply Z.lt_le_incl, (Z.lt_le_trans _ _ _ Hm).
    apply Z.pow_le_mono_r; lia.
Qed.

Lemma round_half_even_bounds (n e N : Z) :
  (0 <= n)%Z -> (e < 0)%Z -> (n <= N * 2 ^ (- e))%Z ->
  (0 <= round_half_even n e <= N)%Z.
Proof.
  intros Hn He HN. unfold round_half_even.
  destruct (Z.leb_spec 0 e) as [H|_]; [lia|].
  set (d := (2 ^ (- e))%Z) in *.
  assert (Hd : (0 < d)%Z) by (apply Z.pow_pos_nonneg; lia).
  pose proof (Z.div_mod n d ltac:(lia)) as Hdm.
  pose proof (Z.mod_pos_bound n d Hd) as Hr.
  assert (Hq : (0 <= n / d)%Z) by (apply Z.div_pos; lia).
  assert (HqN : (n / d <= N)%Z).
  { apply Z.div_le_upper_bound; lia. }
  destruct (Z.eq_dec (n / d) N) as [Heq|Hne].
  - assert (Hr0 : (n mod d = 0)%Z) by nia.
    rewrite Hr0. destruct (Z.ltb_spec (2 * 0) d); lia.
  - destruct (Z.ltb_spec (2 * (n mod d)) d); [lia|].
    destruct (Z.ltb_spec d (2 * (n mod d))); [lia|].
    destruct (Z.even (n / d)); lia.
Qed.

(** Every quotient [k / 10000] with [0 <= k <= 10000] lies in the unit
    interval as a double: checked value by value. *)
Definition unit_quotient_ok (k : nat) : bool :=
  between 0 (of_Z (Z.of_nat k) / of_Z 10000) 1.

Lemma unit_quotients_ok :
  forallb unit_quotient_ok (seq 0 (Z.to_nat 10001)) = true.
Proof. vm_compute. reflexivity. Qed.

Lemma unit_quotient (k : Z) :
  (0 <= k <= 10000)%Z -> between 0 (of_Z k / of_Z 10000) 1 = true.
Proof.
  intros Hk. pose proof unit_quotients_ok as H.
  rewrite forallb_forall in H.
  specialize (H (Z.to_nat k)). unfold unit_quotient_ok in H.
  rewrite Z2Nat.id in H by lia.
  apply H. apply in_seq. lia.
Qed.

(** [round(x, 4)] keeps a value of the unit interval inside it. *)
Lemma py_round4_unit (x : float) :
  between 0 x 1 = true -> between 0 (py_round x 4) 1 = true.
Proof.
  intros Hx. pose proof Hx as Hx'. unfold between in Hx'.
  apply andb_prop in Hx' as [H0 H1].
  unfold py_round. destruct (Prim2SF x) as [s|s| |s m e] eqn:E; auto.
  destruct s.
  - rewrite leb_spec, E, Prim2SF_zero in H0. discriminate.
  - destruct (finite_le_one x m e E H1) as [He Hm].
    change (10 ^ 4)%Z with 10000%Z.
    apply unit_quotient, round_half_even_bounds; lia.
Qed.

(** *** Order *)

Lemma SFcompare_antisym (x y : spec_float) :
  SFcompare y x = option_map CompOpp (SFcompare x y).
Proof.
  destruct x as [sx|sx| |sx mx ex], y as [sy|sy| |sy my ey]; cbn;
    try destruct sx; try destruct sy; cbn; try reflexivity;
    rewrite (Z.compare_antisym ex ey); destruct (ex ?= ey)%Z; cbn;
    try reflexivity;
    rewrite <- (Pos.compare_cont_antisym _ _ Eq);
    now rewrite ?CompOpp_involutive.
Qed.

Lemma ltb_asym (x y : float) : (x <? y) = true -> (y <? x) = false.
Proof.
  rewrite !ltb_spec. unfold SFltb.
  rewrite (SFcompare_antisym (Prim2SF x) (Prim2SF y)).
  destruct (SFcompare (Prim2SF x) (Prim2SF y)) as [[]|]; cbn; congruence.
Qed.

(** A double that is at least 1.0 and not above it is 1.0 itself. *)
Lemma leb_not_ltb_one (x : float) :
  (1 <=? x) = true -> (1 <? x) = false -> x = 1.
Proof.
  rewrite leb_spec, ltb_spec, Prim2SF_one. unfold SFleb, SFltb. intros Hle Hlt.
  apply Prim2SF_inj. rewrite Prim2SF_one.
  destruct (Prim2SF x) as [s|s| |s m e]; unfold SFcompare in Hle, Hlt;
    try destruct s; try discriminate.
  destruct (Z.compare_spec (-52) e) as [He|He|He]; try discriminate.
  subst e. f_equal.
  rewrite Pos.compare_cont_spec in Hle, Hlt. cbn [Pos.switch_Eq] in Hle, Hlt.
  destruct (Pos.compare_spec 4503599627370496 m) as [H|H|H];
    try discriminate.
  now symmetry.
Qed.

(** [max(1.0, fps)] is [fps] itself from 1.0 upwards. *)
Lemma py_max_one (fps : float) : (1 <=? fps) = true -> py_max 1 fps = fps.
Proof.
  intros Hle. unfold py_max. destruct (1 <? fps) eqn:Hlt; [reflexivity|].
  symmetry. now apply leb_not_ltb_one.
Qed.

(** *** The distance of two doubles *)

Lemma SFabs_binary_round (s : bool) (m : positive) (e : Z) :
  SFabs (binary_round prec emax s m e)
  = SFabs (binary_round prec emax false m e).
Proof.
  unfold binary_round, binary_round_aux.
  destruct (shl_align m e _) as [mz ez].
  destruct (shr_fexp prec emax (Zpos mz) ez loc_Exact) as [mrs' e'].
  destruct (shr_fexp prec emax _ e' loc_Exact) as [mrs'' e''].
  destruct (shr_m mrs''); [reflexivity| |reflexivity].
  destruct (e'' <=? emax - prec)%Z; reflexivity.
Qed.

Lemma SFabs_binary_normalize_opp (z e : Z) :
  SFabs (binary_normalize prec emax (- z) e false)
  = SFabs (binary_normalize prec emax z e false).
Proof.
  destruct z as [|p|p]; cbn [Z.opp binary_normalize]; [reflexivity| |].
  - apply SFabs_binary_round.
  - symmetry. apply SFabs_binary_round.
Qed.

Lemma SFabs_SFsub_sym (x y : spec_float) :
  SFabs (SF64sub x y) = SFabs (SF64sub y x).
Proof.
  unfold SF64sub.
  destruct x as [sx|sx| |sx mx ex], y as [sy|sy| |sy my ey];
    try (destruct sx, sy; reflexivity); try (destruct sx; reflexivity);
    try (destruct sy; reflexivity); try reflexivity.
  cbn [SFsub]. rewrite (Z.min_comm ey ex).
  rewrite <- SFabs_binary_normalize_opp. f_equal. f_equal. lia.
Qed.

(** [abs(a - b)] and [abs(b - a)] are the same double. *)
Lemma abs_sub_sym (a b : float) : abs (a - b) = abs (b - a).
Proof.
  apply Prim2SF_inj. rewrite !abs_spec, !sub_spec. apply SFabs_SFsub_sym.
Qed.

(** *** Conversion of a positive integer *)

#[local] Open Scope Z_scope.

Lemma digits2_pos_unique (m : positive) (k : Z) :
  2 ^ (k - 1) <= Zpos m < 2 ^ k -> Zpos (digits2_pos m) = k.
Proof.
  intros [Hlo Hhi].
  pose proof (digits2_pos_bound m) as Hb.
  pose proof (digits2_pos_lower m) as Hl.
  assert (Hk : 0 < k).
  { destruct (Z.lt_trichotomy k 0) as [H|[H|H]]; [|subst k|exact H].
    - rewrite Z.pow_neg_r in Hhi by exact H. lia.
    - cbn in Hhi. lia. }
  destruct (Z.lt_trichotomy (Zpos (digits2_pos m)) k) as [H|[H|H]];
    [|exact H|].
  - assert (2 ^ Zpos (digits2_pos m) <= 2 ^ (k - 1))
      by (apply Z.pow_le_mono_r; lia).
    lia.
  - assert (2 ^ k <= 2 ^ (Zpos (digits2_pos m) - 1))
      by (apply Z.pow_le_mono_r; lia).
    lia.
Qed.

Lemma digits2_pos_iter_xO (k m : positive) :
  digits2_pos (Pos.iter xO m k) = (digits2_pos m + k)%positive.
Proof.
  induction k as [|k IH] using Pos.peano_ind.
  - cbn. lia.
  - rewrite Pos.iter_succ. cbn [digits2_pos]. rewrite IH. lia.
Qed.

Lemma iter_xO_value (k m : positive) :
  Zpos (Pos.iter xO m k) = Zpos m * 2 ^ Zpos k.
Proof.
  induction k as [|k IH] using Pos.peano_ind.
  - cbn. lia.
  - rewrite Pos.iter_succ, Pos2Z.inj_xO, IH, Pos2Z.inj_succ, Z.pow_succ_r by lia.
    lia.
Qed.

Lemma shr_1_m (mrs : shr_record) :
  0 <= shr_m mrs -> shr_m (shr_1 mrs) = shr_m mrs / 2.
Proof.
  destruct mrs as [m r s]. cbn [shr_m]. intros Hm.
  destruct m as [|p|p]; [reflexivity| |lia].
  destruct p as [p|p|]; cbn [shr_1 shr_m].
  - rewrite Pos2Z.inj_xI. apply Z.div_unique with 1; lia.
  - rewrite Pos2Z.inj_xO. apply Z.div_unique with 0; lia.
  - reflexivity.
Qed.

Lemma iter_shr_1_m (k : positive) :
  forall mrs, 0 <= shr_m mrs ->
    shr_m (iter_pos shr_1 k mrs) = shr_m mrs / 2 ^ Zpos k.
Proof.
  assert (Hpos : forall mrs, 0 <= shr_m mrs -> 0 <= shr_m (shr_1 mrs)).
  { intros mrs H. rewrite shr_1_m by exact H. apply Z.div_pos; lia. }
  induction k as [k IH|k IH|]; intros mrs Hm; cbn [iter_pos].
  - assert (H1 : 0 <= shr_m (shr_1 mrs)) by now apply Hpos.
    assert (H2 : 0 <= shr_m (iter_pos shr_1 k (shr_1 mrs))).
    { rewrite IH by exact H1. apply Z.div_pos; [exact H1|].
      apply Z.pow_pos_nonneg; lia. }
    rewrite IH by exact H2. rewrite IH by exact H1. rewrite shr_1_m by exact Hm.
    rewrite !Z.div_div
      by first [apply Z.pow_pos_nonneg; lia | apply Z.pow_nonzero; lia | lia].
    f_equal. assert (E : Zpos k~1 = Zpos k + Zpos k + 1) by lia.
    rewrite E, !Z.pow_add_r by lia. change (2 ^ 1) with 2. ring.
  - assert (H2 : 0 <= shr_m (iter_pos shr_1 k mrs)).
    { rewrite IH by exact Hm. apply Z.div_pos; [exact Hm|].
      apply Z.pow_pos_nonneg; lia. }
    rewrite IH by exact H2. rewrite IH by exact Hm.
    rewrite Z.div_div
      by first [apply Z.pow_pos_nonneg; lia | apply Z.pow_nonzero; lia].
    f_equal. assert (E : Zpos k~0 = Zpos k + Zpos k) by lia.
    rewrite E, Z.pow_add_r by lia. reflexivity.
  - rewrite shr_1_m by exact Hm. reflexivity.
Qed.

(** A finite positive binary64 value, or plus infinity. *)
Definition positive_valid (x : spec_float) : Prop :=
  match x with
  | S754_finite false m e => bounded prec emax m e = true
  | S754_infinity false => True
  | _ => False
  end.

Lemma round_nearest_even_cases (q : Z) (l : location) :
  round_nearest_even q l = q \/ round_nearest_even q l = q + 1.
Proof.
  destruct l as [|[]]; cbn; auto. destruct (Z.even q); auto.
Qed.

Lemma shr_fexp_53 (pm : positive) (e : Z) :
  Zpos (digits2_pos pm) = 53 -> -1074 <= e ->
  shr_fexp prec emax (Zpos pm) e loc_Exact
  = ({| shr_m := Zpos pm; shr_r := false; shr_s := false |}, e).
Proof.
  intros Hd He. unfold shr_fexp, fexp, emin, prec, emax. cbn [Zdigits2].
  rewrite Hd. replace (Z.max (53 + e - 53) (3 - 1024 - 53) - e) with 0 by lia.
  reflexivity.
Qed.

Lemma bounded_53 (pm : positive) (e : Z) :
  Zpos (digits2_pos pm) = 53 -> -1074 <= e -> e <= 971 ->
  bounded prec emax pm e = true.
Proof.
  intros Hd He He'. unfold bounded, canonical_mantissa, fexp, emin, prec, emax.
  rewrite Hd. apply andb_true_intro. split.
  - apply Z.eqb_eq. lia.
  - apply Z.leb_le. lia.
Qed.

Lemma round_tail (q e' : Z) (l : location) :
  2 ^ 52 <= q < 2 ^ 53 -> -1074 <= e' ->
  positive_valid
    (let '(mrs'', e'') :=
       shr_fexp prec emax (round_nearest_even q l) e' loc_Exact in
     match shr_m mrs'' with
     | Z0 => S754_zero false
     | Zpos m =>
         if e'' <=? emax - prec then S754_finite false m e''
         else S754_infinity false
     | Zneg _ => S754_nan
     end).
Proof.
  intros [Hlo Hhi] He.
  assert (Hm1 : 2 ^ 52 <= round_nearest_even q l <= 2 ^ 53)
    by (destruct (round_nearest_even_cases q l) as [-> | ->]; lia).
  destruct (Z.eq_dec (round_nearest_even q l) (2 ^ 53)) as [Heq|Hne].
  - rewrite Heq. unfold shr_fexp, fexp, emin, prec, emax.
    change (Zdigits2 (2 ^ 53)) with 54.
    replace (Z.max (54 + e' - 53) (3 - 1024 - 53) - e') with 1 by lia.
    cbn [shr iter_pos]. change (shr_1 (shr_record_of_loc (2 ^ 53) loc_Exact))
      with {| shr_m := 2 ^ 52; shr_r := false; shr_s := false |}.
    cbn [shr_m]. change (2 ^ 52) with (Zpos 4503599627370496).
    destruct (Z.leb_spec (e' + 1) (1024 - 53)); cbn; [|exact I].
    apply bounded_53; [reflexivity|lia|lia].
  - destruct (round_nearest_even q l) as [|pm|pm] eqn:E; [lia| |lia].
    assert (Hd : Zpos (digits2_pos pm) = 53)
      by (apply digits2_pos_unique; change (53 - 1) with 52; lia).
    rewrite shr_fexp_53 by assumption. cbn [shr_m].
    unfold prec, emax. destruct (Z.leb_spec e' (1024 - 53)); cbn; [|exact I].
    apply bounded_53; [exact Hd|lia|lia].
Qed.

Lemma binary_round_positive (p : positive) :
  positive_valid (binary_round prec emax false p 0).
Proof.
  pose proof (digits2_pos_bound p) as Hhi.
  pose proof (digits2_pos_lower p) as Hlo.
  unfold binary_round, binary_round_aux.
  set (d := Zpos (digits2_pos p)) in *.
  assert (Hd : 1 <= d) by (unfold d; lia).
  unfold fexp at 1, emin, prec at 1 2, emax at 1.
  replace (Z.max (d + 0 - 53) (3 - 1024 - 53)) with (d - 53) by lia.
  unfold shl_align. replace (d - 53 - 0) with (d - 53) by lia.
  destruct (d - 53) as [|k|k] eqn:Hk.
  - rewrite shr_fexp_53 by (fold d; lia). cbn [shr_m].
    apply round_tail; [|lia].
    replace d with 53 in * by lia. change (53 - 1) with 52 in Hlo. lia.
  - unfold shr_fexp at 1, fexp at 1, emin, prec at 1 2, emax at 1.
    cbn [Zdigits2]. fold d.
    replace (Z.max (d + 0 - 53) (3 - 1024 - 53) - 0) with (Zpos k) by lia.
    cbn [shr]. apply round_tail; [|lia].
    rewrite iter_shr_1_m by (cbn; lia). cbn [shr_record_of_loc shr_m].
    assert (Hp : 0 < 2 ^ Zpos k) by (apply Z.pow_pos_nonneg; lia).
    replace d with (53 + Zpos k) in Hhi by lia.
    replace (d - 1) with (52 + Zpos k) in Hlo by lia.
    rewrite Z.pow_add_r in Hhi, Hlo by lia.
    split.
    + apply Z.div_le_lower_bound; lia.
    + apply Z.div_lt_upper_bound; lia.
  - assert (Hdig : Zpos (digits2_pos (Pos.iter xO p k)) = 53)
      by (rewrite digits2_pos_iter_xO, Pos2Z.inj_add; fold d; lia).
    rewrite shr_fexp_53 by (try exact Hdig; lia). cbn [shr_m].
    apply round_tail; [|lia].
    pose proof (digits2_pos_bound (Pos.iter xO p k)) as Hhi'.
    pose proof (digits2_pos_lower (Pos.iter xO p k)) as Hlo'.
    rewrite Hdig in Hhi', Hlo'. change (53 - 1) with 52 in Hlo'. lia.
Qed.

Lemma Prim2SF_of_Z_positive (n : Z) :
  0 < n -> positive_valid (Prim2SF (of_Z n)).
Proof.
  intros Hn. destruct n as [|p|p]; try lia.
  unfold of_Z. cbn [binary_normalize].
  pose proof (binary_round_positive p) as H.
  rewrite Prim2SF_SF2Prim; [exact H|].
  destruct (binary_round prec emax false p 0) as [s|s| |s m e];
    try reflexivity.
  destruct s; [contradiction|exact H].
Qed.

(** Zero over a positive count is zero: the mean of an all-zero array. *)
Lemma zero_div_of_Z (n : Z) : 0 < n -> (0 / of_Z n)%float = 0%float.
Proof.
  intros Hn. apply Prim2SF_inj. rewrite div_spec, Prim2SF_zero.
  pose proof (Prim2SF_of_Z_positive n Hn) as H.
  destruct (Prim2SF (of_Z n)) as [s|s| |s m e]; try contradiction;
    destruct s; try contradiction; reflexivity.
Qed.

(** *** Values of finite doubles *)

(** A canonical mantissa and exponent: the exponent is at least [-1074],
    and above it the mantissa has 53 digits. *)
Lemma bounded_canonical (m : positive) (e : Z) :
  bounded prec emax m e = true ->
  -1074 <= e <= 971
  /\ Zpos (digits2_pos m) <= 53
  /\ (-1074 < e -> Zpos (digits2_pos m) = 53).
Proof.
  unfold bounded, canonical_mantissa, fexp, emin, prec, emax. intros H.
  apply andb_prop in H as [H1 H2]. apply Z.eqb_eq in H1. apply Z.leb_le in H2.
  lia.
Qed.

(** The value of a finite double, scaled by [2^1074] to an integer. *)
Definition scaled (m : positive) (e : Z) : Z := Zpos m * 2 ^ (e + 1074).

(** Canonical positive doubles compare as their values do. *)
Lemma SFcompare_scaled (m1 m2 : positive) (e1 e2 : Z) :
  bounded prec emax m1 e1 = true -> bounded prec emax m2 e2 = true ->
  scaled m1 e1 < scaled m2 e2 ->
  SFcompare (S754_finite false m1 e1) (S754_finite false m2 e2) = Some Lt.
Proof.
  intros H1 H2 Hlt.
  destruct (bounded_canonical m1 e1 H1) as (He1 & Hd1 & Hn1).
  destruct (bounded_canonical m2 e2 H2) as (He2 & Hd2 & Hn2).
  pose proof (digits2_pos_bound m2) as Hb2.
  pose proof (digits2_pos_lower m1) as Hl1.
  unfold scaled in Hlt. cbn [SFcompare].
  destruct (Z.compare_spec e1 e2) as [He|He|He]; [|reflexivity|exfalso].
  - subst e2. rewrite Pos.compare_cont_spec. cbn [Pos.switch_Eq].
    assert (Hp : 0 < 2 ^ (e1 + 1074)) by (apply Z.pow_pos_nonneg; lia).
    assert (Hm : Zpos m1 < Zpos m2) by nia.
    destruct (Pos.compare_spec m1 m2) as [E|E|E]; [subst; lia|reflexivity|].
    apply Pos2Z.pos_lt_pos in E. lia.
  - rewrite (Hn1 ltac:(lia)) in Hl1. change (53 - 1) with 52 in Hl1.
    assert (Hb2' : Zpos m2 < 2 ^ 53).
    { eapply Z.lt_le_trans; [exact Hb2|]. apply Z.pow_le_mono_r; lia. }
    replace (e1 + 1074) with ((e1 - e2 - 1) + 1 + (e2 + 1074)) in Hlt by lia.
    rewrite !Z.pow_add_r in Hlt by lia. change (2 ^ 1) with 2 in Hlt.
    assert (Hp : 0 < 2 ^ (e2 + 1074)) by (apply Z.pow_pos_nonneg; lia).
    assert (Hq : 1 <= 2 ^ (e1 - e2 - 1))
      by (apply (Z.pow_le_mono_r 2 0); lia).
    assert (Hx : Zpos m2 < Zpos m1 * 2 ^ (e1 - e2 - 1) * 2) by nia.
    nia.
Qed.

(** *** The double of an integer below [2^53] *)

Lemma binary_round_aux_exact (mz : positive) (ez : Z) :
  Zpos (digits2_pos mz) = 53 -> -1074 <= ez <= 971 ->
  binary_round_aux prec emax false (Zpos mz) ez loc_Exact
  = S754_finite false mz ez.
Proof.
  intros Hd He. unfold binary_round_aux.
  rewrite shr_fexp_53 by (try exact Hd; lia).
  cbn [shr_m loc_of_shr_record round_nearest_even].
  rewrite shr_fexp_53 by (try exact Hd; lia). cbn [shr_m].
  unfold prec, emax. destruct (Z.leb_spec ez (1024 - 53)); [reflexivity|lia].
Qed.

(** An integer of at most 53 digits converts exactly: the mantissa is the
    integer shifted to 53 digits. *)
Lemma Prim2SF_of_Z_exact (p : positive) :
  Zpos (digits2_pos p) <= 53 ->
  exists m e,
    Prim2SF (of_Z (Zpos p)) = S754_finite false m e
    /\ Zpos (digits2_pos m) = 53
    /\ e = Zpos (digits2_pos p) - 53
    /\ Zpos m = Zpos p * 2 ^ (- e).
Proof.
  intros Hd. unfold of_Z. cbn [binary_normalize].
  assert (H : exists m e,
             binary_round prec emax false p 0 = S754_finite false m e
             /\ Zpos (digits2_pos m) = 53
             /\ e = Zpos (digits2_pos p) - 53
             /\ Zpos m = Zpos p * 2 ^ (- e)).
  { unfold binary_round.
    set (d := Zpos (digits2_pos p)) in *.
    assert (Hd1 : 1 <= d) by (unfold d; lia).
    unfold fexp at 1, emin, prec at 1 2, emax at 1.
    replace (Z.max (d + 0 - 53) (3 - 1024 - 53)) with (d - 53) by lia.
    unfold shl_align. replace (d - 53 - 0) with (d - 53) by lia.
    destruct (d - 53) as [|k|k] eqn:Hk; [| lia |].
    - exists p, 0. rewrite binary_round_aux_exact by (fold d; lia).
      repeat split; try (fold d; lia).
    - assert (Hdig : Zpos (digits2_pos (Pos.iter xO p k)) = 53)
        by (rewrite digits2_pos_iter_xO, Pos2Z.inj_add; fold d; lia).
      exists (Pos.iter xO p k), (Zneg k).
      rewrite binary_round_aux_exact by (try exact Hdig; lia).
      repeat split; try exact Hdig. cbn [Z.opp]. apply iter_xO_value. }
  destruct H as (m & e & Hr & Hdm & He & Hv). exists m, e.
  rewrite Prim2SF_SF2Prim.
  - repeat split; assumption.
  - rewrite Hr. cbn [SpecFloat.valid_binary]. apply bounded_53; [exact Hdm|lia|lia].
Qed.

(** *** The divisor: a finite double from 1.0 upwards *)

Lemma Prim2SF_divisor (d : float) :
  (1 <=? d)%float = true -> (d <? infinity)%float = true ->
  exists my ey,
    Prim2SF d = S754_finite false my ey
    /\ Zpos (digits2_pos my) = 53 /\ -52 <= ey <= 971.
Proof.
  rewrite leb_spec, ltb_spec, Prim2SF_one.
  change (Prim2SF infinity) with (S754_infinity false).
  pose proof (Prim2SF_valid d) as Hv.
  destruct (Prim2SF d) as [s|s| |s my ey]; unfold SFleb, SFltb, SFcompare;
    try destruct s; try discriminate.
  intros Hle _. exists my, ey. split; [reflexivity|].
  cbn [SpecFloat.valid_binary] in Hv.
  destruct (bounded_canonical my ey Hv) as (He & Hd & Hn).
  destruct (Z.compare_spec (-52) ey) as [E|E|E]; try discriminate.
  - subst ey. split; [apply Hn; lia|lia].
  - split; [apply Hn; lia|lia].
Qed.


(** *** Rounding a quotient *)

(** Where the remainder [r] of a division by [my] lies. *)
Lemma new_location_spec (my r : Z) :
  0 < my -> 0 <= r < my ->
  (r = 0 /\ new_location my r = loc_Exact)
  \/ (0 < r /\ 2 * r < my /\ new_location my r = loc_Inexact Lt)
  \/ (2 * r = my /\ new_location my r = loc_Inexact Eq)
  \/ (my < 2 * r /\ new_location my r = loc_Inexact Gt).
Proof.
  intros Hmy Hr. unfold new_location.
  change (IntDef.Z.even my) with (Z.even my).
  destruct (Z.even my) eqn:Hev;
    [unfold new_location_even|unfold new_location_odd];
    (destruct (Z.eqb_spec r 0) as [->|Hr0];
     [left; split; reflexivity|right]).
  - destruct (Z.compare_spec (2 * r) my) as [H|H|H].
    + right. left. split; [exact H|reflexivity].
    + left. split; [lia|]. split; [exact H|reflexivity].
    + right. right. split; [exact H|reflexivity].
  - assert (Hodd : Z.odd my = true)
      by (rewrite <- Z.negb_even, Hev; reflexivity).
    apply Z.odd_spec in Hodd as [c Hc].
    destruct (Z.compare_spec (2 * r + 1) my) as [H|H|H].
    + left. split; [lia|]. split; [lia|reflexivity].
    + left. split; [lia|]. split; [lia|reflexivity].
    + right. right. split; [lia|reflexivity].
Qed.

Lemma loc_of_shr_record_of_loc (q : Z) (l : location) :
  loc_of_shr_record (shr_record_of_loc q l) = l
  /\ shr_m (shr_record_of_loc q l) = q.
Proof. destruct l as [|[]]; split; reflexivity. Qed.

(** Rounding the quotient itself: the result is within half a unit of the
    exact quotient [m' / my]. *)
Lemma round_quotient (m' my q r : Z) :
  0 < my -> m' = my * q + r -> 0 <= r < my ->
  let m2 := round_nearest_even q (new_location my r) in
  q <= m2 <= q + 1
  /\ 2 * m2 * my - 2 * m' <= my
  /\ 2 * m' - 2 * m2 * my <= my.
Proof.
  intros Hmy Hdiv Hr m2. subst m2.
  destruct (new_location_spec my r Hmy Hr)
    as [[H0 ->]|[(H0 & H1 & ->)|[(H0 & ->)|(H0 & ->)]]];
    cbn [round_nearest_even]; try destruct (Z.even q); split; nia.
Qed.


(** One shift to the right of a quotient with its location. *)
Lemma shr_1_location (q : Z) (l : location) :
  0 <= q ->
  let mrs := shr_1 (shr_record_of_loc q l) in
  shr_m mrs = q / 2
  /\ loc_of_shr_record mrs
     = match Z.odd q, l with
       | false, loc_Exact => loc_Exact
       | false, loc_Inexact _ => loc_Inexact Lt
       | true, loc_Exact => loc_Inexact Eq
       | true, loc_Inexact _ => loc_Inexact Gt
       end.
Proof.
  intros Hq mrs. subst mrs. split.
  - rewrite shr_1_m; destruct l as [|[]]; cbn [shr_record_of_loc shr_m];
      try reflexivity; exact Hq.
  - destruct q as [|[p|p|]|p]; [| | | |lia]; destruct l as [|[]]; reflexivity.
Qed.

(** Rounding the quotient after one shift to the right: the result is within
    half a unit of [m' / (2 * my)]. *)
Lemma round_half_quotient (m' my q r : Z) :
  0 < my -> 0 <= q -> m' = my * q + r -> 0 <= r < my ->
  let mrs := shr_1 (shr_record_of_loc q (new_location my r)) in
  let m2 := round_nearest_even (shr_m mrs) (loc_of_shr_record mrs) in
  q / 2 <= m2 <= q / 2 + 1
  /\ 4 * m2 * my - 2 * m' <= 2 * my
  /\ 2 * m' - 4 * m2 * my <= 2 * my.
Proof.
  intros Hmy Hq Hdiv Hr mrs m2. subst m2.
  destruct (shr_1_location q (new_location my r) Hq) as [Hm Hl].
  fold mrs in Hm, Hl. rewrite Hm, Hl. clear Hm Hl mrs.
  set (a := q / 2).
  destruct (Z.odd q) eqn:Hodd.
  - apply Z.odd_spec in Hodd as [c Hc].
    assert (Ha : a = c) by (unfold a; symmetry; apply Z.div_unique with 1; lia).
    destruct (new_location_spec my r Hmy Hr)
      as [[H0 ->]|[(H0 & H1 & ->)|[(H0 & ->)|(H0 & ->)]]];
      cbn [round_nearest_even]; try destruct (Z.even a);
      (split; [lia|]); subst m' q a; split; nia.
  - assert (Hev : Z.even q = true) by (rewrite <- Z.negb_odd, Hodd; reflexivity).
    apply Z.even_spec in Hev as [c Hc].
    assert (Ha : a = c) by (unfold a; symmetry; apply Z.div_unique with 0; lia).
    destruct (new_location_spec my r Hmy Hr)
      as [[H0 ->]|[(H0 & H1 & ->)|[(H0 & ->)|(H0 & ->)]]];
      cbn [round_nearest_even]; (split; [lia|]); subst m' q a; split; nia.
Qed.


(** The last step of [binary_round_aux]: the rounded mantissa is put in
    canonical form without changing the value. *)
Lemma round_tail_value (m2 e : Z) :
  0 < m2 <= 2 ^ 53 -> -1074 <= e <= 970 -> (e = -1074 \/ 2 ^ 52 <= m2) ->
  exists m3 e3,
    (let '(mrs'', e'') := shr_fexp prec emax m2 e loc_Exact in
     match shr_m mrs'' with
     | Z0 => S754_zero false
     | Zpos m =>
         if e'' <=? emax - prec then S754_finite false m e''
         else S754_infinity false
     | Zneg _ => S754_nan
     end) = S754_finite false m3 e3
    /\ Zpos m3 * 2 ^ (e3 + 1074) = m2 * 2 ^ (e + 1074).
Proof.
  intros [Hlo Hhi] He Hnorm.
  destruct (Z.eq_dec m2 (2 ^ 53)) as [->|Hne].
  - unfold shr_fexp, fexp, emin, prec, emax.
    change (Zdigits2 (2 ^ 53)) with 54.
    replace (Z.max (54 + e - 53) (3 - 1024 - 53) - e) with 1 by lia.
    cbn [shr iter_pos].
    change (shr_1 (shr_record_of_loc (2 ^ 53) loc_Exact))
      with {| shr_m := 2 ^ 52; shr_r := false; shr_s := false |}.
    cbn [shr_m]. change (2 ^ 52) with (Zpos 4503599627370496).
    destruct (Z.leb_spec (e + 1) (1024 - 53)); [|lia].
    exists 4503599627370496%positive, (e + 1). split; [reflexivity|].
    replace (e + 1 + 1074) with (e + 1074 + 1) by lia.
    rewrite Z.pow_add_r by lia. change (2 ^ 53) with (4503599627370496 * 2).
    change (2 ^ 1) with 2. ring.
  - destruct m2 as [|pm|pm]; [lia| |lia].
    pose proof (digits2_pos_bound pm) as Hb.
    pose proof (digits2_pos_lower pm) as Hl.
    assert (Hd : Zpos (digits2_pos pm) <= 53).
    { destruct (Z.le_gt_cases (Zpos (digits2_pos pm)) 53) as [H|H];
        [exact H|].
      assert (2 ^ 53 <= 2 ^ (Zpos (digits2_pos pm) - 1))
        by (apply Z.pow_le_mono_r; lia).
      lia. }
    assert (Hshift : Z.max (Zpos (digits2_pos pm) + e - 53) (3 - 1024 - 53) - e
                     = 0).
    { destruct Hnorm as [->|Hn]; [lia|].
      assert (Zpos (digits2_pos pm) = 53)
        by (apply digits2_pos_unique; change (53 - 1) with 52; lia).
      lia. }
    unfold shr_fexp, fexp, emin, prec, emax. cbn [Zdigits2].
    rewrite Hshift. cbn [shr shr_record_of_loc shr_m].
    destruct (Z.leb_spec e (1024 - 53)); [|lia].
    exists pm, e. split; reflexivity.
Qed.

(** The quotient of two normal doubles, the dividend between [2^-52] and
    [2^52]: [SFdiv] rounds the exact quotient to nearest. *)
Lemma SFdiv_nearest (mx my : positive) (ex ey : Z) :
  Zpos (digits2_pos mx) = 53 -> Zpos (digits2_pos my) = 53 ->
  -52 <= ex <= -1 -> -52 <= ey <= 971 ->
  exists m3 e3 U,
    SF64div (S754_finite false mx ex) (S754_finite false my ey)
    = S754_finite false m3 e3
    /\ 0 < U /\ U * Zpos my < 2 ^ (1074 - ey)
    /\ 2 * scaled m3 e3 * Zpos my - 2 * (Zpos mx * 2 ^ (ex - ey + 1074))
       <= U * Zpos my
    /\ 2 * (Zpos mx * 2 ^ (ex - ey + 1074)) - 2 * scaled m3 e3 * Zpos my
       <= U * Zpos my.
Proof.
  intros Hdx Hdy Hex Hey.
  pose proof (digits2_pos_bound mx) as Hxhi.
  pose proof (digits2_pos_lower mx) as Hxlo.
  pose proof (digits2_pos_bound my) as Hyhi.
  pose proof (digits2_pos_lower my) as Hylo.
  rewrite Hdx in Hxhi, Hxlo. rewrite Hdy in Hyhi, Hylo.
  change (53 - 1) with 52 in Hxlo, Hylo.
  unfold SF64div, SFdiv, SFdiv_core_binary. cbn [Zdigits2 xorb].
  rewrite Hdx, Hdy.
  set (E' := Z.max (ex - ey - 53) (-1074)).
  replace (Z.min (fexp prec emax (53 + ex - (53 + ey))) (ex - ey)) with E'
    by (unfold E', fexp, emin, prec, emax; lia).
  set (s := ex - ey - E').
  assert (Hs : 51 <= s <= 53) by (unfold s, E'; lia).
  destruct s as [|ps|ps] eqn:Hps; [lia| |lia].
  rewrite Z.shiftl_mul_pow2 by lia.
  set (m' := Zpos mx * 2 ^ Zpos ps).
  change (IntDef.Z.div_eucl m' (Zpos my)) with (Z.div_eucl m' (Zpos my)).
  pose proof (Z_div_mod m' (Zpos my) ltac:(lia)) as Hdm.
  destruct (Z.div_eucl m' (Zpos my)) as [q r]. destruct Hdm as [Hdiv Hr].
  assert (Hp : 0 < 2 ^ Zpos ps) by (apply Z.pow_pos_nonneg; lia).
  assert (Hps1 : 2 ^ Zpos ps = 2 * 2 ^ (Zpos ps - 1)).
  { replace (Zpos ps) with (Zpos ps - 1 + 1) at 1 by lia.
    rewrite Z.pow_add_r by lia. change (2 ^ 1) with 2. ring. }
  assert (Hp1 : 0 < 2 ^ (Zpos ps - 1)) by (apply Z.pow_pos_nonneg; lia).
  assert (Hqlo : 2 ^ (Zpos ps - 1) <= q).
  { assert (H : 2 ^ (Zpos ps - 1) * Zpos my < m' + Zpos my) by (unfold m'; nia).
    nia. }
  assert (Hqhi : q < 2 * 2 ^ Zpos ps).
  { assert (H : m' < 2 * 2 ^ Zpos ps * Zpos my) by (unfold m'; nia).
    nia. }
  destruct q as [|pq|pq]; [lia| |lia].
  pose proof (digits2_pos_bound pq) as Hqb.
  pose proof (digits2_pos_lower pq) as Hql.
  set (dq := Zpos (digits2_pos pq)) in *.
  assert (HE' : -1074 <= E' <= -2) by (unfold E'; lia).
  assert (HsE : Zpos ps + E' = ex - ey) by (unfold s in Hps; lia).
  assert (HU0 : 0 < 2 ^ (E' + 1074)) by (apply Z.pow_pos_nonneg; lia).
  assert (Hscale : 2 ^ Zpos ps * 2 ^ (E' + 1074) = 2 ^ (ex - ey + 1074)).
  { rewrite <- Z.pow_add_r by lia. f_equal. lia. }
  assert (Hnum : m' * 2 ^ (E' + 1074) = Zpos mx * 2 ^ (ex - ey + 1074)).
  { unfold m'. rewrite <- Hscale. ring. }
  unfold binary_round_aux.
  destruct (Z_lt_le_dec (Zpos pq) (2 ^ 53)) as [Hq53|Hq53].
  - (* no shift *)
    assert (Hdq : dq <= 53).
    { destruct (Z.le_gt_cases dq 53) as [H|H]; [exact H|].
      assert (2 ^ 53 <= 2 ^ (dq - 1)) by (apply Z.pow_le_mono_r; lia). lia. }
    assert (Hnorm : E' = -1074 \/ 2 ^ 52 <= Zpos pq).
    { destruct (Z.eq_dec E' (-1074)) as [H|H]; [now left|right].
      assert (Zpos ps = 53) by (unfold E' in *; lia).
      replace (Zpos ps - 1) with 52 in Hqlo by lia. exact Hqlo. }
    assert (Hshift : Z.max (dq + E' - 53) (3 - 1024 - 53) - E' = 0).
    { destruct Hnorm as [H|H]; [lia|].
      assert (dq = 53)
        by (apply digits2_pos_unique; change (53 - 1) with 52; lia).
      lia. }
    unfold shr_fexp at 1, fexp, emin, prec at 1 2, emax at 1.
    cbn [Zdigits2]. fold dq. rewrite Hshift. cbn [shr].
    destruct (loc_of_shr_record_of_loc (Zpos pq) (new_location (Zpos my) r))
      as [-> ->].
    destruct (round_quotient m' (Zpos my) (Zpos pq) r ltac:(lia) Hdiv Hr)
      as (Hm2 & Hup & Hdn).
    set (m2 := round_nearest_even (Zpos pq) (new_location (Zpos my) r)) in *.
    destruct (round_tail_value m2 E' ltac:(lia) ltac:(lia) ltac:(lia))
      as (m3 & e3 & Hres & Hval).
    exists m3, e3, (2 ^ (E' + 1074)). split; [exact Hres|].
    split; [exact HU0|].
    unfold scaled. rewrite Hval, <- Hnum.
    split; [|split].
    2:{ replace (2 * (m2 * 2 ^ (E' + 1074)) * Zpos my
                 - 2 * (m' * 2 ^ (E' + 1074)))
          with (2 ^ (E' + 1074) * (2 * m2 * Zpos my - 2 * m')) by ring.
        apply Z.mul_le_mono_nonneg_l; [lia|exact Hup]. }
    2:{ replace (2 * (m' * 2 ^ (E' + 1074))
                 - 2 * (m2 * 2 ^ (E' + 1074)) * Zpos my)
          with (2 ^ (E' + 1074) * (2 * m' - 2 * m2 * Zpos my)) by ring.
        apply Z.mul_le_mono_nonneg_l; [lia|exact Hdn]. }
    destruct (Z.eq_dec E' (-1074)) as [HE|HE].
    + rewrite HE. change (2 ^ (-1074 + 1074)) with 1.
      assert (2 ^ 53 <= 2 ^ (1074 - ey)) by (apply Z.pow_le_mono_r; lia).
      lia.
    + assert (HEv : E' = ex - ey - 53) by (unfold E' in *; lia).
      assert (H1 : 2 ^ (E' + 1074) * 2 ^ 53 = 2 ^ (ex - ey + 1074)).
      { rewrite <- Z.pow_add_r by lia. f_equal. lia. }
      assert (H2 : 2 ^ (ex - ey + 1074) <= 2 ^ (1074 - ey))
        by (apply Z.pow_le_mono_r; lia).
      assert (H3 : 2 ^ (E' + 1074) * Zpos my < 2 ^ (E' + 1074) * 2 ^ 53)
        by (apply Z.mul_lt_mono_pos_l; [exact HU0|exact Hyhi]).
      rewrite H1 in H3. clear - H2 H3. lia.
  - (* one shift to the right *)
    assert (Hps53 : Zpos ps = 53).
    { destruct (Z.eq_dec (Zpos ps) 53) as [H|H]; [exact H|].
      assert (2 ^ Zpos ps <= 2 ^ 52) by (apply Z.pow_le_mono_r; lia).
      lia. }
    rewrite Hps53 in *.
    assert (HEv : E' = ex - ey - 53) by lia.
    assert (Hdq : dq = 54).
    { apply digits2_pos_unique. change (54 - 1) with 53.
      change (2 ^ 54) with (2 * 2 ^ 53). lia. }
    unfold shr_fexp at 1, fexp, emin, prec at 1 2, emax at 1.
    cbn [Zdigits2]. fold dq. rewrite Hdq.
    replace (Z.max (54 + E' - 53) (3 - 1024 - 53) - E') with 1 by lia.
    cbn [shr iter_pos].
    destruct (round_half_quotient m' (Zpos my) (Zpos pq) r
                ltac:(lia) ltac:(lia) Hdiv Hr) as (Hm2 & Hup & Hdn).
    set (mrs := shr_1 (shr_record_of_loc (Zpos pq)
                         (new_location (Zpos my) r))) in *.
    set (m2 := round_nearest_even (shr_m mrs) (loc_of_shr_record mrs)) in *.
    assert (Hhalf : 2 ^ 52 <= Zpos pq / 2 < 2 ^ 53).
    { split.
      - apply Z.div_le_lower_bound; [lia|]. change (2 * 2 ^ 52) with (2 ^ 53).
        exact Hq53.
      - apply Z.div_lt_upper_bound; [lia|]. exact Hqhi. }
    destruct (round_tail_value m2 (E' + 1) ltac:(lia) ltac:(lia) ltac:(lia))
      as (m3 & e3 & Hres & Hval).
    exists m3, e3, (2 ^ (E' + 1 + 1074)). split; [exact Hres|].
    assert (HU1 : 2 ^ (E' + 1 + 1074) = 2 * 2 ^ (E' + 1074)).
    { replace (E' + 1 + 1074) with (E' + 1074 + 1) by lia.
      rewrite Z.pow_add_r by lia. change (2 ^ 1) with 2. ring. }
    split; [lia|].
    unfold scaled. rewrite Hval, <- Hnum, HU1.
    split; [|split].
    2:{ replace (2 * (m2 * (2 * 2 ^ (E' + 1074))) * Zpos my
                 - 2 * (m' * 2 ^ (E' + 1074)))
          with (2 ^ (E' + 1074) * (4 * m2 * Zpos my - 2 * m')) by ring.
        replace (2 * 2 ^ (E' + 1074) * Zpos my)
          with (2 ^ (E' + 1074) * (2 * Zpos my)) by ring.
        apply Z.mul_le_mono_nonneg_l; [lia|exact Hup]. }
    2:{ replace (2 * (m' * 2 ^ (E' + 1074))
                 - 2 * (m2 * (2 * 2 ^ (E' + 1074))) * Zpos my)
          with (2 ^ (E' + 1074) * (2 * m' - 4 * m2 * Zpos my)) by ring.
        replace (2 * 2 ^ (E' + 1074) * Zpos my)
          with (2 ^ (E' + 1074) * (2 * Zpos my)) by ring.
        apply Z.mul_le_mono_nonneg_l; [lia|exact Hdn]. }
    assert (H1 : 2 ^ (E' + 1074) * 2 ^ 53 = 2 ^ (ex - ey + 1074)).
    { rewrite <- Z.pow_add_r by lia. f_equal. lia. }
    assert (H2 : 2 ^ (ex - ey + 1074 + 1) <= 2 ^ (1074 - ey))
      by (apply Z.pow_le_mono_r; lia).
    rewrite Z.pow_add_r in H2 by lia. change (2 ^ 1) with 2 in H2.
    assert (H3 : 2 ^ (E' + 1074) * Zpos my < 2 ^ (E' + 1074) * 2 ^ 53)
      by (apply Z.mul_lt_mono_pos_l; [exact HU0|exact Hyhi]).
    rewrite H1 in H3. clear - H2 H3. lia.
Qed.

(** *** Quotients of integers by one divisor keep their order *)

(** The quotient of a positive integer below [2^52] by a finite divisor
    from 1.0 upwards: a positive double within half a unit in the last place
    of the exact quotient, that unit being smaller than the reciprocal of
    the divisor. *)
Lemma quotient_of_index (n : Z) (d : float) (my : positive) (ey : Z) :
  0 < n < 2 ^ 52 ->
  Prim2SF d = S754_finite false my ey ->
  Zpos (digits2_pos my) = 53 -> -52 <= ey <= 971 ->
  exists m3 e3 U,
    Prim2SF (of_Z n / d) = S754_finite false m3 e3
    /\ bounded prec emax m3 e3 = true
    /\ 0 < U /\ U * Zpos my < 2 ^ (1074 - ey)
    /\ 2 * scaled m3 e3 * Zpos my - 2 * (n * 2 ^ (1074 - ey)) <= U * Zpos my
    /\ 2 * (n * 2 ^ (1074 - ey)) - 2 * scaled m3 e3 * Zpos my <= U * Zpos my.
Proof.
  intros Hn Hd Hdy Hey. destruct n as [|p|p]; try lia.
  pose proof (digits2_pos_lower p) as Hpl.
  assert (Hdp : Zpos (digits2_pos p) <= 52).
  { destruct (Z.le_gt_cases (Zpos (digits2_pos p)) 52) as [H|H]; [exact H|].
    assert (2 ^ 52 <= 2 ^ (Zpos (digits2_pos p) - 1))
      by (apply Z.pow_le_mono_r; lia).
    lia. }
  destruct (Prim2SF_of_Z_exact p ltac:(lia)) as (mx & ex & Hx & Hdx & Hex & Hmx).
  destruct (SFdiv_nearest mx my ex ey Hdx Hdy ltac:(lia) Hey)
    as (m3 & e3 & U & Hres & HU & HUy & Hup & Hdn).
  exists m3, e3, U.
  assert (Hq : Prim2SF (of_Z (Zpos p) / d) = S754_finite false m3 e3)
    by (rewrite div_spec, Hx, Hd; exact Hres).
  split; [exact Hq|]. split.
  { pose proof (Prim2SF_valid (of_Z (Zpos p) / d)) as Hv.
    rewrite Hq in Hv. exact Hv. }
  split; [exact HU|]. split; [exact HUy|].
  assert (Hnum : Zpos mx * 2 ^ (ex - ey + 1074) = Zpos p * 2 ^ (1074 - ey)).
  { rewrite Hmx, <- Z.mul_assoc, <- Z.pow_add_r by lia. do 2 f_equal. lia. }
  rewrite <- Hnum. split; assumption.
Qed.

(** Division by a finite divisor from 1.0 upwards keeps integers below
    [2^52] in their strict order. *)
Lemma div_index_lt (i j : Z) (d : float) :
  0 <= i < j -> j < 2 ^ 52 ->
  (1 <=? d)%float = true -> (d <? infinity)%float = true ->
  (of_Z i / d <? of_Z j / d)%float = true.
Proof.
  intros Hij Hj Hd1 Hdinf.
  destruct (Prim2SF_divisor d Hd1 Hdinf) as (my & ey & Hd & Hdy & Hey).
  destruct (quotient_of_index j d my ey ltac:(lia) Hd Hdy Hey)
    as (mj & ej & Uj & Hqj & Hbj & HUj & HUyj & Hupj & Hdnj).
  rewrite ltb_spec, Hqj. unfold SFltb.
  destruct (Z.eq_dec i 0) as [->|Hi].
  - change (of_Z 0) with 0%float. rewrite div_spec, Prim2SF_zero, Hd.
    reflexivity.
  - destruct (quotient_of_index i d my ey ltac:(lia) Hd Hdy Hey)
      as (mi & ei & Ui & Hqi & Hbi & HUi & HUyi & Hupi & Hdni).
    rewrite Hqi, (SFcompare_scaled mi mj ei ej Hbi Hbj); [reflexivity|].
    set (T := 2 ^ (1074 - ey)) in *.
    set (Ri := scaled mi ei) in *. set (Rj := scaled mj ej) in *.
    assert (HT : 0 < T) by (apply Z.pow_pos_nonneg; lia).
    assert (H1 : 2 * Ri * Zpos my < 2 * (i * T) + T) by lia.
    assert (H2 : 2 * (j * T) - T < 2 * Rj * Zpos my) by lia.
    assert (H3 : 2 * (i * T) + T <= 2 * (j * T) - T) by nia.
    assert (H4 : Ri * Zpos my < Rj * Zpos my) by lia.
    apply Z.mul_lt_mono_pos_r in H4; [exact H4|lia].
Qed.

(** [max(1.0, fps)] is a finite double from 1.0 upwards unless [fps] is
    plus infinity. *)
Lemma py_max_one_finite (fps : float) :
  (fps =? infinity)%float = false ->
  (1 <=? py_max 1 fps)%float = true
  /\ (py_max 1 fps <? infinity)%float = true.
Proof.
  intros Hinf. unfold py_max. destruct (1 <? fps)%float eqn:Hlt.
  - split; [now apply ltb_leb|].
    rewrite eqb_spec in Hinf. rewrite ltb_spec in Hlt |- *.
    rewrite Prim2SF_one in Hlt.
    change (Prim2SF infinity) with (S754_infinity false) in *.
    unfold SFeqb, SFltb, SFcompare in *.
    destruct (Prim2SF fps) as [s|s| |s m e]; try destruct s;
      try discriminate; reflexivity.
  - split; reflexivity.
Qed.

End FloatFacts.

(* ================================================================== *)
(** * The loop: visited indices, exit and invariants *)

#[local] Open Scope Z_scope.

(** The frame indices at which [scan_loop] runs the loop body, in order. *)
Fixpoint visited (cap : Capture) (total_frames sample_stride : Z) (fps : float)
    (fuel : nat) (st : ScanState) : list Z :=
  match fuel with
  | O => []
  | S fuel' =>
      if frame_index st <? total_frames
      then frame_index st
           :: visited cap total_frames sample_stride fps fuel'
                (loop_body cap sample_stride fps st)
      else []
  end.

(** [0, stride, 2*stride, ...] while below [total_frames]. *)
Definition sample_indices (total_frames sample_stride : Z) : list Z :=
  map (fun k => Z.of_nat k * sample_stride)
      (seq 0 (Z.to_nat ((total_frames + sample_stride - 1) / sample_stride))).

(** The visited indices at which a frame is read. *)
Definition decodes (cap : Capture) (i : Z) : bool :=
  match read_at cap i with Some _ => true | None => false end.

Definition sampled_indices (cap : Capture) (total_frames sample_stride : Z)
  : list Z :=
  filter (decodes cap) (sample_indices total_frames sample_stride).

(** States the loop passes through. *)
Inductive reachable (cap : Capture) (total_frames sample_stride : Z)
    (fps : float) : ScanState -> Prop :=
| reach_initial : reachable cap total_frames sample_stride fps initial_state
| reach_body st :
    reachable cap total_frames sample_stride fps st ->
    frame_index st < total_frames ->
    reachable cap total_frames sample_stride fps
      (loop_body cap sample_stride fps st).

Fixpoint increasing (l : list Z) : Prop :=
  match l with
  | [] => True
  | x :: r => Forall (fun y => x < y) r /\ increasing r
  end.

Section LoopFacts.

Variable cap : Capture.
Variable total_frames sample_stride : Z.
Variable fps : float.

#[local] Abbreviation body := (loop_body cap sample_stride fps).
#[local] Abbreviation loop :=
  (scan_loop cap total_frames sample_stride fps).

Lemma body_frame_index (st : ScanState) :
  frame_index (body st) = frame_index st + sample_stride.
Proof.
  unfold loop_body. destruct (read_at cap (frame_index st)); [|reflexivity].
  destruct (prev_gray st); [destruct motion_against|]; reflexivity.
Qed.

Lemma loop_reachable (fuel : nat) (st : ScanState) :
  reachable cap total_frames sample_stride fps st ->
  reachable cap total_frames sample_stride fps (loop fuel st).
Proof.
  revert st. induction fuel as [|fuel IH]; intros st Hst; cbn; [exact Hst|].
  destruct (Z.ltb_spec (frame_index st) total_frames); [|exact Hst].
  apply IH. now constructor.
Qed.

Lemma scan_reachable :
  reachable cap total_frames sample_stride fps
    (scan cap total_frames sample_stride fps).
Proof. apply loop_reachable. constructor. Qed.



(** More fuel than the loop needs changes nothing. *)
Lemma loop_fuel_enough (fuel : nat) (st : ScanState) :
  total_frames <= frame_index (loop fuel st) ->
  forall extra, loop (fuel + extra) st = loop fuel st.
Proof.
  revert st. induction fuel as [|fuel IH]; intros st Hex extra; cbn in *.
  - destruct extra; cbn; [reflexivity|].
    destruct (Z.ltb_spec (frame_index st) total_frames); [lia|reflexivity].
  - destruct (Z.ltb_spec (frame_index st) total_frames); [|reflexivity].
    now apply IH.
Qed.

(** The body runs at [i, i + stride, ...] while below [total_frames]. *)
Lemma visited_multiples (len : nat) :
  forall (k0 : nat) (fuel : nat) (st : ScanState),
    frame_index st = Z.of_nat k0 * sample_stride ->
    (forall k, (k0 <= k < k0 + len)%nat ->
               Z.of_nat k * sample_stride < total_frames) ->
    total_frames <= Z.of_nat (k0 + len) * sample_stride ->
    (len <= fuel)%nat ->
    visited cap total_frames sample_stride fps fuel st
    = map (fun k => Z.of_nat k * sample_stride) (seq k0 len).
Proof.
  induction len as [|len IH]; intros k0 fuel st Hi Hlt Hge Hfuel;
    destruct fuel as [|fuel]; try lia; cbn [visited seq map];
    try reflexivity.
  - destruct (Z.ltb_spec (frame_index st) total_frames) as [H|H];
      [|reflexivity].
    rewrite Nat.add_0_r in Hge. lia.
  - destruct (Z.ltb_spec (frame_index st) total_frames) as [H|H].
    + rewrite Hi. f_equal. apply IH.
      * rewrite body_frame_index, Hi. lia.
      * intros k Hk. apply Hlt. lia.
      * replace (S k0 + len)%nat with (k0 + S len)%nat by lia. exact Hge.
      * lia.
    + specialize (Hlt k0 ltac:(lia)). lia.
Qed.

(** The number of multiples of the stride below [total_frames]. *)
Lemma ceil_div_spec :
  1 <= sample_stride -> 0 <= total_frames ->
  let n := (total_frames + sample_stride - 1) / sample_stride in
  0 <= n /\ (n - 1) * sample_stride < total_frames <= n * sample_stride
  /\ n <= total_frames /\ n <= total_frames / sample_stride + 1.
Proof.
  intros Hs Ht n.
  pose proof (Z.div_mod (total_frames + sample_stride - 1) sample_stride
                ltac:(lia)) as Hdm.
  pose proof (Z.mod_pos_bound (total_frames + sample_stride - 1) sample_stride
                ltac:(lia)) as Hr.
  fold n in Hdm.
  pose proof (Z.div_mod total_frames sample_stride ltac:(lia)) as Hdm'.
  pose proof (Z.mod_pos_bound total_frames sample_stride ltac:(lia)) as Hr'.
  assert (Hn : 0 <= n) by (apply Z.div_pos; lia).
  repeat split; try nia.
Qed.

Lemma visited_scan :
  1 <= sample_stride ->
  visited cap total_frames sample_stride fps (Z.to_nat total_frames)
    initial_state
  = sample_indices total_frames sample_stride.
Proof.
  intros Hs. unfold sample_indices.
  destruct (Z.le_gt_cases total_frames 0) as [Ht|Ht].
  - replace (Z.to_nat total_frames) with 0%nat by lia. cbn [visited].
    assert ((total_frames + sample_stride - 1) / sample_stride < 1)
      by (apply Z.div_lt_upper_bound; lia).
    replace (Z.to_nat _) with 0%nat by lia. reflexivity.
  - destruct (ceil_div_spec Hs ltac:(lia)) as (Hn & [Hlo Hhi] & Hle & _).
    apply visited_multiples.
    + reflexivity.
    + intros k Hk. nia.
    + rewrite Nat.add_0_l, Z2Nat.id by lia. lia.
    + lia.
Qed.

(** What the loop appends: one timestamp per visited index that decodes. *)
Lemma body_timestamps (st : ScanState) :
  motion_timestamps (body st)
  = motion_timestamps st
    ++ (if decodes cap (frame_index st)
        then [timestamp_of fps (frame_index st)] else []).
Proof.
  unfold loop_body, decodes.
  destruct (read_at cap (frame_index st)); [|now rewrite app_nil_r].
  destruct (prev_gray st); [destruct motion_against|]; reflexivity.
Qed.

Lemma body_sampled_frames (st : ScanState) :
  sampled_frames (body st)
  = sampled_frames st + (if decodes cap (frame_index st) then 1 else 0).
Proof.
  unfold loop_body, decodes.
  destruct (read_at cap (frame_index st)); [|cbn; lia].
  destruct (prev_gray st); [destruct motion_against|]; reflexivity.
Qed.

Lemma loop_timestamps (fuel : nat) (st : ScanState) :
  motion_timestamps (loop fuel st)
  = motion_timestamps st
    ++ map (timestamp_of fps)
         (filter (decodes cap)
            (visited cap total_frames sample_stride fps fuel st)).
Proof.
  revert st. induction fuel as [|fuel IH]; intros st; cbn [scan_loop visited].
  - cbn. now rewrite app_nil_r.
  - destruct (Z.ltb_spec (frame_index st) total_frames);
      [|cbn; now rewrite app_nil_r].
    rewrite IH, body_timestamps. cbn [filter].
    destruct (decodes cap (frame_index st)); cbn [map].
    + now rewrite <- app_assoc.
    + now rewrite app_nil_r.
Qed.

Lemma loop_sampled_frames (fuel : nat) (st : ScanState) :
  sampled_frames (loop fuel st)
  = sampled_frames st
    + Z.of_nat (length (filter (decodes cap)
                  (visited cap total_frames sample_stride fps fuel st))).
Proof.
  revert st. induction fuel as [|fuel IH]; intros st; cbn [scan_loop visited].
  - cbn. lia.
  - destruct (Z.ltb_spec (frame_index st) total_frames); [|cbn; lia].
    rewrite IH, body_sampled_frames. cbn [filter].
    destruct (decodes cap (frame_index st)); cbn [length]; lia.
Qed.

(** The two motion lists grow together, one entry per sampled frame. *)
Definition aligned (st : ScanState) : Prop :=
  length (motion_values st) = length (motion_timestamps st)
  /\ Z.of_nat (length (motion_values st)) = sampled_frames st.

Lemma reachable_aligned (st : ScanState) :
  reachable cap total_frames sample_stride fps st -> aligned st.
Proof.
  induction 1 as [|st Hst [IH1 IH2] Hlt]; [split; reflexivity|].
  unfold aligned, loop_body.
  destruct (read_at cap (frame_index st)); [|split; assumption].
  destruct (prev_gray st); [destruct motion_against|]; cbn;
    rewrite !length_app; cbn; split; lia.
Qed.

(** Before the first frame is sampled nothing has been recorded, and the
    previous grayscale image is missing exactly then. *)
Definition fresh (st : ScanState) : Prop :=
  (prev_gray st = None <-> sampled_frames st = 0)
  /\ (sampled_frames st = 0 ->
      motion_values st = [] /\ motion_timestamps st = []
      /\ horizontal_motion_total st = 0%float)
  /\ 0 <= sampled_frames st.

Lemma reachable_fresh (st : ScanState) :
  reachable cap total_frames sample_stride fps st -> fresh st.
Proof.
  induction 1 as [|st Hst (IH1 & IH2 & IH3) Hlt].
  - repeat split; reflexivity || lia.
  - unfold fresh, loop_body.
    destruct (read_at cap (frame_index st)); [|repeat split; tauto].
    destruct (prev_gray st); [destruct motion_against|]; cbn;
      (split; [split; [discriminate|lia]|split; [lia|lia]]).
Qed.

(** The timestamps are those of strictly increasing frame indices. *)
Lemma increasing_snoc (l : list Z) (x : Z) :
  increasing l -> Forall (fun y => y < x) l -> increasing (l ++ [x]).
Proof.
  induction l as [|a l IH]; cbn; intros Hinc Hall.
  - split; [constructor|exact I].
  - destruct Hinc as [Ha Hl]. inversion Hall as [|? ? Hax Hlx]; subst.
    split; [|now apply IH].
    apply Forall_app. split; [exact Ha|]. constructor; [exact Hax|constructor].
Qed.

Lemma reachable_indices (st : ScanState) :
  1 <= sample_stride ->
  reachable cap total_frames sample_stride fps st ->
  0 <= frame_index st
  /\ exists idxs,
       motion_timestamps st = map (timestamp_of fps) idxs
       /\ increasing idxs
       /\ Forall (fun i => 0 <= i < frame_index st /\ i < total_frames) idxs.
Proof.
  intros Hs. induction 1 as [|st Hst (IH0 & idxs & Hts & Hinc & Hall) Hlt].
  - split; [reflexivity|]. exists []. repeat split; constructor.
  - rewrite body_frame_index, body_timestamps. split; [lia|].
    destruct (decodes cap (frame_index st)).
    + exists (idxs ++ [frame_index st]). rewrite map_app, Hts. cbn [map].
      split; [reflexivity|]. split.
      * apply increasing_snoc; [exact Hinc|].
        eapply Forall_impl; [|exact Hall]. cbn. lia.
      * apply Forall_app. split.
        -- eapply Forall_impl; [|exact Hall]. cbn. lia.
        -- constructor; [lia|constructor].
    + exists idxs. rewrite app_nil_r. repeat split; try assumption.
      eapply Forall_impl; [|exact Hall]. cbn. lia.
Qed.

End LoopFacts.

(* ================================================================== *)
(** * The report *)

(** The five scalar signals of a payload lie in [[0, 1]]. *)
Definition unit_signals (p : Payload) : Prop :=
  between 0 (portraitSignal p) 1 = true
  /\ between 0 (landscapeSignal p) 1 = true
  /\ between 0 (centeredFaceVerticalSignal p) 1 = true
  /\ between 0 (horizontalMotionSignal p) 1 = true
  /\ between 0 (highMotionShortClipSignal p) 1 = true.

(** The conditions under which [main] prints the fallback payload before
    or after its loop. *)
Definition unusable_source (env : Env) (args : Args) : bool :=
  let cap := VideoCapture env (input args) in
  negb (path_exists env (input args))
  || negb (cv2_imports env)
  || negb (isOpened cap)
  || (total_frames_of cap <=? 0)
  || (int_or_0 (CAP_PROP_FRAME_WIDTH cap) <=? 0)
  || (int_or_0 (CAP_PROP_FRAME_HEIGHT cap) <=? 0).

(** [main] prints the fallback payload, or the payload built from the state
    its loop ended in. *)
Lemma main_cases (env : Env) (args : Args) :
  let cap := VideoCapture env (input args) in
  let st := scan_of cap (sample_ratio args) in
  main env args
  = if unusable_source env args || (sampled_frames st <=? 0)
    then print_and_return fallback_payload 0
    else print_and_return
           (build_payload (stride_of cap (sample_ratio args)) st) 0.
Proof.
  unfold main, unusable_source, scan_of, stride_of.
  destruct (path_exists env (input args)); [|reflexivity].
  destruct (cv2_imports env); [|reflexivity].
  destruct (isOpened (VideoCapture env (input args))); [|reflexivity].
  cbn [negb orb].
  destruct (total_frames_of (VideoCapture env (input args)) <=? 0);
    [reflexivity|].
  destruct (int_or_0 (CAP_PROP_FRAME_WIDTH (VideoCapture env (input args)))
            <=? 0); [reflexivity|].
  destruct (int_or_0 (CAP_PROP_FRAME_HEIGHT (VideoCapture env (input args)))
            <=? 0); reflexivity.
Qed.

Lemma fallback_unit_signals : unit_signals fallback_payload.
Proof. vm_compute. repeat split. Qed.

Lemma build_payload_unit_signals (stride : Z) (st : ScanState) :
  unit_signals (build_payload stride st).
Proof.
  unfold unit_signals, build_payload. cbn -[py_round clamp between].
  repeat split; apply FloatFacts.py_round4_unit, FloatFacts.clamp_unit.
Qed.

(** C1.  For every environment and command line, each of the five scalar
    signals of the printed payload (portraitSignal, landscapeSignal,
    centeredFaceVerticalSignal, horizontalMotionSignal,
    highMotionShortClipSignal) satisfies [0 <= signal <= 1] as doubles, on
    the fallback path and on the normal path, whatever the sums (a NaN
    included) the frames produced. *)
Theorem signals_in_unit_interval (env : Env) (args : Args) :
  unit_signals (printed (main env args)).
Proof.
  rewrite main_cases. cbv zeta.
  destruct (unusable_source env args || _); cbn [printed print_and_return].
  - apply fallback_unit_signals.
  - apply build_payload_unit_signals.
Qed.

(* ================================================================== *)
(** * Synthetic captures *)

Module Synthetic.

#[local] Open Scope float_scope.

Definition black : pixels := fun _ _ => Byte.x00.
Definition white : pixels := fun _ _ => Byte.xff.

(** A two-by-four grayscale clip of [count] frames: frame [i] decodes when
    [ok i] and shows [picture i]; no edges and no faces are found in it. *)
Definition clip (count : Z) (fps : float) (ok : Z -> bool)
    (picture : Z -> pixels) : Capture :=
  {| isOpened := true;
     CAP_PROP_FRAME_COUNT := count;
     CAP_PROP_FPS := fps;
     CAP_PROP_FRAME_WIDTH := 4;
     CAP_PROP_FRAME_HEIGHT := 2;
     shape_h := 2;
     shape_w := 4;
     read_at := fun i =>
       if ok i
       then Some {| gray := picture i; edges := black; faces := [] |}
       else None |}.

(** An environment in which every path exists and opens as [cap]. *)
Definition studio (cap : Capture) : Env :=
  {| path_exists := fun _ => true;
     cv2_imports := true;
     VideoCapture := fun _ => cap |}.

(** An environment without the input file. *)
Definition nowhere (cap : Capture) : Env :=
  {| path_exists := fun _ => false;
     cv2_imports := true;
     VideoCapture := fun _ => cap |}.

Definition always : Z -> bool := fun _ => true.

(** 100 identical frames at 30 frames per second. *)
Definition still : Capture := clip 100 30.0 always (fun _ => black).

(** 198 frames at 40 frames per second: black, white from frame 1 to frame
    188, black again from frame 189. *)
Definition flash : Capture :=
  clip 198 40.0 always
       (fun i => if ((0 <? i) && (i <? 189))%Z then white else black).

(** 300 frames at 30 frames per second whose first frame does not decode. *)
Definition gappy : Capture :=
  clip 300 30.0 (fun i => negb (i =? 0)%Z) (fun _ => black).

(** 40 identical frames of a source that reports half a frame per second,
    and of one that reports an infinite rate. *)
Definition slow : Capture := clip 40 0.5 always (fun _ => black).
Definition timeless : Capture := clip 40 infinity always (fun _ => black).

Definition cli (ratio : float) : Args :=
  {| input := "clip.mp4"; sample_ratio := ratio |}.

End Synthetic.

(* ================================================================== *)
(** * Fallback and exit status *)

(** [int(cap.get(p) or 0)] of an integer property is that integer. *)
Lemma int_or_0_id (v : Z) : int_or_0 v = v.
Proof. unfold int_or_0. destruct (Z.eqb_spec v 0); congruence. Qed.














(** The device of a capture: the integer properties as doubles. *)
Definition device_of (c : Capture) : Raising.Device :=
  {| Raising.opened := isOpened c;
     Raising.get := fun p =>
       match p with
       | Raising.FRAME_COUNT => of_Z (CAP_PROP_FRAME_COUNT c)
       | Raising.FPS => CAP_PROP_FPS c
       | Raising.FRAME_WIDTH => of_Z (CAP_PROP_FRAME_WIDTH c)
       | Raising.FRAME_HEIGHT => of_Z (CAP_PROP_FRAME_HEIGHT c)
       end;
     Raising.frame_h := shape_h c;
     Raising.frame_w := shape_w c;
     Raising.read := fun i =>
       match read_at c i with
       | Some s => Raising.frame s
       | None => Raising.no_frame
       end |}.

(** A world in which every call returns, every path exists and opens as
    [d]; and the same world without the input file. *)
Definition calm (d : Raising.Device) : Raising.World :=
  {| Raising.resolve := fun s => Raising.Returned s;
     Raising.exists_ := fun _ => Raising.Returned true;
     Raising.imports := true;
     Raising.open := fun _ => d;
     Raising.CascadeClassifier := Raising.Returned tt |}.








(** The same source in a world in which every call returns: the run is the
    run of [main]. *)
Lemma main_of_calm_still :
  Raising.main (calm (device_of Synthetic.still)) (Synthetic.cli 0.1)
  = Raising.Returned
      (main (Synthetic.studio Synthetic.still) (Synthetic.cli 0.1)).
Proof. vm_compute. reflexivity. Qed.

(* ================================================================== *)
(** * Sampler *)

Lemma sample_indices_length (total_frames sample_stride : Z) :
  length (sample_indices total_frames sample_stride)
  = Z.to_nat ((total_frames + sample_stride - 1) / sample_stride).
Proof. unfold sample_indices. now rewrite length_map, length_seq. Qed.

Lemma sample_indices_below (total_frames sample_stride : Z) :
  1 <= sample_stride -> 0 <= total_frames ->
  Forall (fun i => 0 <= i < total_frames)
         (sample_indices total_frames sample_stride).
Proof.
  intros Hs Ht.
  destruct (ceil_div_spec total_frames sample_stride Hs Ht)
    as (Hn & [Hlo Hhi] & _).
  unfold sample_indices. apply Forall_forall. intros i Hi.
  apply in_map_iff in Hi as (k & <- & Hk). apply in_seq in Hk. nia.
Qed.

(** The effective ratio: a ratio that is false as a truth value (0.0 or
    -0.0) gives the default 0.1, any other ratio is clamped. *)
Lemma effective_ratio_cases (ratio : float) :
  effective_ratio ratio
  = if truthy ratio then clamp ratio 0.01 0.5 else 0.1%float.
Proof.
  unfold effective_ratio, or_else. destruct (truthy ratio); reflexivity.
Qed.

(** C5, as the code has it.  For every [total_frames > 0] and every ratio:
    the effective ratio is [clamp(ratio, 0.01, 0.5)] when the ratio is not
    zero and 0.1 when it is zero; [sample_count = max(1, int(total_frames *
    ratio')) >= 1]; [sample_stride = max(1, total_frames // sample_count)
    >= 1]; the loop body runs exactly at the indices [0, stride,
    2*stride, ...] below [total_frames], whatever the capture decodes; and
    their number is at most [total_frames // stride + 1]. *)
Theorem sampler_contract (cap : Capture) (fps : float)
    (total_frames : Z) (ratio : float) :
  0 < total_frames ->
  let ratio' := effective_ratio ratio in
  let sample_count := sample_count_of total_frames ratio' in
  let sample_stride := sample_stride_of total_frames sample_count in
  ratio' = (if truthy ratio then clamp ratio 0.01 0.5 else 0.1%float)
  /\ sample_count = Z.max 1 (trunc (of_Z total_frames * ratio'))
  /\ 1 <= sample_count
  /\ sample_stride = Z.max 1 (total_frames / sample_count)
  /\ 1 <= sample_stride
  /\ visited cap total_frames sample_stride fps (Z.to_nat total_frames)
       initial_state
     = sample_indices total_frames sample_stride
  /\ Forall (fun i => 0 <= i < total_frames)
            (sample_indices total_frames sample_stride)
  /\ Z.of_nat (length (sample_indices total_frames sample_stride))
     <= total_frames / sample_stride + 1.
Proof.
  intros Ht ratio' sample_count sample_stride.
  assert (Hc : 1 <= sample_count) by (unfold sample_count, sample_count_of; lia).
  assert (Hs : 1 <= sample_stride)
    by (unfold sample_stride, sample_stride_of; lia).
  split; [apply effective_ratio_cases|].
  split; [reflexivity|]. split; [exact Hc|].
  split; [reflexivity|]. split; [exact Hs|].
  split; [now apply visited_scan|].
  split; [apply sample_indices_below; lia|].
  rewrite sample_indices_length.
  destruct (ceil_div_spec total_frames sample_stride Hs ltac:(lia))
    as (Hn & _ & _ & Hle).
  rewrite Z2Nat.id by exact Hn. exact Hle.
Qed.

(** The 300-frame clip at ratio 0.1: 30 samples, stride 10, indices
    [0, 10, ..., 290]. *)
Lemma sampler_contract_300 :
  sample_count_of 300 (effective_ratio 0.1) = 30
  /\ sample_stride_of 300 30 = 10
  /\ visited Synthetic.gappy 300 10 30.0 (Z.to_nat 300) initial_state
     = [0; 10; 20; 30; 40; 50; 60; 70; 80; 90; 100; 110; 120; 130; 140;
        150; 160; 170; 180; 190; 200; 210; 220; 230; 240; 250; 260; 270;
        280; 290].
Proof.
  split; [vm_compute; reflexivity|]. split; [vm_compute; reflexivity|].
  pose proof (sampler_contract Synthetic.gappy 30.0 300 0.1 eq_refl) as H.
  cbv zeta in H. destruct H as (_ & _ & _ & _ & _ & Hv & _).
  change (sample_count_of 300 (effective_ratio 0.1)) with 30 in Hv.
  change (sample_stride_of 300 30) with 10 in Hv.
  rewrite Hv. vm_compute. reflexivity.
Defined.

(** A ratio of zero is not clamped to 0.01: the default 0.1 replaces it, and
    a 1000-frame source is sampled 100 times, not 10 times. *)
Lemma ratio_zero_is_not_clamped :
  (effective_ratio 0 =? clamp 0 0.01 0.5)%float = false
  /\ effective_ratio 0 = 0.1%float
  /\ clamp 0 0.01 0.5 = 0.01%float
  /\ sample_count_of 1000 (effective_ratio 0) = 100
  /\ Z.max 1 (trunc (of_Z 1000 * clamp 0 0.01 0.5)) = 10.
Proof. vm_compute. repeat split. Qed.

(* ================================================================== *)
(** * The first sampled frame and decode failures *)

#[local] Open Scope float_scope.

(** C7.  The frame sampled while the counter is still zero gets the motion
    value 0.0: the loop appends that 0.0 to [motion_values] (and its
    timestamp to [motion_timestamps]), leaves [horizontal_motion_total] at
    0.0, and stores its grayscale image as [prev_gray]; the next sampled
    frame is then measured against that image and does add to the
    horizontal sum.  The horizontal signal of the payload is the sum over
    [max(1, sampled_frames - 1)], clamped and rounded. *)
Theorem first_sample_has_no_motion (cap : Capture)
    (total_frames sample_stride : Z) (fps : float)
    (st : ScanState) (s : Sample) :
  reachable cap total_frames sample_stride fps st ->
  sampled_frames st = 0%Z ->
  read_at cap (frame_index st) = Some s ->
  let st' := loop_body cap sample_stride fps st in
  motion_values st' = [0.0]
  /\ motion_timestamps st' = [timestamp_of fps (frame_index st)]
  /\ horizontal_motion_total st' = 0.0
  /\ horizontal_motion_total st' = horizontal_motion_total st
  /\ sampled_frames st' = 1%Z
  /\ prev_gray st' = Some (gray s)
  /\ (forall s2, read_at cap (frame_index st') = Some s2 ->
        let m := motion_against (shape_h cap) (shape_w cap) (gray s) (gray s2)
        in
        motion_values (loop_body cap sample_stride fps st') = [0.0; fst m]
        /\ horizontal_motion_total (loop_body cap sample_stride fps st')
           = 0.0 + snd m)
  /\ (forall stride final,
        horizontalMotionSignal (build_payload stride final)
        = py_round
            (clamp (horizontal_motion_total final
                    / of_Z (Z.max 1 (sampled_frames final - 1))) 0.0 1.0) 4).
Proof.
  intros Hreach Hzero Hread st'.
  destruct (reachable_fresh _ _ _ _ _ Hreach) as ([_ Hprev] & Hempty & _).
  destruct (Hempty Hzero) as (Hv & Hts & Hh). specialize (Hprev Hzero).
  assert (Hst' : st' = {| frame_index := (frame_index st + sample_stride)%Z;
                          sampled_frames := 1;
                          portrait_score_total :=
                            portrait_score_total st
                            + portrait_score
                                (frame_scores (shape_h cap) (shape_w cap) s);
                          landscape_score_total :=
                            landscape_score_total st
                            + landscape_score
                                (frame_scores (shape_h cap) (shape_w cap) s);
                          centered_face_total :=
                            centered_face_total st
                            + centered_face
                                (frame_scores (shape_h cap) (shape_w cap) s);
                          horizontal_motion_total := 0.0;
                          motion_values := [0.0];
                          motion_timestamps :=
                            [timestamp_of fps (frame_index st)];
                          prev_gray := Some (gray s) |}).
  { unfold st', loop_body. rewrite Hread, Hprev, Hv, Hts, Hh, Hzero.
    reflexivity. }
  rewrite Hst'. cbn [motion_values motion_timestamps horizontal_motion_total
                     sampled_frames prev_gray frame_index].
  repeat (split; [first [reflexivity | congruence]|]).
  split; [|reflexivity].
  intros s2 Hread2. unfold loop_body.
  cbn [frame_index prev_gray motion_values horizontal_motion_total].
  rewrite Hread2.
  destruct (motion_against (shape_h cap) (shape_w cap) (gray s) (gray s2))
    as [mv band].
  split; reflexivity.
Qed.

(** The first frame of the flashing clip. *)
Lemma first_sample_of_flash :
  motion_values (loop_body Synthetic.flash 9 40.0 initial_state) = [0.0]
  /\ horizontal_motion_total (loop_body Synthetic.flash 9 40.0 initial_state)
     = 0.0
  /\ motion_values
       (loop_body Synthetic.flash 9 40.0
          (loop_body Synthetic.flash 9 40.0 initial_state))
     = [0.0; 1.0].
Proof.
  pose proof (first_sample_has_no_motion Synthetic.flash 198 9 40.0
                initial_state
                {| gray := Synthetic.black; edges := Synthetic.black;
                   faces := [] |}
                (reach_initial _ _ _ _) eq_refl eq_refl) as H.
  cbv zeta in H. destruct H as (Hv & _ & Hh & _).
  split; [exact Hv|]. split; [exact Hh|].
  vm_compute. reflexivity.
Defined.

(** C8.  When the frame at the current index does not decode, the pass only
    advances [frame_index] by the stride: the counter, the four running
    sums, the two motion lists and the previous grayscale image are
    unchanged, and the loop goes on from the advanced state. *)
Theorem decode_failure_skips (cap : Capture)
    (total_frames sample_stride : Z) (fps : float)
    (st : ScanState) (fuel : nat) :
  read_at cap (frame_index st) = None ->
  (frame_index st < total_frames)%Z ->
  let st' := loop_body cap sample_stride fps st in
  st' = {| frame_index := (frame_index st + sample_stride)%Z;
           sampled_frames := sampled_frames st;
           portrait_score_total := portrait_score_total st;
           landscape_score_total := landscape_score_total st;
           centered_face_total := centered_face_total st;
           horizontal_motion_total := horizontal_motion_total st;
           motion_values := motion_values st;
           motion_timestamps := motion_timestamps st;
           prev_gray := prev_gray st |}
  /\ scan_loop cap total_frames sample_stride fps (S fuel) st
     = scan_loop cap total_frames sample_stride fps fuel st'.
Proof.
  intros Hread Hlt st'. split.
  - unfold st', loop_body. now rewrite Hread.
  - cbn [scan_loop]. apply Z.ltb_lt in Hlt. now rewrite Hlt.
Qed.

(** The clip whose first frame does not decode: the scan goes on and
    samples the other 29 visited frames. *)
Lemma decode_failure_in_gappy :
  sampled_frames (loop_body Synthetic.gappy 10 30.0 initial_state) = 0%Z
  /\ frame_index (loop_body Synthetic.gappy 10 30.0 initial_state) = 10%Z
  /\ sampled_frames (scan Synthetic.gappy 300 10 30.0) = 29%Z.
Proof.
  pose proof (decode_failure_skips Synthetic.gappy 300 10 30.0
                initial_state 299 eq_refl eq_refl) as H.
  cbv zeta in H. destruct H as [Hbody Hloop].
  rewrite Hbody. split; [reflexivity|]. split; [reflexivity|].
  change (scan Synthetic.gappy 300 10 30.0)
    with (scan_loop Synthetic.gappy 300 10 30.0 300 initial_state).
  rewrite Hloop, Hbody. vm_compute. reflexivity.
Defined.

(* ================================================================== *)
(** * Timestamps *)

Lemma stride_of_positive (cap : Capture) (ratio : float) :
  (1 <= stride_of cap ratio)%Z.
Proof. unfold stride_of, sample_stride_of. lia. Qed.

(** The timestamps of a scan are those of the visited indices that
    decode, in order. *)
Lemma scan_timestamps (cap : Capture) (total_frames sample_stride : Z)
    (fps : float) :
  (1 <= sample_stride)%Z ->
  motion_timestamps (scan cap total_frames sample_stride fps)
  = map (timestamp_of fps) (sampled_indices cap total_frames sample_stride).
Proof.
  intros Hs. unfold scan. rewrite loop_timestamps, visited_scan by exact Hs.
  reflexivity.
Qed.

Lemma scan_sampled_frames (cap : Capture) (total_frames sample_stride : Z)
    (fps : float) :
  (1 <= sample_stride)%Z ->
  sampled_frames (scan cap total_frames sample_stride fps)
  = Z.of_nat (length (sampled_indices cap total_frames sample_stride)).
Proof.
  intros Hs. unfold scan. rewrite loop_sampled_frames, visited_scan by exact Hs.
  reflexivity.
Qed.

(** A rate of at least one frame per second is true as a truth value. *)
Lemma leb_one_truthy (x : float) : (1 <=? x) = true -> truthy x = true.
Proof.
  unfold truthy. rewrite leb_spec, eqb_spec, FloatFacts.Prim2SF_one,
    FloatFacts.Prim2SF_zero.
  unfold SFleb, SFeqb.
  destruct (Prim2SF x) as [s|s| |s m e]; cbn; try destruct s;
    try discriminate; reflexivity.
Qed.

(** C6, as the code has it.  The timestamps of a scan are, in order,
    [frame_index / max(1.0, fps)] for the frame indices that were sampled,
    where [fps] is the reported rate, or 30.0 when the reported rate is zero.
    When the reported rate is at least 1.0 this is [frame_index / fps]; a
    rate below 1.0 is replaced by the divisor 1.0. *)
Theorem timestamps_divide_by_clamped_fps (cap : Capture) (ratio : float) :
  let indices :=
    sampled_indices cap (total_frames_of cap) (stride_of cap ratio) in
  let fps := if truthy (CAP_PROP_FPS cap) then CAP_PROP_FPS cap else 30.0 in
  motion_timestamps (scan_of cap ratio)
  = map (fun frame_index => of_Z frame_index / py_max 1.0 fps) indices
  /\ ((1 <=? CAP_PROP_FPS cap) = true ->
      motion_timestamps (scan_of cap ratio)
      = map (fun frame_index => of_Z frame_index / CAP_PROP_FPS cap) indices)
  /\ ((CAP_PROP_FPS cap <? 1) = true -> truthy (CAP_PROP_FPS cap) = true ->
      motion_timestamps (scan_of cap ratio)
      = map (fun frame_index => of_Z frame_index / 1.0) indices).
Proof.
  intros indices fps.
  assert (H : motion_timestamps (scan_of cap ratio)
              = map (fun frame_index => of_Z frame_index / py_max 1.0 fps)
                    indices).
  { unfold scan_of. rewrite scan_timestamps by apply stride_of_positive.
    reflexivity. }
  split; [exact H|]. split.
  - intros Hle. rewrite H. unfold fps.
    rewrite (leb_one_truthy _ Hle), (FloatFacts.py_max_one _ Hle). reflexivity.
  - intros Hlt Htruthy. rewrite H. unfold fps. rewrite Htruthy.
    unfold py_max. now rewrite (FloatFacts.ltb_asym _ _ Hlt).
Qed.

(** The flashing clip at 40 frames per second: index over 40. *)
Lemma timestamps_of_flash :
  motion_timestamps (scan_of Synthetic.flash 0.115)
  = map (fun frame_index => of_Z frame_index / 40.0)
        [0; 9; 18; 27; 36; 45; 54; 63; 72; 81; 90; 99; 108; 117; 126; 135;
         144; 153; 162; 171; 180; 189]%Z.
Proof.
  destruct (timestamps_divide_by_clamped_fps Synthetic.flash 0.115)
    as (_ & H & _).
  rewrite (H eq_refl). vm_compute. reflexivity.
Defined.

(** A source that reports half a frame per second: the frames 0, 10, 20
    and 30 are stamped 0, 10, 20 and 30 seconds, not 0, 20, 40 and 60. *)
Lemma timestamps_of_slow_source :
  sampled_indices Synthetic.slow 40 10 = [0; 10; 20; 30]%Z
  /\ motion_timestamps (scan_of Synthetic.slow 0.1) = [0; 10; 20; 30]
  /\ map (fun frame_index => of_Z frame_index / CAP_PROP_FPS Synthetic.slow)
         [0; 10; 20; 30]%Z
     = [0; 20; 40; 60].
Proof. vm_compute. repeat split. Qed.

(* ================================================================== *)
(** * A ratio of zero *)




(** *** The sample count at the ratios 0.1 and 0.01 *)












(* ================================================================== *)
(** * The two motion lists *)

(** Every entry is strictly below every later one, as doubles. *)
Fixpoint ascending (l : list float) : Prop :=
  match l with
  | [] => True
  | x :: r => Forall (fun y => (x <? y) = true) r /\ ascending r
  end.

(** Increasing frame indices below [2^52] have increasing timestamps when
    the rate is not plus infinity. *)
Lemma timestamps_ascending (fps : float) (indices : list Z) :
  (fps =? infinity) = false ->
  increasing indices ->
  Forall (fun i => (0 <= i < 2 ^ 52)%Z) indices ->
  ascending (map (timestamp_of fps) indices).
Proof.
  intros Hfps. destruct (FloatFacts.py_max_one_finite fps Hfps) as [H1 Hinf].
  induction indices as [|i l IH]; cbn [map increasing ascending];
    intros Hinc Hall; [exact I|].
  destruct Hinc as [Hi Hl]. inversion Hall as [|? ? Hi52 Hl52]; subst.
  split; [|now apply IH].
  apply Forall_map. rewrite Forall_forall in Hi, Hl52 |- *.
  intros j Hj. unfold timestamp_of.
  apply FloatFacts.div_index_lt; try assumption.
  - specialize (Hi j Hj). lia.
  - specialize (Hl52 j Hj). lia.
Qed.

(** C10, as the code has it.  After every pass of the loop [motion_values]
    and [motion_timestamps] have the same length, the value of
    [sampled_frames]; the timestamps are, in order, the quotients
    [frame_index / max(1.0, fps)] of frame indices that increase strictly;
    and, when the rate is not plus infinity and the frame count is at most
    [2^52], the timestamps increase strictly as doubles, so that the peak
    detector sees no timestamp twice.  (With an infinite rate every quotient
    is 0.0.) *)
Theorem motion_lists_aligned (cap : Capture) (total_frames sample_stride : Z)
    (fps : float) (st : ScanState) :
  (1 <= sample_stride)%Z ->
  reachable cap total_frames sample_stride fps st ->
  length (motion_values st) = length (motion_timestamps st)
  /\ Z.of_nat (length (motion_values st)) = sampled_frames st
  /\ (exists indices,
        motion_timestamps st
        = map (fun frame_index => of_Z frame_index / py_max 1.0 fps) indices
        /\ increasing indices
        /\ Forall (fun i => (0 <= i < frame_index st)%Z
                            /\ (i < total_frames)%Z) indices)
  /\ ((fps =? infinity) = false -> (total_frames <= 2 ^ 52)%Z ->
      ascending (motion_timestamps st)).
Proof.
  intros Hs Hreach.
  destruct (reachable_aligned _ _ _ _ _ Hreach) as [Hlen Hcount].
  destruct (reachable_indices _ _ _ _ _ Hs Hreach)
    as (_ & indices & Hts & Hinc & Hall).
  split; [exact Hlen|]. split; [exact Hcount|]. split.
  - exists indices. repeat split; assumption.
  - intros Hfps Htotal. rewrite Hts.
    apply timestamps_ascending; [exact Hfps|exact Hinc|].
    eapply Forall_impl; [|exact Hall]. cbn. lia.
Qed.

(** The state the flashing clip is left in: 22 entries in each list, with
    strictly increasing timestamps. *)
Lemma motion_lists_of_flash :
  length (motion_values (scan_of Synthetic.flash 0.115)) = 22%nat
  /\ length (motion_timestamps (scan_of Synthetic.flash 0.115)) = 22%nat
  /\ sampled_frames (scan_of Synthetic.flash 0.115) = 22%Z
  /\ ascending (motion_timestamps (scan_of Synthetic.flash 0.115)).
Proof.
  destruct (motion_lists_aligned Synthetic.flash 198 9 40.0
              (scan_of Synthetic.flash 0.115) ltac:(lia)
              (scan_reachable _ _ _ _))
    as (Hlen & Hcount & _ & Hasc).
  split; [|split; [|split]].
  - rewrite Hlen. vm_compute. reflexivity.
  - vm_compute. reflexivity.
  - rewrite <- Hcount. vm_compute. reflexivity.
  - apply Hasc; [reflexivity|]. vm_compute. discriminate.
Defined.

(** A source that reports an infinite rate: the four sampled frames all get
    the timestamp 0.0. *)
Lemma timestamps_of_timeless_source :
  sampled_indices Synthetic.timeless 40 10 = [0; 10; 20; 30]%Z
  /\ motion_timestamps (scan_of Synthetic.timeless 0.1) = [0; 0; 0; 0].
Proof. vm_compute. repeat split. Qed.

(* ================================================================== *)
(** * Motion peaks *)

(** Two timestamps the de-duplication keeps apart: [abs(a - b) < 4.5] is
    false. *)
Definition far (a b : float) : Prop := (abs (a - b) <? 4.5) = false.

(** Every entry is far from every earlier one. *)
Fixpoint spaced (l : list float) : Prop :=
  match l with
  | [] => True
  | x :: r => Forall (fun y => far y x) r /\ spaced r
  end.

Lemma far_sym (a b : float) : far a b -> far b a.
Proof. unfold far. now rewrite (FloatFacts.abs_sub_sym b a). Qed.

Lemma near_any_false (ts : float) (unique_peaks : list float) :
  near_any ts unique_peaks = false ->
  Forall (fun existing => far ts existing) unique_peaks.
Proof.
  unfold near_any. induction unique_peaks as [|e l IH]; cbn; intros H.
  - constructor.
  - apply orb_false_elim in H as [He Hl]. constructor; [exact He|now apply IH].
Qed.

Lemma spaced_snoc (l : list float) (ts : float) :
  spaced l -> Forall (fun existing => far ts existing) l ->
  spaced (l ++ [ts]).
Proof.
  induction l as [|x l IH]; cbn; intros Hsp Hfar.
  - split; [constructor|exact I].
  - destruct Hsp as [Hx Hl]. inversion Hfar as [|? ? Hts Hrest]; subst.
    split; [|now apply IH].
    apply Forall_app. split; [exact Hx|]. constructor; [exact Hts|constructor].
Qed.

Lemma dedup_peaks_spaced (pairs : list (float * float)) :
  forall unique_peaks,
    spaced unique_peaks -> (length unique_peaks < 6)%nat ->
    spaced (dedup_peaks pairs unique_peaks)
    /\ (length (dedup_peaks pairs unique_peaks) <= 6)%nat.
Proof.
  induction pairs as [|[ts score] rest IH]; intros u Hsp Hlen;
    cbn [dedup_peaks].
  - split; [exact Hsp|lia].
  - destruct (near_any ts u) eqn:Hnear; [now apply IH|].
    assert (Hsp' : spaced (u ++ [ts]))
      by (apply spaced_snoc; [exact Hsp|now apply near_any_false]).
    assert (Hlen' : length (u ++ [ts]) = S (length u))
      by (rewrite length_app; cbn; lia).
    destruct (Nat.leb_spec 6 (length (u ++ [ts]))) as [H6|H6].
    + split; [exact Hsp'|lia].
    + now apply IH.
Qed.

Lemma spaced_nth (l : list float) :
  spaced l ->
  forall i j a b, i <> j ->
    nth_error l i = Some a -> nth_error l j = Some b -> far a b.
Proof.
  assert (Hlt : forall l, spaced l -> forall i j a b, (i < j)%nat ->
            nth_error l i = Some a -> nth_error l j = Some b -> far b a).
  { clear l. induction l as [|x l IH]; intros Hsp i j a b Hij Hi Hj.
    - destruct i; discriminate.
    - destruct Hsp as [Hx Hl]. destruct j as [|j]; [lia|]. cbn in Hj.
      destruct i as [|i]; cbn in Hi.
      + injection Hi as <-. rewrite Forall_forall in Hx.
        apply Hx. eapply nth_error_In. exact Hj.
      + apply (IH Hl i j); [lia|exact Hi|exact Hj]. }
  intros Hsp i j a b Hij Hi Hj.
  destruct (Nat.lt_total i j) as [H|[H|H]]; [|contradiction|].
  - apply far_sym. apply (Hlt l Hsp i j); assumption.
  - apply (Hlt l Hsp j i); assumption.
Qed.

Lemma unique_peaks_spaced (st : ScanState) :
  spaced (unique_peaks_of st) /\ (length (unique_peaks_of st) <= 6)%nat.
Proof. apply dedup_peaks_spaced; cbn; [exact I|lia]. Qed.

(** C3, as the code has it.  The printed [motionPeaks] has at most six
    entries; each entry is a timestamp accepted by the de-duplication,
    rounded to two decimals; and any two distinct accepted timestamps are
    kept apart before the rounding: [abs(a - b) < 4.5] is false for them as
    doubles.  (After the rounding two entries can be 4.49 apart.) *)
Theorem motion_peaks_contract (env : Env) (args : Args) :
  (length (motionPeaks (printed (main env args))) <= 6)%nat
  /\ exists accepted,
       motionPeaks (printed (main env args))
       = map (fun value => py_round value 2) accepted
       /\ forall i j a b, i <> j ->
            nth_error accepted i = Some a -> nth_error accepted j = Some b ->
            (abs (a - b) <? 4.5) = false.
Proof.
  rewrite main_cases. cbv zeta.
  destruct (unusable_source env args || _); cbn [printed print_and_return].
  - split; [cbn; lia|]. exists []. split; [reflexivity|].
    intros [|i] j a b _ Hi; discriminate.
  - set (st := scan_of _ _). unfold build_payload. cbn [motionPeaks].
    destruct (unique_peaks_spaced st) as [Hsp Hlen].
    split; [now rewrite length_map|].
    exists (unique_peaks_of st). split; [reflexivity|].
    apply spaced_nth, Hsp.
Qed.

(** The flashing clip: two peaks are accepted, 0.225 and 4.725 seconds. *)
Lemma motion_peaks_of_flash :
  (length (motionPeaks
             (printed (main (Synthetic.studio Synthetic.flash)
                            (Synthetic.cli 0.115)))) <= 6)%nat
  /\ unique_peaks_of (scan_of Synthetic.flash 0.115) = [0.225; 4.725]
  /\ (abs (4.725 - 0.225) <? 4.5) = false.
Proof.
  destruct (motion_peaks_contract (Synthetic.studio Synthetic.flash)
              (Synthetic.cli 0.115)) as [Hlen _].
  split; [exact Hlen|]. vm_compute. split; reflexivity.
Defined.

(** The same clip refutes the spacing of the rounded entries: the payload
    holds the peaks 0.23 and 4.72, which are 4.49 seconds apart. *)
Lemma rounded_peaks_too_close :
  motionPeaks (printed (main (Synthetic.studio Synthetic.flash)
                             (Synthetic.cli 0.115)))
  = [0.23; 4.72]
  /\ (abs (4.72 - 0.23) <? 4.5) = true
  /\ (abs (0.23 - 4.72) <? 4.5) = true
  /\ (4.5 <=? abs (4.72 - 0.23)) = false.
Proof. vm_compute. repeat split. Qed.

(* ================================================================== *)
(** * A source without motion *)

Lemma sum_from_zero (f : Z -> Z) (n : nat) :
  forall lo, (forall i, f i = 0%Z) -> sum_from f lo n = 0%Z.
Proof.
  induction n as [|n IH]; intros lo Hf; cbn; [reflexivity|].
  rewrite Hf, IH by exact Hf. reflexivity.
Qed.

Lemma absdiff_same (a b : pixels) :
  (forall y x, a y x = b y x) -> forall y x, absdiff a b y x = 0%Z.
Proof. intros H y x. unfold absdiff. rewrite H. lia. Qed.

(** The mean of the difference of two equal images is 0.0. *)
Lemma motion_against_same (h w : Z) (a b : pixels) :
  (0 < h)%Z -> (0 < w)%Z -> (forall y x, a y x = b y x) ->
  fst (motion_against h w a b) = 0.
Proof.
  intros Hh Hw Hab. unfold motion_against, region_mean. cbn [fst].
  unfold region_sum.
  rewrite sum_from_zero
    by (intros y; apply sum_from_zero; intros x; now apply absdiff_same).
  assert (Hc : (0 < region_count h w 0 h 0 w)%Z)
    by (unfold region_count, clip; nia).
  change (of_Z 0) with 0. rewrite (FloatFacts.zero_div_of_Z _ Hc).
  reflexivity.
Qed.

Lemma fsum_zeros (l : list float) : Forall (fun v => v = 0) l -> fsum l = 0.
Proof.
  unfold fsum. induction 1 as [|v l Hv _ IH]; cbn; [reflexivity|].
  subst v. exact IH.
Qed.

Lemma mean_zeros (l : list float) :
  l <> [] -> Forall (fun v => v = 0) l -> mean l = 0.
Proof.
  intros Hne Hz. unfold mean. rewrite (fsum_zeros l Hz).
  apply FloatFacts.zero_div_of_Z. destruct l; [contradiction|cbn; lia].
Qed.

Lemma std_zeros (l : list float) :
  l <> [] -> Forall (fun v => v = 0) l -> std l = 0.
Proof.
  intros Hne Hz. unfold std. rewrite (mean_zeros l Hne Hz).
  rewrite mean_zeros; [reflexivity| |].
  - destruct l; [contradiction|discriminate].
  - apply Forall_map. eapply Forall_impl; [|exact Hz].
    intros v ->. reflexivity.
Qed.

Lemma filter_above_zeros (l : list float) :
  Forall (fun v => v = 0) l -> filter (fun v => 0 <? v) l = [].
Proof.
  induction 1 as [|v l Hv _ IH]; cbn; [reflexivity|]. subst v. exact IH.
Qed.

(** With equal scores the stable sort changes nothing. *)
Lemma sort_desc_zeros (l : list (float * float)) :
  Forall (fun p => snd p = 0) l -> sort_desc l = l.
Proof.
  unfold sort_desc. induction 1 as [|p l Hp Hl IH]; cbn; [reflexivity|].
  rewrite IH. destruct l as [|q r]; cbn; [reflexivity|].
  inversion Hl as [|? ? Hq _]; subst. rewrite Hp, Hq. reflexivity.
Qed.

(** The de-duplication only appends to the peaks it starts from. *)
Lemma dedup_peaks_prefix (pairs : list (float * float)) :
  forall unique_peaks,
    exists rest, dedup_peaks pairs unique_peaks = unique_peaks ++ rest.
Proof.
  induction pairs as [|[ts score] tail IH]; intros u; cbn [dedup_peaks].
  - exists []. now rewrite app_nil_r.
  - destruct (near_any ts u); [apply IH|].
    destruct (6 <=? length (u ++ [ts]))%nat.
    + now exists [ts].
    + destruct (IH (u ++ [ts])) as [rest ->]. exists (ts :: rest).
      now rewrite <- app_assoc.
Qed.

Section ZeroMotion.

Variable cap : Capture.
Variable total_frames sample_stride : Z.
Variable fps : float.

Hypothesis positive_height : (0 < shape_h cap)%Z.
Hypothesis positive_width : (0 < shape_w cap)%Z.
Hypothesis same_frames :
  forall i j s s', read_at cap i = Some s -> read_at cap j = Some s' ->
                   forall y x, gray s y x = gray s' y x.

(** Every recorded motion value is 0.0, and the previous grayscale image is
    one of the frames. *)
Lemma reachable_still (st : ScanState) :
  reachable cap total_frames sample_stride fps st ->
  Forall (fun v => v = 0) (motion_values st)
  /\ forall g, prev_gray st = Some g ->
               exists i s, read_at cap i = Some s /\ g = gray s.
Proof.
  induction 1 as [|st Hst [IHv IHg] Hlt].
  - split; [constructor|discriminate].
  - unfold loop_body.
    destruct (read_at cap (frame_index st)) as [s|] eqn:Hread;
      [|split; assumption].
    destruct (prev_gray st) as [pg|] eqn:Hprev.
    + destruct (IHg pg eq_refl) as (i & s0 & Hread0 & ->).
      pose proof (motion_against_same (shape_h cap) (shape_w cap)
                    (gray s0) (gray s) positive_height positive_width
                    (same_frames _ _ _ _ Hread0 Hread)) as Hm.
      destruct (motion_against _ _ _ _) as [mv band]. cbn in Hm. subst mv.
      cbn. split.
      * apply Forall_app. split; [exact IHv|]. constructor; [reflexivity|].
        constructor.
      * intros g [= <-]. now exists (frame_index st), s.
    + cbn. split.
      * apply Forall_app. split; [exact IHv|]. constructor; [reflexivity|].
        constructor.
      * intros g [= <-]. now exists (frame_index st), s.
Qed.

End ZeroMotion.

Lemma peak_pairs_scores (timestamps values : list float) (threshold : float) :
  Forall (fun v => v = 0) values ->
  Forall (fun p => snd p = 0) (peak_pairs timestamps values threshold).
Proof.
  intros Hz. unfold peak_pairs. apply Forall_forall. intros p Hp.
  apply in_map_iff in Hp as (iv & <- & Hiv). cbn [snd].
  apply filter_In in Hiv as [Hiv _]. destruct iv as [i v].
  apply in_combine_r in Hiv. rewrite Forall_forall in Hz. now apply Hz.
Qed.

(** What the peak detector and the result builder make of motion values
    that are all 0.0. *)
Lemma still_report (sample_stride : Z) (st : ScanState) :
  Forall (fun v => v = 0) (motion_values st) ->
  (0 < length (motion_values st))%nat ->
  length (motion_values st) = length (motion_timestamps st) ->
  mean (motion_values st) = 0
  /\ std (motion_values st) = 0
  /\ high_motion_threshold_of (motion_values st) = 0
  /\ filter (fun v => high_motion_threshold_of (motion_values st) <? v)
            (motion_values st) = []
  /\ high_motion_ratio_of (motion_values st) = 0
  /\ highMotionShortClipSignal (build_payload sample_stride st) = 0
  /\ exists first others rest,
       motion_timestamps st = first :: others
       /\ unique_peaks_of st = first :: rest
       /\ motionPeaks (build_payload sample_stride st)
          = py_round first 2 :: map (fun value => py_round value 2) rest.
Proof.
  intros Hz Hlen Hal.
  assert (Hne : motion_values st <> []) by (destruct (motion_values st);
                                            [cbn in Hlen; lia|discriminate]).
  assert (Harr : motion_array_of (motion_values st) = motion_values st)
    by (destruct (motion_values st); [contradiction|reflexivity]).
  assert (Hmean : mean (motion_values st) = 0) by now apply mean_zeros.
  assert (Hstd : std (motion_values st) = 0) by now apply std_zeros.
  assert (Hthr : high_motion_threshold_of (motion_values st) = 0).
  { unfold high_motion_threshold_of. rewrite Harr, Hmean, Hstd. reflexivity. }
  assert (Hfil : filter (fun v => 0 <? v) (motion_values st) = [])
    by now apply filter_above_zeros.
  assert (Hratio : high_motion_ratio_of (motion_values st) = 0).
  { unfold high_motion_ratio_of. rewrite Harr.
    destruct (Nat.ltb_spec 0 (length (motion_values st))); [|lia].
    unfold fraction_above. rewrite Hthr, Hfil. cbn [length Z.of_nat].
    change (of_Z 0) with 0. apply FloatFacts.zero_div_of_Z. lia. }
  split; [exact Hmean|]. split; [exact Hstd|]. split; [exact Hthr|].
  split; [now rewrite Hthr|]. split; [exact Hratio|].
  split.
  { unfold build_payload. cbn [highMotionShortClipSignal]. rewrite Hratio.
    reflexivity. }
  unfold build_payload. cbn [motionPeaks]. unfold unique_peaks_of.
  rewrite Hthr.
  rewrite sort_desc_zeros by now apply peak_pairs_scores.
  destruct (motion_values st) as [|v vs] eqn:Hv; [contradiction|].
  destruct (motion_timestamps st) as [|t ts] eqn:Ht; [discriminate|].
  inversion Hz as [|? ? Hv0 _]; subst v.
  exists t, ts. unfold peak_pairs, enumerate. cbn [length seq combine filter].
  change (0 <=? snd (0%nat, 0)) with true. cbn [map fst snd nth].
  cbn [dedup_peaks near_any existsb app length Nat.leb].
  match goal with
  | |- context [dedup_peaks ?pairs [t]] =>
      destruct (dedup_peaks_prefix pairs [t]) as [rest ->]
  end.
  exists rest. cbn [app map]. repeat split; reflexivity.
Qed.

(** C4, as the code has it.  For a usable source whose frames all carry the
    same grayscale image, with a positive frame extent and at least one
    sampled frame: every motion value is 0.0, so the mean, the standard
    deviation and the threshold are 0.0, no value is above the threshold, the
    high-motion ratio and [highMotionShortClipSignal] are 0.0; but every
    value reaches the threshold ([value >= threshold]), so the first sampled
    frame is accepted as a peak and [motionPeaks] starts with its rounded
    timestamp. *)
Theorem zero_motion_source (env : Env) (args : Args) :
  let cap := VideoCapture env (input args) in
  let st := scan_of cap (sample_ratio args) in
  unusable_source env args = false ->
  (0 < shape_h cap)%Z -> (0 < shape_w cap)%Z ->
  (forall i j s s', read_at cap i = Some s -> read_at cap j = Some s' ->
                    forall y x, gray s y x = gray s' y x) ->
  (0 < sampled_frames st)%Z ->
  Forall (fun v => v = 0) (motion_values st)
  /\ mean (motion_values st) = 0
  /\ std (motion_values st) = 0
  /\ high_motion_threshold_of (motion_values st) = 0
  /\ filter (fun v => high_motion_threshold_of (motion_values st) <? v)
            (motion_values st) = []
  /\ high_motion_ratio_of (motion_values st) = 0
  /\ highMotionShortClipSignal (printed (main env args)) = 0
  /\ exists first others rest,
       motion_timestamps st = first :: others
       /\ motionPeaks (printed (main env args)) = py_round first 2 :: rest.
Proof.
  intros cap st Husable Hh Hw Hsame Hsampled.
  assert (Hreach : reachable cap (total_frames_of cap)
                     (stride_of cap (sample_ratio args)) (fps_of cap) st)
    by apply scan_reachable.
  destruct (reachable_still cap _ _ _ Hh Hw Hsame st Hreach) as [Hz _].
  destruct (reachable_aligned _ _ _ _ _ Hreach) as [Hal Hcount].
  assert (Hlen : (0 < length (motion_values st))%nat) by lia.
  destruct (still_report (stride_of cap (sample_ratio args)) st Hz Hlen Hal)
    as (Hmean & Hstd & Hthr & Hfil & Hratio & Hsig & first & others & rest
        & Hts & _ & Hpeaks).
  assert (Hmain : printed (main env args)
                  = build_payload (stride_of cap (sample_ratio args)) st).
  { rewrite main_cases. cbv zeta. fold cap. fold st. rewrite Husable.
    destruct (Z.leb_spec (sampled_frames st) 0); [lia|reflexivity]. }
  rewrite Hmain.
  repeat (split; [assumption|]).
  exists first, others, (map (fun value => py_round value 2) rest).
  split; assumption.
Qed.

(** The still clip of 100 frames: the signal is 0.0 and [motionPeaks] is
    [[0.0]], not the empty list. *)
Lemma zero_motion_of_still :
  highMotionShortClipSignal
    (printed (main (Synthetic.studio Synthetic.still) (Synthetic.cli 0.1)))
  = 0
  /\ motionPeaks
       (printed (main (Synthetic.studio Synthetic.still) (Synthetic.cli 0.1)))
     = [0].
Proof.
  destruct (zero_motion_source (Synthetic.studio Synthetic.still)
              (Synthetic.cli 0.1) eq_refl eq_refl eq_refl
              ltac:(intros i j s s' [= <-] [= <-] y x; reflexivity)
              eq_refl)
    as (_ & _ & _ & _ & _ & _ & Hsig & _).
  split; [exact Hsig|]. vm_compute. reflexivity.
Defined.

(** A source without motion still reports a peak. *)
Lemma still_source_has_a_peak :
  motion_values (scan_of Synthetic.still 0.1) = [0; 0; 0; 0; 0; 0; 0; 0; 0; 0]
  /\ high_motion_threshold_of (motion_values (scan_of Synthetic.still 0.1))
     = 0
  /\ motionPeaks
       (printed (main (Synthetic.studio Synthetic.still) (Synthetic.cli 0.1)))
     = [0]
  /\ length
       (motionPeaks
          (printed (main (Synthetic.studio Synthetic.still)
                         (Synthetic.cli 0.1)))) = 1%nat.
Proof. vm_compute. repeat split. Qed.

#[local] Open Scope Z_scope.

(* ================================================================== *)
(** * The order of doubles *)

Module FloatOrder.

#[local] Open Scope float_scope.

(** [SFcompare] is a total preorder on the doubles that are not NaN. *)
Lemma SFcompare_trans (x y z : spec_float) (c : comparison) :
  SFcompare x y = Some c -> SFcompare y z = Some c -> SFcompare x z = Some c.
Proof.
  destruct x as [sx|sx| |sx mx ex], y as [sy|sy| |sy my ey],
           z as [sz|sz| |sz mz ez]; cbn;
    try destruct sx; try destruct sy; try destruct sz; cbn;
    try congruence;
    destruct (Z.compare_spec ex ey), (Z.compare_spec ey ez),
             (Z.compare_spec ex ez); try congruence; try lia;
    rewrite ?Pos.compare_cont_spec; cbn [Pos.switch_Eq];
    destruct (Pos.compare_spec mx my), (Pos.compare_spec my mz),
             (Pos.compare_spec mx mz); cbn; try congruence; try lia.
Qed.

Lemma SFcompare_eq_l (x y z : spec_float) :
  SFcompare x y = Some Eq -> SFcompare x z = SFcompare y z.
Proof.
  destruct x as [sx|sx| |sx mx ex], y as [sy|sy| |sy my ey],
           z as [sz|sz| |sz mz ez]; cbn;
    try destruct sx; try destruct sy; try destruct sz; cbn;
    try congruence;
    destruct (Z.compare_spec ex ey), (Z.compare_spec ey ez),
             (Z.compare_spec ex ez); try congruence; try lia;
    rewrite ?Pos.compare_cont_spec; cbn [Pos.switch_Eq];
    destruct (Pos.compare_spec mx my), (Pos.compare_spec my mz),
             (Pos.compare_spec mx mz); cbn; try congruence; try lia.
Qed.

Lemma SFcompare_eq_r (x y z : spec_float) :
  SFcompare x y = Some Eq -> SFcompare z x = SFcompare z y.
Proof.
  intros H. rewrite (FloatFacts.SFcompare_antisym x z),
    (FloatFacts.SFcompare_antisym y z). f_equal. now apply SFcompare_eq_l.
Qed.

Lemma SFcompare_refl (x y : spec_float) (c : comparison) :
  SFcompare x y = Some c ->
  SFcompare x x = Some Eq /\ SFcompare y y = Some Eq.
Proof.
  destruct x as [sx|sx| |sx mx ex], y as [sy|sy| |sy my ey]; cbn;
    try destruct sx; try destruct sy; cbn; try discriminate; intros _;
    rewrite ?Z.compare_refl, ?Pos.compare_cont_refl; split; reflexivity.
Qed.

(** The order of two doubles, NaN apart: below, equal or above. *)
Inductive order_spec (x y : float) : bool -> bool -> bool -> bool -> Prop :=
| order_lt : order_spec x y true true false false
| order_eq : order_spec x y false true true true
| order_gt : order_spec x y false false true false
| order_nan : order_spec x y false false false false.

Lemma order_cases (x y : float) :
  order_spec x y (x <? y) (x <=? y) (y <=? x) (x =? y).
Proof.
  rewrite ltb_spec, !leb_spec, eqb_spec. unfold SFltb, SFleb, SFeqb.
  rewrite (FloatFacts.SFcompare_antisym (Prim2SF x) (Prim2SF y)).
  destruct (SFcompare (Prim2SF x) (Prim2SF y)) as [[]|]; cbn; constructor.
Qed.

Lemma leb_trans (x y z : float) :
  (x <=? y) = true -> (y <=? z) = true -> (x <=? z) = true.
Proof.
  rewrite !leb_spec. unfold SFleb.
  destruct (SFcompare (Prim2SF x) (Prim2SF y)) as [[]|] eqn:Hxy;
    try discriminate;
    destruct (SFcompare (Prim2SF y) (Prim2SF z)) as [[]|] eqn:Hyz;
    try discriminate; intros _ _.
  - now rewrite (SFcompare_trans _ _ _ _ Hxy Hyz).
  - now rewrite (SFcompare_eq_l _ _ _ Hxy), Hyz.
  - now rewrite <- (SFcompare_eq_r _ _ _ Hyz), Hxy.
  - now rewrite (SFcompare_trans _ _ _ _ Hxy Hyz).
Qed.

Lemma ltb_leb_trans (x y z : float) :
  (x <? y) = true -> (y <=? z) = true -> (x <? z) = true.
Proof.
  rewrite !ltb_spec, leb_spec. unfold SFleb, SFltb.
  destruct (SFcompare (Prim2SF x) (Prim2SF y)) as [[]|] eqn:Hxy;
    try discriminate;
    destruct (SFcompare (Prim2SF y) (Prim2SF z)) as [[]|] eqn:Hyz;
    try discriminate; intros _ _.
  - now rewrite <- (SFcompare_eq_r _ _ _ Hyz), Hxy.
  - now rewrite (SFcompare_trans _ _ _ _ Hxy Hyz).
Qed.

Lemma leb_ltb_trans (x y z : float) :
  (x <=? y) = true -> (y <? z) = true -> (x <? z) = true.
Proof.
  rewrite !ltb_spec, leb_spec. unfold SFleb, SFltb.
  destruct (SFcompare (Prim2SF x) (Prim2SF y)) as [[]|] eqn:Hxy;
    try discriminate;
    destruct (SFcompare (Prim2SF y) (Prim2SF z)) as [[]|] eqn:Hyz;
    try discriminate; intros _ _.
  - now rewrite (SFcompare_eq_l _ _ _ Hxy), Hyz.
  - now rewrite (SFcompare_trans _ _ _ _ Hxy Hyz).
Qed.

Lemma leb_refl (x y : float) :
  (x <=? y) = true -> (x <=? x) = true /\ (y <=? y) = true.
Proof.
  rewrite !leb_spec. unfold SFleb.
  destruct (SFcompare (Prim2SF x) (Prim2SF y)) as [c|] eqn:Hxy;
    [|discriminate].
  destruct (SFcompare_refl _ _ _ Hxy) as [-> ->]. now split.
Qed.

(** Two doubles that are not NaN are comparable. *)
Lemma leb_total (x y : float) :
  (x <=? x) = true -> (y <=? y) = true -> (x <? y) = false ->
  (y <=? x) = true.
Proof.
  rewrite ltb_spec, !leb_spec. unfold SFltb, SFleb.
  rewrite (FloatFacts.SFcompare_antisym (Prim2SF x) (Prim2SF y)).
  destruct (Prim2SF x) as [sx|sx| |sx mx ex], (Prim2SF y) as [sy|sy| |sy my ey];
    cbn; try discriminate; try destruct sx; try destruct sy; cbn;
    try congruence;
    destruct (ex ?= ey)%Z; cbn; try congruence;
    destruct (Pos.compare_cont Eq mx my); cbn; congruence.
Qed.

Lemma ltb_facts (x y : float) :
  (x <? y) = true ->
  (x <=? y) = true /\ (y <=? x) = false /\ (y <? x) = false
  /\ (x =? y) = false /\ (y =? x) = false.
Proof.
  rewrite !ltb_spec, !leb_spec, !eqb_spec. unfold SFltb, SFleb, SFeqb.
  rewrite (FloatFacts.SFcompare_antisym (Prim2SF x) (Prim2SF y)).
  destruct (SFcompare (Prim2SF x) (Prim2SF y)) as [[]|]; cbn;
    try discriminate; intros _; repeat split.
Qed.

Lemma leb_ltb_false (x y : float) : (x <=? y) = true -> (y <? x) = false.
Proof. intros H. destruct (order_cases y x); congruence. Qed.

(** At most and not below is equal. *)
Lemma leb_not_ltb (x y : float) :
  (x <=? y) = true -> (x <? y) = false ->
  (x =? y) = true /\ (y =? x) = true.
Proof.
  rewrite !eqb_spec, ltb_spec, leb_spec. unfold SFltb, SFleb, SFeqb.
  rewrite (FloatFacts.SFcompare_antisym (Prim2SF x) (Prim2SF y)).
  destruct (SFcompare (Prim2SF x) (Prim2SF y)) as [[]|]; cbn;
    try discriminate; now split.
Qed.

Lemma eqb_refl (x y : float) : (x <=? y) = true -> (y =? y) = true.
Proof.
  intros H. destruct (leb_refl _ _ H) as [_ Hy].
  now apply leb_not_ltb; [|destruct (order_cases y y)].
Qed.

(** *** [clamp] *)

(** For bounds in order the result of [clamp] lies between them. *)
Lemma clamp_between (value low high : float) :
  (low <=? high) = true -> between low (clamp value low high) high = true.
Proof.
  intros Hlh. destruct (leb_refl _ _ Hlh) as [Hl Hh].
  unfold clamp, py_max, py_min, between.
  destruct (value <? high) eqn:Hv.
  - destruct (low <? value) eqn:Hlv.
    + now rewrite (FloatFacts.ltb_leb _ _ Hlv), (FloatFacts.ltb_leb _ _ Hv).
    + now rewrite Hl, Hlh.
  - destruct (low <? high); now rewrite ?Hl, ?Hh, ?Hlh.
Qed.

(** A value between the bounds is returned as it is, up to the sign of a
    zero. *)
Lemma clamp_fixes (value low high : float) :
  between low value high = true -> (clamp value low high =? value) = true.
Proof.
  unfold between, clamp, py_max, py_min. intros H.
  apply andb_prop in H as [Hlo Hhi].
  destruct (value <? high) eqn:Hv.
  - destruct (low <? value) eqn:Hlv.
    + exact (eqb_refl _ _ Hlo).
    + exact (proj1 (leb_not_ltb _ _ Hlo Hlv)).
  - destruct (low <? high) eqn:Hlh.
    + exact (proj2 (leb_not_ltb _ _ Hhi Hv)).
    + refine (proj1 (leb_not_ltb _ _ Hlo _)).
      destruct (low <? value) eqn:Hlv; [|reflexivity].
      now rewrite (ltb_leb_trans _ _ _ Hlv Hhi) in Hlh.
Qed.

End FloatOrder.

Import FloatOrder.
#[local] Open Scope float_scope.

(* ================================================================== *)
(** * [clamp] on every double *)

(** X1.  [clamp(value, low, high)] with bounds in order ([low <= high], so
    neither is a NaN): the result lies between the bounds for every
    [value], a NaN and the infinities included; a value between the bounds
    is returned unchanged (up to the sign of a zero); a value below [low]
    gives [low], and a value above [high] or a NaN gives the upper bound
    (up to the sign of a zero). *)
Theorem clamp_contract (value low high : float) :
  (low <=? high) = true ->
  between low (clamp value low high) high = true
  /\ (between low value high = true ->
      (clamp value low high =? value) = true)
  /\ ((value <? low) = true -> clamp value low high = low)
  /\ ((high <? value) = true -> (clamp value low high =? high) = true)
  /\ ((value =? value) = false -> (clamp value low high =? high) = true).
Proof.
  intros Hlh. split; [now apply clamp_between|].
  split; [apply clamp_fixes|].
  assert (Hmax : (py_max low high =? high) = true).
  { unfold py_max. destruct (low <? high) eqn:E.
    - exact (eqb_refl _ _ Hlh).
    - exact (proj1 (leb_not_ltb _ _ Hlh E)). }
  unfold clamp. repeat split.
  - intros Hvl. unfold py_max, py_min.
    rewrite (ltb_leb_trans _ _ _ Hvl Hlh).
    now rewrite (FloatFacts.ltb_asym _ _ Hvl).
  - intros Hhv. unfold py_min at 1.
    now rewrite (FloatFacts.ltb_asym _ _ Hhv).
  - intros Hnan. unfold py_min at 1.
    destruct (value <? high) eqn:E; [|exact Hmax].
    apply FloatFacts.ltb_leb in E. apply leb_refl in E as [E _].
    pose proof (order_cases value value) as O. rewrite E, Hnan in O.
    inversion O.
Qed.

(** A ratio above the cap, one inside the range and a NaN. *)
Lemma clamp_contract_ratio :
  (0.01 <=? 0.5) = true
  /\ clamp 0.9 0.01 0.5 = 0.5
  /\ clamp 0.25 0.01 0.5 = 0.25
  /\ clamp (-3) 0.01 0.5 = 0.01
  /\ clamp nan 0.01 0.5 = 0.5
  /\ between 0.01 (clamp infinity 0.01 0.5) 0.5 = true.
Proof.
  split; [reflexivity|].
  destruct (clamp_contract infinity 0.01 0.5 eq_refl) as [H _].
  repeat split; try exact H; vm_compute; reflexivity.
Defined.

#[local] Open Scope Z_scope.

(* ================================================================== *)
(** * The counters of the report *)

Lemma sampled_indices_length (cap : Capture) (total_frames sample_stride : Z) :
  (length (sampled_indices cap total_frames sample_stride)
   <= length (sample_indices total_frames sample_stride))%nat.
Proof. apply filter_length_le. Qed.

(** X2.  The two counters of the printed payload.  [sampledFrames] is 0
    exactly when the payload is the fallback payload, and so is
    [sampleStride].  Otherwise the stride lies between 1 and the frame
    count of the source, [sampledFrames] is the number of indices
    [0, stride, 2*stride, ...] below the frame count at which a frame was
    decoded, it is at least 1, and [(sampledFrames - 1) * sampleStride] is
    below the frame count. *)
Theorem payload_counters (env : Env) (args : Args) :
  let cap := VideoCapture env (input args) in
  let total_frames := CAP_PROP_FRAME_COUNT cap in
  let p := printed (main env args) in
  (sampledFrames p = 0 <-> p = fallback_payload)
  /\ (sampleStride p = 0 <-> p = fallback_payload)
  /\ (p <> fallback_payload ->
      1 <= sampleStride p <= total_frames
      /\ 1 <= sampledFrames p
      /\ sampledFrames p
         = Z.of_nat (length (sampled_indices cap total_frames
                               (sampleStride p)))
      /\ (sampledFrames p - 1) * sampleStride p < total_frames).
Proof.
  intros cap total_frames p. subst p. rewrite main_cases. cbv zeta.
  fold cap. unfold unusable_source. fold cap.
  unfold scan_of, total_frames_of. rewrite !int_or_0_id. fold total_frames.
  set (stride := stride_of cap (sample_ratio args)).
  pose proof (stride_of_positive cap (sample_ratio args)) as Hs.
  fold stride in Hs.
  rewrite (scan_sampled_frames cap total_frames stride (fps_of cap) Hs).
  set (n := Z.of_nat (length (sampled_indices cap total_frames stride))).
  destruct (_ || (n <=? 0)) eqn:Hcase; cbn [printed print_and_return].
  - repeat split; intros; try reflexivity; contradiction.
  - apply orb_false_elim in Hcase as [Hu Hn]. apply Z.leb_gt in Hn.
    repeat apply orb_false_elim in Hu as [Hu ?].
    assert (Ht : 0 < total_frames) by (apply Z.leb_gt; assumption).
    unfold build_payload. cbn [sampledFrames sampleStride].
    rewrite (scan_sampled_frames cap total_frames stride (fps_of cap) Hs).
    fold n.
    assert (Hne : forall q, sampledFrames q = n -> q <> fallback_payload).
    { intros q Hq ->. cbn in Hq. lia. }
    split; [split; [lia|]|].
    { intros E. exfalso. eapply Hne; [|exact E]. reflexivity. }
    split; [split; [lia|]|].
    { intros E. exfalso. eapply Hne; [|exact E]. reflexivity. }
    intros _.
    assert (Hst : stride <= total_frames).
    { unfold stride, stride_of, sample_stride_of, total_frames_of.
      rewrite int_or_0_id. fold cap. fold total_frames.
      set (c := sample_count_of _ _).
      assert (Hc : 1 <= c) by (unfold c, sample_count_of; lia).
      assert (total_frames / c <= total_frames)
        by (apply Z.div_le_upper_bound; nia).
      lia. }
    split; [lia|]. split; [lia|]. split; [reflexivity|].
    pose proof (sampled_indices_length cap total_frames stride) as Hlen.
    rewrite sample_indices_length in Hlen.
    destruct (ceil_div_spec total_frames stride Hs ltac:(lia))
      as (HN & [Hlo Hhi] & _).
    set (N := (total_frames + stride - 1) / stride) in *.
    assert (n <= N) by (unfold n; lia).
    nia.
Qed.

#[local] Open Scope Z_scope.

(* ================================================================== *)
(** * Where the motion peaks come from *)

Lemma enumerate_In {A : Type} (l : list A) (k : nat) (v : A) :
  In (k, v) (enumerate l) -> nth_error l k = Some v.
Proof.
  unfold enumerate.
  assert (H : forall (l : list A) s, In (k, v) (combine (seq s (length l)) l) ->
            (s <= k)%nat /\ nth_error l (k - s) = Some v).
  { clear l. induction l as [|a l IH]; intros s; cbn; [contradiction|].
    intros [E|Hin].
    - injection E as -> ->. rewrite Nat.sub_diag. split; [lia|reflexivity].
    - apply IH in Hin as [Hle Hn]. split; [lia|].
      replace (k - s)%nat with (S (k - S s)) by lia. exact Hn. }
  intros Hin. apply H in Hin as [_ Hn]. now rewrite Nat.sub_0_r in Hn.
Qed.

(** A candidate pair is the timestamp and the motion value at one position
    of the two lists, the value being at least the threshold. *)
Lemma peak_pairs_In (timestamps values : list float) (threshold ts v : float) :
  length values = length timestamps ->
  In (ts, v) (peak_pairs timestamps values threshold) ->
  exists k, nth_error timestamps k = Some ts
            /\ nth_error values k = Some v
            /\ (threshold <=? v)%float = true.
Proof.
  intros Hlen Hin. unfold peak_pairs in Hin.
  apply in_map_iff in Hin as ([k v'] & E & Hin). cbn [fst snd] in E.
  injection E as <- <-.
  apply filter_In in Hin as [Hin Hthr]. cbn [snd] in Hthr.
  apply enumerate_In in Hin. exists k. split; [|split; assumption].
  assert (Hk : (k < length timestamps)%nat).
  { rewrite <- Hlen. apply nth_error_Some. congruence. }
  now apply nth_error_nth'.
Qed.

Lemma insert_desc_In (p q : float * float) (l : list (float * float)) :
  In q (insert_desc p l) <-> q = p \/ In q l.
Proof.
  induction l as [|a l IH]; cbn.
  - intuition congruence.
  - destruct (snd p <? snd a)%float; cbn; rewrite ?IH; intuition congruence.
Qed.

(** The sort keeps the pairs it is given, no more and no fewer. *)
Lemma sort_desc_In (q : float * float) (l : list (float * float)) :
  In q (sort_desc l) <-> In q l.
Proof.
  unfold sort_desc. induction l as [|a l IH]; cbn; [tauto|].
  rewrite insert_desc_In, IH. intuition congruence.
Qed.

Lemma insert_desc_length (p : float * float) (l : list (float * float)) :
  length (insert_desc p l) = S (length l).
Proof.
  induction l as [|a l IH]; cbn; [reflexivity|].
  destruct (snd p <? snd a)%float; cbn; now rewrite ?IH.
Qed.

Lemma sort_desc_length (l : list (float * float)) :
  length (sort_desc l) = length l.
Proof.
  unfold sort_desc. induction l as [|a l IH]; cbn; [reflexivity|].
  now rewrite insert_desc_length, IH.
Qed.

(** The de-duplication accepts only timestamps of the pairs it is given, at
    most one per pair. *)
Lemma dedup_peaks_In (pairs : list (float * float)) :
  forall unique_peaks ts,
    In ts (dedup_peaks pairs unique_peaks) ->
    In ts unique_peaks \/ exists score, In (ts, score) pairs.
Proof.
  induction pairs as [|[t s] rest IH]; intros u ts; cbn [dedup_peaks].
  - now left.
  - destruct (near_any t u).
    + intros H. apply IH in H as [H|[score H]]; [now left|].
      right. exists score. now right.
    + destruct (6 <=? length (u ++ [t]))%nat.
      * intros H. apply in_app_or in H as [H|[<-|[]]]; [now left|].
        right. exists s. now left.
      * intros H. apply IH in H as [H|[score H]].
        -- apply in_app_or in H as [H|[<-|[]]]; [now left|].
           right. exists s. now left.
        -- right. exists score. now right.
Qed.

Lemma dedup_peaks_length (pairs : list (float * float)) :
  forall unique_peaks,
    (length (dedup_peaks pairs unique_peaks)
     <= length unique_peaks + length pairs)%nat.
Proof.
  induction pairs as [|[t s] rest IH]; intros u; cbn [dedup_peaks length].
  - lia.
  - destruct (near_any t u).
    + specialize (IH u). lia.
    + destruct (6 <=? length (u ++ [t]))%nat.
      * rewrite length_app. cbn. lia.
      * specialize (IH (u ++ [t])). rewrite length_app in IH. cbn in IH. lia.
Qed.

Lemma peak_pairs_length (timestamps values : list float) (threshold : float) :
  (length (peak_pairs timestamps values threshold) <= length values)%nat.
Proof.
  unfold peak_pairs, enumerate. rewrite length_map.
  eapply Nat.le_trans; [apply filter_length_le|].
  rewrite length_combine, length_seq. lia.
Qed.

(** The peaks printed for a state of the loop when the threshold is
    [threshold]: lines 165 to 178 and the rounding of line 194.  [main]
    takes the threshold from the motion values; what follows holds for
    every threshold, so it does not depend on how the mean and the standard
    deviation are rounded. *)
Definition peaks_at (st : ScanState) (threshold : float) : list float :=
  map (fun value => py_round value 2)
      (dedup_peaks
         (sort_desc (peak_pairs (motion_timestamps st) (motion_values st)
                                threshold))
         []).

(** A threshold that nothing reaches gives no peak. *)
Lemma peaks_at_nan (st : ScanState) : peaks_at st nan = [].
Proof.
  unfold peaks_at, peak_pairs.
  replace (filter _ (enumerate (motion_values st))) with (@nil (nat * float));
    [reflexivity|].
  symmetry. induction (enumerate (motion_values st)) as [|[k v] l IH];
    [reflexivity|].
  cbn [filter snd].
  replace (nan <=? v)%float with false; [exact IH|].
  symmetry. rewrite leb_spec. cbn. now destruct (Prim2SF v).
Qed.

(** Every peak accepted at a threshold is the timestamp of a sampled frame
    whose motion value reaches that threshold. *)
Lemma peaks_at_In (cap : Capture) (total_frames sample_stride : Z)
    (fps : float) (st : ScanState) (threshold peak : float) :
  reachable cap total_frames sample_stride fps st ->
  In peak (peaks_at st threshold) ->
  exists k ts v, nth_error (motion_timestamps st) k = Some ts
                 /\ nth_error (motion_values st) k = Some v
                 /\ (threshold <=? v)%float = true
                 /\ peak = py_round ts 2.
Proof.
  intros Hst Hin. destruct (reachable_aligned _ _ _ _ _ Hst) as [Hlen _].
  apply in_map_iff in Hin as (ts & <- & Hin).
  apply dedup_peaks_In in Hin as [[]|[score Hin]].
  apply (proj1 (sort_desc_In _ _)) in Hin.
  apply peak_pairs_In in Hin as (k & Hts & Hv & Hthr); [|exact Hlen].
  now exists k, ts, score.
Qed.

Lemma peaks_at_length (st : ScanState) (threshold : float) :
  (length (peaks_at st threshold) <= length (motion_values st))%nat.
Proof.
  unfold peaks_at. rewrite length_map.
  eapply Nat.le_trans; [apply dedup_peaks_length|]. cbn [length plus].
  rewrite sort_desc_length. apply peak_pairs_length.
Qed.

(** X3.  Where the motion peaks come from, whatever the threshold.  The
    printed [motionPeaks] are the peaks accepted at the threshold of the
    run, and for every threshold each accepted peak is a time of a sampled
    frame: for some position [k], the peak is
    [round(i / max(1.0, fps), 2)] for the [k]-th frame index [i] that was
    decoded, and the [k]-th motion value is at least the threshold.  There
    are no more peaks than sampled frames. *)
Theorem motion_peaks_provenance (env : Env) (args : Args) :
  let cap := VideoCapture env (input args) in
  let st := scan_of cap (sample_ratio args) in
  let p := printed (main env args) in
  (exists threshold, motionPeaks p = peaks_at st threshold)
  /\ (forall threshold,
        Forall (fun peak =>
                  exists k i v,
                    nth_error (sampled_indices cap (total_frames_of cap)
                                 (stride_of cap (sample_ratio args))) k
                    = Some i
                    /\ nth_error (motion_values st) k = Some v
                    /\ (threshold <=? v)%float = true
                    /\ peak = py_round (timestamp_of (fps_of cap) i) 2)
               (peaks_at st threshold)
        /\ Z.of_nat (length (peaks_at st threshold)) <= sampled_frames st)
  /\ Z.of_nat (length (motionPeaks p)) <= sampledFrames p.
Proof.
  intros cap st p.
  pose proof (scan_reachable cap (total_frames_of cap)
                (stride_of cap (sample_ratio args)) (fps_of cap)) as Hst.
  fold (scan_of cap (sample_ratio args)) in Hst. fold st in Hst.
  destruct (reachable_aligned _ _ _ _ _ Hst) as [_ Hn].
  assert (Hlen : forall threshold,
             Z.of_nat (length (peaks_at st threshold)) <= sampled_frames st).
  { intros threshold. rewrite <- Hn. apply inj_le, peaks_at_length. }
  assert (Hp : motionPeaks p = peaks_at st nan /\ sampledFrames p = 0
               \/ motionPeaks p
                  = peaks_at st (high_motion_threshold_of (motion_values st))
                  /\ sampledFrames p = sampled_frames st).
  { subst p. rewrite main_cases. cbv zeta. fold cap. fold st.
    destruct (_ || _); cbn [printed print_and_return].
    - left. now rewrite peaks_at_nan.
    - right. split; reflexivity. }
  split; [destruct Hp as [[Hp _]|[Hp _]]; eexists; exact Hp|].
  split.
  - intros threshold. split; [|apply Hlen].
    apply Forall_forall. intros peak Hin.
    destruct (peaks_at_In _ _ _ _ _ _ _ Hst Hin)
      as (k & ts & v & Hts & Hv & Hthr & ->).
    assert (Htss : motion_timestamps st
                   = map (timestamp_of (fps_of cap))
                       (sampled_indices cap (total_frames_of cap)
                          (stride_of cap (sample_ratio args)))).
    { apply scan_timestamps, stride_of_positive. }
    rewrite Htss, nth_error_map in Hts.
    destruct (nth_error _ k) as [i|] eqn:Hi; [|discriminate].
    injection Hts as <-. now exists k, i, v.
  - destruct Hp as [[-> ->]|[-> ->]]; [rewrite peaks_at_nan; cbn; lia|].
    apply Hlen.
Qed.

#[local] Open Scope Z_scope.

(* ================================================================== *)
(** * The first peak *)

#[local] Open Scope float_scope.

Lemma In_enumerate {A : Type} (l : list A) (k : nat) (v : A) :
  nth_error l k = Some v -> In (k, v) (enumerate l).
Proof.
  unfold enumerate.
  assert (H : forall (l : list A) k s, nth_error l k = Some v ->
            In ((s + k)%nat, v) (combine (seq s (length l)) l)).
  { clear l k. induction l as [|a l IH]; intros [|k] s Hn; cbn in *;
      try discriminate.
    - injection Hn as ->. left. now rewrite Nat.add_0_r.
    - right. replace (s + S k)%nat with (S s + k)%nat by lia. now apply IH. }
  intros Hn. exact (H l k 0%nat Hn).
Qed.

(** Every motion value that reaches the threshold is the score of a
    candidate pair. *)
Lemma In_peak_pairs (timestamps values : list float) (threshold v : float) :
  In v values -> (threshold <=? v) = true ->
  exists ts, In (ts, v) (peak_pairs timestamps values threshold).
Proof.
  intros Hin Hthr. apply In_nth_error in Hin as [k Hk].
  exists (nth k timestamps 0). unfold peak_pairs.
  apply in_map_iff. exists (k, v). split; [reflexivity|].
  apply filter_In. split; [now apply In_enumerate|exact Hthr].
Qed.

(** The head of the sorted pairs has the largest score, when no score is a
    NaN. *)
Lemma sort_desc_head (l : list (float * float)) :
  Forall (fun q => (snd q <=? snd q) = true) l ->
  forall p r, sort_desc l = p :: r ->
              Forall (fun q => (snd q <=? snd p) = true) l.
Proof.
  unfold sort_desc. induction 1 as [|a l Ha Hl IH]; intros p r E;
    [discriminate|].
  cbn [fold_right] in E. fold (sort_desc l) in *.
  destruct (sort_desc l) as [|q r'] eqn:Hs.
  - assert (l = []) as ->.
    { apply length_zero_iff_nil. rewrite <- sort_desc_length, Hs.
      reflexivity. }
    cbn in E. injection E as <- <-. constructor; [exact Ha|constructor].
  - specialize (IH q r' eq_refl). cbn [insert_desc] in E.
    destruct (snd a <? snd q) eqn:Hlt; injection E as <- <-.
    + constructor; [now apply FloatFacts.ltb_leb|exact IH].
    + assert (Hq : (snd q <=? snd q) = true).
      { assert (Hin : In q l)
          by (apply sort_desc_In; rewrite Hs; now left).
        rewrite Forall_forall in Hl. now apply Hl. }
      assert (Hqa : (snd q <=? snd a) = true) by now apply leb_total.
      constructor; [exact Ha|].
      eapply Forall_impl; [|exact IH]. cbn. intros x Hx.
      exact (leb_trans _ _ _ Hx Hqa).
Qed.

(** The first pair the de-duplication sees is always accepted. *)
Lemma dedup_peaks_head (ts score : float) (rest : list (float * float)) :
  exists tail, dedup_peaks ((ts, score) :: rest) [] = ts :: tail.
Proof.
  cbn. destruct (dedup_peaks_prefix rest [ts]) as [tail ->].
  now exists tail.
Qed.

(** The first accepted peak belongs to a motion value that no motion value
    exceeds. *)
Lemma unique_peaks_head (cap : Capture) (total_frames sample_stride : Z)
    (fps : float) (st : ScanState) (ts : float) (rest : list float) :
  reachable cap total_frames sample_stride fps st ->
  unique_peaks_of st = ts :: rest ->
  exists k v, nth_error (motion_timestamps st) k = Some ts
              /\ nth_error (motion_values st) k = Some v
              /\ Forall (fun v' => (v <? v') = false) (motion_values st).
Proof.
  intros Hst E. destruct (reachable_aligned _ _ _ _ _ Hst) as [Hlen _].
  unfold unique_peaks_of in E.
  set (threshold := high_motion_threshold_of (motion_values st)) in *.
  set (pairs := peak_pairs (motion_timestamps st) (motion_values st)
                  threshold) in *.
  destruct (sort_desc pairs) as [|[t s] r] eqn:Hs; [discriminate|].
  destruct (dedup_peaks_head t s r) as [tail Hd]. rewrite Hd in E.
  injection E as -> _.
  assert (Hin : In (ts, s) pairs)
    by (apply sort_desc_In; rewrite Hs; now left).
  apply peak_pairs_In in Hin as (k & Hts & Hv & Hthr); [|exact Hlen].
  exists k, s. split; [exact Hts|]. split; [exact Hv|].
  assert (Hnan : Forall (fun q => (snd q <=? snd q) = true) pairs).
  { apply Forall_forall. intros [t' s'] Hq.
    apply peak_pairs_In in Hq as (_ & _ & _ & Hq); [|exact Hlen].
    exact (proj2 (leb_refl _ _ Hq)). }
  pose proof (sort_desc_head pairs Hnan _ _ Hs) as Hmax. cbn [snd] in Hmax.
  rewrite Forall_forall in Hmax.
  apply Forall_forall. intros v' Hv'.
  destruct (threshold <=? v') eqn:Hthr'.
  - destruct (In_peak_pairs (motion_timestamps st) _ _ _ Hv' Hthr')
      as [t' Hp].
    apply leb_ltb_false. exact (Hmax _ Hp).
  - destruct (s <? v') eqn:Hlt; [|reflexivity].
    pose proof (leb_ltb_trans _ _ _ Hthr Hlt) as H.
    apply FloatFacts.ltb_leb in H. congruence.
Qed.

(** X4.  When the printed [motionPeaks] is not empty, its first entry is
    the rounded time of a sampled frame whose motion value is not exceeded
    by the motion value of any sampled frame: the peaks start with the
    strongest motion. *)
Theorem first_peak_is_strongest (env : Env) (args : Args)
    (peak : float) (rest : list float) :
  let cap := VideoCapture env (input args) in
  let st := scan_of cap (sample_ratio args) in
  motionPeaks (printed (main env args)) = peak :: rest ->
  exists k i v,
    nth_error (sampled_indices cap (total_frames_of cap)
                 (stride_of cap (sample_ratio args))) k = Some i
    /\ nth_error (motion_values st) k = Some v
    /\ peak = py_round (timestamp_of (fps_of cap) i) 2
    /\ Forall (fun v' => (v <? v') = false) (motion_values st).
Proof.
  intros cap st. rewrite main_cases. cbv zeta. fold cap. fold st.
  destruct (_ || _); cbn [printed print_and_return]; [discriminate|].
  unfold build_payload. cbn [motionPeaks]. intros E.
  destruct (unique_peaks_of st) as [|ts tail] eqn:Hu; [discriminate|].
  cbn [map] in E. injection E as <- _.
  pose proof (scan_reachable cap (total_frames_of cap)
                (stride_of cap (sample_ratio args)) (fps_of cap)) as Hst.
  fold (scan_of cap (sample_ratio args)) in Hst. fold st in Hst.
  destruct (unique_peaks_head _ _ _ _ _ _ _ Hst Hu) as (k & v & Hts & Hv & Hmax).
  assert (Htss : motion_timestamps st
                 = map (timestamp_of (fps_of cap))
                     (sampled_indices cap (total_frames_of cap)
                        (stride_of cap (sample_ratio args)))).
  { apply scan_timestamps, stride_of_positive. }
  rewrite Htss, nth_error_map in Hts.
  destruct (nth_error _ k) as [i|] eqn:Hi; [|discriminate].
  injection Hts as <-. now exists k, i, v.
Qed.

(** The flashing clip: its first peak, 0.23, is the time of frame 9, the
    first frame after the flash began. *)
Lemma first_peak_of_flash :
  motionPeaks (printed (main (Synthetic.studio Synthetic.flash)
                             (Synthetic.cli 0.115)))
  = [0.23; 4.72]
  /\ exists k i v,
       nth_error (sampled_indices Synthetic.flash
                    (total_frames_of Synthetic.flash)
                    (stride_of Synthetic.flash 0.115)) k = Some i
       /\ nth_error (motion_values (scan_of Synthetic.flash 0.115)) k
          = Some v
       /\ 0.23 = py_round (timestamp_of (fps_of Synthetic.flash) i) 2
       /\ Forall (fun v' => (v <? v') = false)
                 (motion_values (scan_of Synthetic.flash 0.115)).
Proof.
  assert (E : motionPeaks (printed (main (Synthetic.studio Synthetic.flash)
                                         (Synthetic.cli 0.115)))
              = [0.23; 4.72]) by (vm_compute; reflexivity).
  split; [exact E|].
  exact (first_peak_is_strongest (Synthetic.studio Synthetic.flash)
           (Synthetic.cli 0.115) 0.23 [4.72] E).
Defined.

#[local] Open Scope Z_scope.

(* ================================================================== *)
(** * The product of a frame count and a ratio *)

Module FloatProduct.

Import FloatFacts.

(** A ratio between 0.01 and 0.5: a normal double whose exponent lies
    between those of the two bounds. *)
Lemma Prim2SF_ratio (r : float) :
  (0.01 <=? r)%float = true -> (r <=? 0.5)%float = true ->
  exists my ey,
    Prim2SF r = S754_finite false my ey
    /\ Zpos (digits2_pos my) = 53 /\ -59 <= ey <= -53
    /\ (ey = -53 -> my = 4503599627370496%positive).
Proof.
  rewrite !leb_spec.
  change (Prim2SF 0.01) with (S754_finite false 5764607523034235 (-59)).
  change (Prim2SF 0.5) with (S754_finite false 4503599627370496 (-53)).
  pose proof (Prim2SF_valid r) as Hv.
  destruct (Prim2SF r) as [s|s| |s my ey]; unfold SFleb, SFcompare;
    try destruct s; try discriminate.
  intros Hlo Hhi. exists my, ey. split; [reflexivity|].
  cbn [SpecFloat.valid_binary] in Hv.
  destruct (bounded_canonical my ey Hv) as (He & Hd & Hn).
  destruct (Z.compare_spec (-59) ey) as [E1|E1|E1]; try discriminate;
    destruct (Z.compare_spec ey (-53)) as [E2|E2|E2]; try discriminate;
    (split; [apply Hn; lia|]); (split; [lia|]); intros E; try lia.
  subst ey. rewrite Pos.compare_cont_spec in Hhi. cbn [Pos.switch_Eq] in Hhi.
  pose proof (digits2_pos_lower my) as Hl.
  rewrite (Hn ltac:(lia)) in Hl. change (2 ^ (53 - 1)) with 4503599627370496 in Hl.
  destruct (Pos.compare_spec my 4503599627370496) as [H|H|H];
    try discriminate; [exact H|].
  apply Pos2Z.pos_lt_pos in H. lia.
Qed.

Lemma iter_shr_1_exact (k : positive) :
  forall p,
    iter_pos shr_1 k
      {| shr_m := Zpos (Pos.iter xO p k); shr_r := false; shr_s := false |}
    = {| shr_m := Zpos p; shr_r := false; shr_s := false |}.
Proof.
  induction k as [k IH|k IH|]; intros p; cbn [iter_pos Pos.iter shr_1 orb].
  - now rewrite !IH.
  - now rewrite !IH.
  - reflexivity.
Qed.

(** The whole part of a positive double is at most its value. *)
Lemma shiftl_scaled (m : positive) (e : Z) :
  -1074 <= e ->
  Z.shiftl (Zpos m) e * 2 ^ 1074 <= Zpos m * 2 ^ (e + 1074).
Proof.
  intros He. destruct (Z.le_gt_cases 0 e) as [H|H].
  - rewrite Z.shiftl_mul_pow2, Z.pow_add_r by lia. lia.
  - rewrite Z.shiftl_div_pow2 by lia.
    replace 1074 with (- e + (e + 1074)) at 1 by lia.
    rewrite Z.pow_add_r by lia.
    assert (Hp : 0 < 2 ^ (- e)) by (apply Z.pow_pos_nonneg; lia).
    assert (Hq : 0 <= 2 ^ (e + 1074)) by (apply Z.pow_nonneg; lia).
    pose proof (Z.mul_div_le (Zpos m) (2 ^ (- e)) Hp) as Hd.
    rewrite Z.mul_assoc. apply Z.mul_le_mono_nonneg_r; [exact Hq|]. lia.
Qed.

(** The product of two normal doubles, the second at most 0.5, does not
    exceed half the first. *)
Lemma SFmul_half (mx my : positive) (ex ey : Z) :
  Zpos (digits2_pos mx) = 53 -> Zpos (digits2_pos my) = 53 ->
  -52 <= ex <= 0 -> -59 <= ey <= -53 ->
  (ey = -53 -> my = 4503599627370496%positive) ->
  exists m3 e3,
    SF64mul (S754_finite false mx ex) (S754_finite false my ey)
    = S754_finite false m3 e3
    /\ Zpos m3 * 2 ^ (e3 + 1074) <= Zpos mx * 2 ^ (ex + 1073).
Proof.
  intros Hdx Hdy Hex Hey Hhalf.
  pose proof (digits2_pos_bound mx) as Hxhi.
  pose proof (digits2_pos_lower mx) as Hxlo.
  pose proof (digits2_pos_bound my) as Hyhi.
  pose proof (digits2_pos_lower my) as Hylo.
  rewrite Hdx in Hxhi, Hxlo. rewrite Hdy in Hyhi, Hylo.
  change (53 - 1) with 52 in Hxlo, Hylo.
  unfold SF64mul, SFmul. cbn [xorb].
  destruct (Z.eq_dec ey (-53)) as [E|E].
  - (* the ratio 0.5: the product is exact *)
    subst ey. rewrite (Hhalf eq_refl).
    rewrite Pos.mul_comm.
    change (4503599627370496 * mx)%positive with (Pos.iter xO mx 52).
    assert (Hd : Zpos (digits2_pos (Pos.iter xO mx 52)) = 105)
      by (rewrite digits2_pos_iter_xO, Pos2Z.inj_add, Hdx; reflexivity).
    unfold binary_round_aux.
    unfold shr_fexp at 1, fexp, emin, prec at 1 2, emax at 1.
    cbn [Zdigits2]. rewrite Hd.
    replace (Z.max (105 + (ex + -53) - 53) (3 - 1024 - 53) - (ex + -53))
      with 52 by lia.
    cbn [shr shr_record_of_loc]. rewrite iter_shr_1_exact.
    cbn [shr_m loc_of_shr_record round_nearest_even].
    rewrite shr_fexp_53 by (try exact Hdx; lia). cbn [shr_m].
    unfold prec, emax. destruct (Z.leb_spec (ex + -53 + 52) (1024 - 53)); [|lia].
    exists mx, (ex + -53 + 52). split; [reflexivity|].
    replace (ex + -53 + 52 + 1074) with (ex + 1073) by lia. lia.
  - (* a ratio below 0.5 *)
    assert (Hey' : -59 <= ey <= -54) by lia.
    set (M := (mx * my)%positive).
    assert (HM : Zpos M = Zpos mx * Zpos my) by reflexivity.
    assert (HMlo : 2 ^ 104 <= Zpos M).
    { rewrite HM. change (2 ^ 104) with (2 ^ 52 * 2 ^ 52).
      apply Z.mul_le_mono_nonneg; lia. }
    assert (HMhi : Zpos M < Zpos mx * 2 ^ 53).
    { rewrite HM. apply Z.mul_lt_mono_pos_l; lia. }
    assert (HMhi' : Zpos M < 2 ^ 106).
    { eapply Z.lt_le_trans; [exact HMhi|].
      change (2 ^ 106) with (2 ^ 53 * 2 ^ 53).
      apply Z.mul_le_mono_nonneg_r; lia. }
    set (D := Zpos (digits2_pos M)).
    pose proof (digits2_pos_bound M) as HDhi.
    pose proof (digits2_pos_lower M) as HDlo. fold D in HDhi, HDlo.
    assert (HD : 105 <= D <= 106).
    { split.
      - destruct (Z.le_gt_cases 105 D) as [H|H]; [exact H|].
        assert (2 ^ D <= 2 ^ 104) by (apply Z.pow_le_mono_r; unfold D; lia).
        lia.
      - destruct (Z.le_gt_cases D 106) as [H|H]; [exact H|].
        assert (2 ^ 106 <= 2 ^ (D - 1)) by (apply Z.pow_le_mono_r; lia).
        lia. }
    unfold binary_round_aux.
    unfold shr_fexp at 1, fexp, emin, prec at 1 2, emax at 1.
    cbn [Zdigits2]. fold M. fold D.
    replace (Z.max (D + (ex + ey) - 53) (3 - 1024 - 53) - (ex + ey))
      with (D - 53) by lia.
    destruct (D - 53) as [|k|k] eqn:Hk; [lia| |lia].
    cbn [shr].
    set (mrs := iter_pos shr_1 k (shr_record_of_loc (Zpos M) loc_Exact)).
    assert (Hq : shr_m mrs = Zpos M / 2 ^ Zpos k)
      by (apply iter_shr_1_m; cbn; lia).
    set (m2 := round_nearest_even (shr_m mrs) (loc_of_shr_record mrs)).
    assert (Hm2 : shr_m mrs <= m2 <= shr_m mrs + 1)
      by (unfold m2;
          destruct (round_nearest_even_cases (shr_m mrs)
                      (loc_of_shr_record mrs)) as [-> | ->]; lia).
    rewrite Hq in Hm2.
    assert (Hpk : 0 < 2 ^ Zpos k) by (apply Z.pow_pos_nonneg; lia).
    assert (HDk : D = 53 + Zpos k) by lia.
    rewrite HDk in HDhi, HDlo.
    replace (53 + Zpos k - 1) with (52 + Zpos k) in HDlo by lia.
    rewrite Z.pow_add_r in HDhi, HDlo by lia.
    assert (Hqlo : 2 ^ 52 <= Zpos M / 2 ^ Zpos k)
      by (apply Z.div_le_lower_bound; lia).
    assert (Hqhi : Zpos M / 2 ^ Zpos k < 2 ^ 53)
      by (apply Z.div_lt_upper_bound; lia).
    destruct (round_tail_value m2 (ex + ey + Zpos k)
                ltac:(lia) ltac:(lia) ltac:(lia)) as (m3 & e3 & Hres & Hval).
    exists m3, e3. split; [exact Hres|]. rewrite Hval.
    set (A := ex + ey + Zpos k + 1074).
    assert (HA : 0 <= A) by (unfold A; lia).
    assert (HpA : 0 < 2 ^ A) by (apply Z.pow_pos_nonneg; lia).
    set (t := - (ey + Zpos k + 1)).
    assert (Ht : 0 <= t) by (unfold t; lia).
    replace (ex + 1073) with (t + A) by (unfold t, A; lia).
    rewrite Z.pow_add_r, Z.mul_assoc by lia.
    apply Z.mul_le_mono_nonneg_r; [lia|].
    destruct (Z.eq_dec t 0) as [Ht0|Ht0].
    + rewrite Ht0. change (2 ^ 0) with 1. rewrite Z.mul_1_r.
      assert (Hk53 : Zpos k = 53) by (unfold t in Ht0; lia).
      rewrite Hk53 in *.
      assert (Zpos M / 2 ^ 53 < Zpos mx)
        by (apply Z.div_lt_upper_bound; lia).
      lia.
    + assert (2 ^ 1 <= 2 ^ t) by (apply Z.pow_le_mono_r; lia).
      change (2 ^ 1) with 2 in *. nia.
Qed.

(** [int(total_frames * ratio)] is at most half the frame count when the
    ratio lies between 0.01 and 0.5. *)
Lemma trunc_mul_ratio (n : Z) (r : float) :
  0 < n < 2 ^ 53 ->
  (0.01 <=? r)%float = true -> (r <=? 0.5)%float = true ->
  trunc (of_Z n * r) <= n / 2.
Proof.
  intros Hn Hlo Hhi. destruct n as [|p|p]; try lia.
  pose proof (digits2_pos_lower p) as Hpl.
  assert (Hdp : Zpos (digits2_pos p) <= 53).
  { destruct (Z.le_gt_cases (Zpos (digits2_pos p)) 53) as [H|H]; [exact H|].
    assert (2 ^ 53 <= 2 ^ (Zpos (digits2_pos p) - 1))
      by (apply Z.pow_le_mono_r; lia).
    lia. }
  destruct (Prim2SF_of_Z_exact p Hdp) as (mx & ex & Hx & Hdx & Hex & Hmx).
  destruct (Prim2SF_ratio r Hlo Hhi) as (my & ey & Hr & Hdy & Hey & Hhalf).
  assert (Hex' : -52 <= ex <= 0) by lia.
  destruct (SFmul_half mx my ex ey Hdx Hdy Hex' Hey Hhalf)
    as (m3 & e3 & Hres & Hval).
  assert (Hprod : Prim2SF (of_Z (Zpos p) * r) = S754_finite false m3 e3)
    by (rewrite mul_spec, Hx, Hr; exact Hres).
  pose proof (Prim2SF_valid (of_Z (Zpos p) * r)) as Hv. rewrite Hprod in Hv.
  cbn [SpecFloat.valid_binary] in Hv.
  destruct (bounded_canonical m3 e3 Hv) as (He3 & _).
  unfold trunc. rewrite Hprod.
  pose proof (shiftl_scaled m3 e3 ltac:(lia)) as Hs.
  assert (Hnv : Zpos mx * 2 ^ (ex + 1073) = Zpos p * 2 ^ 1073).
  { rewrite Hmx, <- Z.mul_assoc, <- Z.pow_add_r by lia. do 2 f_equal. lia. }
  rewrite Hnv in Hval.
  apply Z.div_le_lower_bound; [lia|].
  change (2 ^ 1074) with (2 * 2 ^ 1073) in Hs.
  assert (Hp : 0 < 2 ^ 1073) by (apply Z.pow_pos_nonneg; lia).
  nia.
Qed.

End FloatProduct.

#[local] Open Scope Z_scope.

(* ================================================================== *)
(** * How many frames the loop tries to read *)

(** The effective ratio lies between 0.01 and 0.5 for every double given as
    [--sample-ratio]: a NaN and everything above 0.5 give 0.5, a zero gives
    the default 0.1, everything else below 0.01 gives 0.01. *)
Lemma effective_ratio_between (ratio : float) :
  between 0.01 (effective_ratio ratio) 0.5 = true.
Proof. unfold effective_ratio. now apply clamp_between. Qed.

Lemma sample_count_bounds (total_frames : Z) (ratio : float) :
  0 < total_frames < 2 ^ 53 ->
  1 <= sample_count_of total_frames (effective_ratio ratio)
    <= Z.max 1 (total_frames / 2).
Proof.
  intros Ht. unfold sample_count_of.
  pose proof (effective_ratio_between ratio) as H. unfold between in H.
  apply andb_prop in H as [Hlo Hhi].
  pose proof (FloatProduct.trunc_mul_ratio total_frames _ Ht Hlo Hhi). lia.
Qed.

(** The number of multiples of the stride below the frame count, for a
    stride [total_frames // count] with [1 <= count <= total_frames]. *)
Lemma sample_indices_count (total_frames count : Z) :
  1 <= count <= total_frames ->
  let stride := sample_stride_of total_frames count in
  let tried := Z.of_nat (length (sample_indices total_frames stride)) in
  count * stride <= total_frames /\ count <= tried <= 2 * count - 1.
Proof.
  intros Hc stride tried. subst tried. rewrite sample_indices_length.
  assert (Hq : 1 <= total_frames / count)
    by (apply Z.div_le_lower_bound; lia).
  assert (Hs : stride = total_frames / count)
    by (unfold stride, sample_stride_of; lia).
  assert (Hs1 : 1 <= stride) by lia.
  destruct (ceil_div_spec total_frames stride Hs1 ltac:(lia))
    as (HN & [Hlo Hhi] & _).
  set (N := (total_frames + stride - 1) / stride) in *.
  rewrite Z2Nat.id by exact HN.
  pose proof (Z.div_mod total_frames count ltac:(lia)) as Hdm.
  pose proof (Z.mod_pos_bound total_frames count ltac:(lia)) as Hr.
  rewrite <- Hs in Hdm.
  split; [nia|]. split; [nia|].
  destruct (Z.le_gt_cases N (2 * count - 1)) as [H|H]; [exact H|exfalso].
  assert (H1 : (2 * count - 1) * stride <= (N - 1) * stride)
    by (apply Z.mul_le_mono_nonneg_r; lia).
  assert (H2 : (count - 1) * stride < count) by nia.
  assert (H3 : (count - 1) * 1 <= (count - 1) * stride)
    by (apply Z.mul_le_mono_nonneg_l; lia).
  assert (H4 : (count - 1) * stride = count - 1) by lia.
  nia.
Qed.

(** X5.  For a source of [total_frames] frames ([0 < total_frames < 2^53])
    and every [--sample-ratio], NaN and infinities included: the ratio used
    lies between 0.01 and 0.5; the sample count is at least 1 and at most
    half the frame count (or 1); the stride is at least 2 as soon as there
    are two frames; and the loop body runs at least [sample_count] times,
    fewer than twice [sample_count] times, and at most
    [(total_frames + 1) // 2] times: never more than every second frame is
    read. *)
Theorem sampler_reads_at_most_half (cap : Capture) (ratio : float) :
  let total_frames := total_frames_of cap in
  let ratio' := effective_ratio ratio in
  let sample_count := sample_count_of total_frames ratio' in
  let sample_stride := stride_of cap ratio in
  let tried :=
    Z.of_nat (length (visited cap total_frames sample_stride (fps_of cap)
                        (Z.to_nat total_frames) initial_state)) in
  0 < total_frames < 2 ^ 53 ->
  between 0.01 ratio' 0.5 = true
  /\ 1 <= sample_count <= Z.max 1 (total_frames / 2)
  /\ (2 <= total_frames -> 2 <= sample_stride)
  /\ sample_count * sample_stride <= total_frames
  /\ sample_count <= tried <= 2 * sample_count - 1
  /\ tried <= (total_frames + 1) / 2.
Proof.
  intros total_frames ratio' sample_count sample_stride tried Ht.
  pose proof (sample_count_bounds total_frames ratio Ht) as Hc.
  fold ratio' in Hc. fold sample_count in Hc.
  assert (Hhalf : total_frames / 2 < total_frames)
    by (apply Z.div_lt_upper_bound; lia).
  assert (Hct : 1 <= sample_count <= total_frames) by lia.
  assert (Hss : sample_stride = sample_stride_of total_frames sample_count)
    by reflexivity.
  assert (Hs1 : 1 <= sample_stride) by apply stride_of_positive.
  subst tried. rewrite (visited_scan cap total_frames sample_stride _ Hs1).
  destruct (sample_indices_count total_frames sample_count Hct)
    as (Hcs & Htried).
  rewrite <- Hss in Hcs, Htried.
  split; [apply effective_ratio_between|]. split; [exact Hc|].
  assert (Hs2 : 2 <= total_frames -> 2 <= sample_stride).
  { intros H2. rewrite Hss. unfold sample_stride_of.
    assert (2 <= total_frames / sample_count).
    { apply Z.div_le_lower_bound; [lia|].
      pose proof (Z.mul_div_le total_frames 2 ltac:(lia)). lia. }
    lia. }
  split; [exact Hs2|]. split; [exact Hcs|]. split; [exact Htried|].
  rewrite sample_indices_length in *.
  destruct (ceil_div_spec total_frames sample_stride Hs1 ltac:(lia))
    as (HN & [Hlo Hhi] & _).
  set (N := (total_frames + sample_stride - 1) / sample_stride) in *.
  rewrite Z2Nat.id by exact HN.
  apply Z.div_le_lower_bound; [lia|].
  destruct (Z.le_gt_cases 2 total_frames) as [H2|H2].
  - specialize (Hs2 H2). nia.
  - nia.
Qed.

(** The flashing clip at ratio 0.115: 198 frames, 22 samples, stride 9, 22
    frames tried. *)
Lemma sampler_of_flash :
  0 < total_frames_of Synthetic.flash < 2 ^ 53
  /\ sample_count_of 198 (effective_ratio 0.115) = 22
  /\ stride_of Synthetic.flash 0.115 = 9
  /\ 22 * 9 <= 198
  /\ Z.of_nat (length (visited Synthetic.flash 198 9 40.0 (Z.to_nat 198)
                         initial_state))
     <= (198 + 1) / 2.
Proof.
  assert (Ht : 0 < total_frames_of Synthetic.flash < 2 ^ 53)
    by (vm_compute; split; reflexivity).
  split; [exact Ht|].
  destruct (sampler_reads_at_most_half Synthetic.flash 0.115 Ht)
    as (_ & _ & _ & Hcs & _ & Hhalf).
  split; [vm_compute; reflexivity|]. split; [vm_compute; reflexivity|].
  split; [exact Hcs|exact Hhalf].
Defined.

#[local] Open Scope Z_scope.

(* ================================================================== *)
(** * A source of which one frame is sampled *)

#[local] Open Scope float_scope.

(** When one frame has been sampled no motion has been measured: the only
    motion value is the 0.0 of that frame. *)
Lemma reachable_single (cap : Capture) (total_frames sample_stride : Z)
    (fps : float) (st : ScanState) :
  reachable cap total_frames sample_stride fps st ->
  sampled_frames st = 1%Z ->
  motion_values st = [0] /\ horizontal_motion_total st = 0.
Proof.
  induction 1 as [|st Hst IH Hlt]; [discriminate|].
  destruct (reachable_fresh _ _ _ _ _ Hst) as (Hprev & Hzero & Hnn).
  unfold loop_body.
  destruct (read_at cap (frame_index st)) as [s|]; [|exact IH].
  destruct (prev_gray st) as [pg|] eqn:Hpg.
  - destruct (motion_against _ _ _ _) as [mv band]. cbn. intros H1.
    assert (H0 : sampled_frames st = 0%Z) by lia.
    apply Hprev in H0. discriminate.
  - cbn. intros _.
    destruct (Hzero (proj1 Hprev eq_refl)) as (-> & _ & ->).
    split; reflexivity.
Qed.

(** X6.  When exactly one frame was sampled (a one-frame source, or a
    source of which a single sampled index decodes), no motion was
    measured: [horizontalMotionSignal] and [highMotionShortClipSignal] are
    0.0.  The single motion value 0.0 still reaches the threshold 0.0, so
    [motionPeaks] has exactly one entry, the rounded time of that frame. *)
Theorem single_sample_report (env : Env) (args : Args) :
  let cap := VideoCapture env (input args) in
  let p := printed (main env args) in
  sampledFrames p = 1%Z ->
  horizontalMotionSignal p = 0
  /\ highMotionShortClipSignal p = 0
  /\ exists i,
       sampled_indices cap (total_frames_of cap)
         (stride_of cap (sample_ratio args)) = [i]
       /\ motionPeaks p = [py_round (timestamp_of (fps_of cap) i) 2].
Proof.
  intros cap p. subst p. rewrite main_cases. cbv zeta. fold cap.
  set (st := scan_of cap (sample_ratio args)).
  destruct (_ || _); cbn [printed print_and_return]; [discriminate|].
  change (sampledFrames (build_payload _ st)) with (sampled_frames st).
  intros H1.
  pose proof (scan_reachable cap (total_frames_of cap)
                (stride_of cap (sample_ratio args)) (fps_of cap)) as Hst.
  fold (scan_of cap (sample_ratio args)) in Hst. fold st in Hst.
  destruct (reachable_single _ _ _ _ _ Hst H1) as [Hv Hh].
  assert (Htss : motion_timestamps st
                 = map (timestamp_of (fps_of cap))
                     (sampled_indices cap (total_frames_of cap)
                        (stride_of cap (sample_ratio args)))).
  { apply scan_timestamps, stride_of_positive. }
  assert (Hn : sampled_frames st
               = Z.of_nat (length (sampled_indices cap (total_frames_of cap)
                                     (stride_of cap (sample_ratio args))))).
  { apply scan_sampled_frames, stride_of_positive. }
  destruct (sampled_indices _ _ _) as [|i [|j l]]; cbn in Hn; try lia.
  cbn [map] in Htss.
  unfold build_payload.
  cbn [horizontalMotionSignal highMotionShortClipSignal motionPeaks].
  unfold unique_peaks_of. rewrite Hv, Hh, Htss, H1.
  split; [vm_compute; reflexivity|]. split; [vm_compute; reflexivity|].
  exists i. split; [reflexivity|].
  change (high_motion_threshold_of [0]) with 0.
  reflexivity.
Qed.

(** A damaged file of 300 frames of which only frame 150 decodes. *)
Definition damaged : Capture :=
  Synthetic.clip 300 25.0 (fun i => (i =? 150)%Z) (fun _ => Synthetic.white).

Lemma single_sample_of_damaged :
  sampledFrames (printed (main (Synthetic.studio damaged) (Synthetic.cli 0.1)))
  = 1%Z
  /\ horizontalMotionSignal
       (printed (main (Synthetic.studio damaged) (Synthetic.cli 0.1))) = 0
  /\ motionPeaks
       (printed (main (Synthetic.studio damaged) (Synthetic.cli 0.1)))
     = [6.0].
Proof.
  assert (H1 : sampledFrames (printed (main (Synthetic.studio damaged)
                                            (Synthetic.cli 0.1))) = 1%Z)
    by (vm_compute; reflexivity).
  split; [exact H1|].
  destruct (single_sample_report (Synthetic.studio damaged)
              (Synthetic.cli 0.1) H1) as (Hh & _ & _).
  split; [exact Hh|]. vm_compute. reflexivity.
Defined.

#[local] Open Scope Z_scope.

(* ================================================================== *)
(** * What the motion analysis reads *)

(** Two reads that agree for the motion analysis: both fail, or both give
    the same grayscale image. *)
Definition same_gray (a b : option Sample) : Prop :=
  match a, b with
  | Some s, Some s' => forall y x, gray s y x = gray s' y x
  | None, None => True
  | _, _ => False
  end.

(** Two captures that differ at most in the edge maps and the faces found
    in their frames. *)
Definition same_motion_source (c c' : Capture) : Prop :=
  isOpened c = isOpened c'
  /\ CAP_PROP_FRAME_COUNT c = CAP_PROP_FRAME_COUNT c'
  /\ CAP_PROP_FPS c = CAP_PROP_FPS c'
  /\ CAP_PROP_FRAME_WIDTH c = CAP_PROP_FRAME_WIDTH c'
  /\ CAP_PROP_FRAME_HEIGHT c = CAP_PROP_FRAME_HEIGHT c'
  /\ shape_h c = shape_h c'
  /\ shape_w c = shape_w c'
  /\ forall i, same_gray (read_at c i) (read_at c' i).

(** Two loop states that agree on everything the motion analysis keeps. *)
Definition same_motion_state (st st' : ScanState) : Prop :=
  frame_index st = frame_index st'
  /\ sampled_frames st = sampled_frames st'
  /\ horizontal_motion_total st = horizontal_motion_total st'
  /\ motion_values st = motion_values st'
  /\ motion_timestamps st = motion_timestamps st'
  /\ match prev_gray st, prev_gray st' with
     | Some g, Some g' => forall y x, g y x = g' y x
     | None, None => True
     | _, _ => False
     end.

Lemma sum_from_ext (f g : Z -> Z) (n : nat) :
  (forall i, f i = g i) -> forall lo, sum_from f lo n = sum_from g lo n.
Proof.
  intros H. induction n as [|n IH]; intros lo; cbn; [reflexivity|].
  now rewrite H, IH.
Qed.

Lemma region_mean_ext (a b : array2) (h w y1 y2 x1 x2 : Z) :
  (forall y x, a y x = b y x) ->
  region_mean a h w y1 y2 x1 x2 = region_mean b h w y1 y2 x1 x2.
Proof.
  intros H. unfold region_mean, region_sum. do 2 f_equal.
  apply sum_from_ext. intros y. apply sum_from_ext. intros x. apply H.
Qed.

Lemma motion_against_ext (h w : Z) (p p' c c' : pixels) :
  (forall y x, p y x = p' y x) -> (forall y x, c y x = c' y x) ->
  motion_against h w p c = motion_against h w p' c'.
Proof.
  intros Hp Hc. unfold motion_against.
  assert (H : forall y x, absdiff p c y x = absdiff p' c' y x)
    by (intros y x; unfold absdiff; now rewrite Hp, Hc).
  now rewrite !(region_mean_ext _ _ _ _ _ _ _ _ H).
Qed.

Lemma loop_body_same_motion (c c' : Capture) (sample_stride : Z) (fps : float)
    (st st' : ScanState) :
  same_motion_source c c' -> same_motion_state st st' ->
  same_motion_state (loop_body c sample_stride fps st)
                    (loop_body c' sample_stride fps st').
Proof.
  intros (_ & _ & _ & _ & _ & Hh & Hw & Hread) (Hi & Hn & Hht & Hv & Ht & Hg).
  unfold loop_body. specialize (Hread (frame_index st)). rewrite <- Hi.
  unfold same_gray in Hread.
  destruct (read_at c (frame_index st)) as [s|],
           (read_at c' (frame_index st)) as [s'|]; try contradiction.
  - rewrite <- Hh, <- Hw.
    destruct (prev_gray st) as [g|], (prev_gray st') as [g'|];
      try contradiction.
    + rewrite (motion_against_ext _ _ g g' (gray s) (gray s') Hg Hread).
      destruct (motion_against _ _ g' (gray s')) as [mv band].
      unfold same_motion_state. cbn. rewrite Hn, Hht, Hv, Ht, Hi.
      repeat split; try reflexivity. exact Hread.
    + unfold same_motion_state. cbn. rewrite Hn, Hht, Hv, Ht, Hi.
      repeat split; try reflexivity. exact Hread.
  - unfold same_motion_state. cbn. rewrite Hi. repeat split; assumption.
Qed.

Lemma scan_loop_same_motion (c c' : Capture) (total_frames sample_stride : Z)
    (fps : float) (fuel : nat) :
  same_motion_source c c' ->
  forall st st', same_motion_state st st' ->
    same_motion_state (scan_loop c total_frames sample_stride fps fuel st)
                      (scan_loop c' total_frames sample_stride fps fuel st').
Proof.
  intros Hc. induction fuel as [|fuel IH]; intros st st' Hst; cbn;
    [exact Hst|].
  destruct Hst as (Hi & Hrest). rewrite <- Hi.
  destruct (frame_index st <? total_frames).
  - apply IH. apply loop_body_same_motion; [exact Hc|]. now split.
  - now split.
Qed.

(** X7.  The motion outputs do not depend on what [cv2.Canny] and the face
    detector return: two runs whose sources agree on their properties and,
    frame by frame, on whether the frame decodes and on its grayscale
    image print the same [sampledFrames], [sampleStride],
    [horizontalMotionSignal], [highMotionShortClipSignal] and
    [motionPeaks], whatever the edge maps and the faces of the two runs
    are. *)
Theorem motion_outputs_read_gray_only (env env' : Env) (args args' : Args) :
  let cap := VideoCapture env (input args) in
  let cap' := VideoCapture env' (input args') in
  let p := printed (main env args) in
  let p' := printed (main env' args') in
  path_exists env (input args) = path_exists env' (input args') ->
  cv2_imports env = cv2_imports env' ->
  sample_ratio args = sample_ratio args' ->
  same_motion_source cap cap' ->
  sampledFrames p = sampledFrames p'
  /\ sampleStride p = sampleStride p'
  /\ horizontalMotionSignal p = horizontalMotionSignal p'
  /\ highMotionShortClipSignal p = highMotionShortClipSignal p'
  /\ motionPeaks p = motionPeaks p'.
Proof.
  intros cap cap' p p' Hpath Himp Hratio Hsrc. subst p p'.
  rewrite !main_cases. cbv zeta. fold cap cap'.
  pose proof Hsrc as (Ho & Hc & Hf & Hwd & Hht & _).
  assert (Hu : unusable_source env args = unusable_source env' args').
  { unfold unusable_source, total_frames_of. fold cap cap'.
    now rewrite Hpath, Himp, Ho, Hc, Hwd, Hht. }
  assert (Hs : stride_of cap (sample_ratio args)
               = stride_of cap' (sample_ratio args')).
  { unfold stride_of, total_frames_of. now rewrite Hc, Hratio. }
  assert (Hst : same_motion_state (scan_of cap (sample_ratio args))
                                  (scan_of cap' (sample_ratio args'))).
  { unfold scan_of, scan. rewrite Hs. unfold total_frames_of, fps_of.
    rewrite Hc, Hf. apply scan_loop_same_motion; [exact Hsrc|].
    repeat split; reflexivity. }
  destruct Hst as (_ & Hn & Hh & Hv & Ht & _).
  rewrite Hu, Hn.
  destruct (_ || _); cbn [printed print_and_return];
    [repeat split; reflexivity|].
  unfold build_payload, unique_peaks_of.
  cbn [sampledFrames sampleStride horizontalMotionSignal
       highMotionShortClipSignal motionPeaks].
  now rewrite Hn, Hs, Hh, Hv, Ht.
Qed.

(** The flashing clip with an edge map that is white everywhere and a face
    in every frame. *)
Definition flash_with_faces : Capture :=
  {| isOpened := true;
     CAP_PROP_FRAME_COUNT := 198;
     CAP_PROP_FPS := 40.0;
     CAP_PROP_FRAME_WIDTH := 4;
     CAP_PROP_FRAME_HEIGHT := 2;
     shape_h := 2;
     shape_w := 4;
     read_at := fun i =>
       Some {| gray := if ((0 <? i) && (i <? 189))%Z
                       then Synthetic.white else Synthetic.black;
               edges := Synthetic.white;
               faces := [ {| face_x := 1; face_y := 0;
                             face_w := 2; face_h := 2 |} ] |} |}.

Lemma motion_outputs_of_flash :
  motionPeaks (printed (main (Synthetic.studio flash_with_faces)
                             (Synthetic.cli 0.115)))
  = motionPeaks (printed (main (Synthetic.studio Synthetic.flash)
                               (Synthetic.cli 0.115)))
  /\ centeredFaceVerticalSignal
       (printed (main (Synthetic.studio flash_with_faces)
                      (Synthetic.cli 0.115))) = 1%float
  /\ centeredFaceVerticalSignal
       (printed (main (Synthetic.studio Synthetic.flash)
                      (Synthetic.cli 0.115))) = 0%float.
Proof.
  assert (H : same_motion_source flash_with_faces Synthetic.flash).
  { repeat split. }
  destruct (motion_outputs_read_gray_only
              (Synthetic.studio flash_with_faces)
              (Synthetic.studio Synthetic.flash)
              (Synthetic.cli 0.115) (Synthetic.cli 0.115)
              eq_refl eq_refl eq_refl H) as (_ & _ & _ & _ & Hpeaks).
  split; [exact Hpeaks|]. split; vm_compute; reflexivity.
Defined.

#[local] Open Scope Z_scope.

(* ================================================================== *)
(** * What the loop adds up *)

(** The frames read at the given indices, in order; an index that does not
    decode gives none. *)
Definition decoded (cap : Capture) (indices : list Z) : list Sample :=
  flat_map (fun i => match read_at cap i with
                     | Some s => [s]
                     | None => []
                     end) indices.

(** Each frame of a list with the frame after it. *)
Definition successive (samples : list Sample) : list (Sample * Sample) :=
  combine samples (tl samples).

Definition last_sample (samples : list Sample) : option Sample :=
  match rev samples with
  | [] => None
  | s :: _ => Some s
  end.

(** The sums and lists of the loop as functions of the sampled frames. *)
Definition sums_of (cap : Capture) (samples : list Sample) (st : ScanState)
  : Prop :=
  let h := shape_h cap in
  let w := shape_w cap in
  sampled_frames st = Z.of_nat (length samples)
  /\ portrait_score_total st
     = fsum (map (fun s => portrait_score (frame_scores h w s)) samples)
  /\ landscape_score_total st
     = fsum (map (fun s => landscape_score (frame_scores h w s)) samples)
  /\ centered_face_total st
     = fsum (map (fun s => centered_face (frame_scores h w s)) samples)
  /\ horizontal_motion_total st
     = fsum (map (fun p => snd (motion_against h w (gray (fst p))
                                               (gray (snd p))))
                 (successive samples))
  /\ motion_values st
     = match samples with
       | [] => []
       | _ :: _ =>
           0%float
           :: map (fun p => fst (motion_against h w (gray (fst p))
                                                (gray (snd p))))
                  (successive samples)
       end
  /\ prev_gray st = option_map gray (last_sample samples).

Lemma fsum_snoc (l : list float) (x : float) :
  fsum (l ++ [x]) = (fsum l + x)%float.
Proof. unfold fsum. now rewrite fold_left_app. Qed.

Lemma last_sample_snoc (l : list Sample) (s : Sample) :
  last_sample (l ++ [s]) = Some s.
Proof. unfold last_sample. now rewrite rev_app_distr. Qed.

Lemma successive_snoc (l : list Sample) (s : Sample) :
  successive (l ++ [s])
  = successive l
    ++ match last_sample l with
       | Some p => [(p, s)]
       | None => []
       end.
Proof.
  unfold successive. induction l as [|a l IH]; [reflexivity|].
  destruct l as [|b l].
  - reflexivity.
  - cbn [app tl combine] in *. rewrite IH.
    replace (last_sample (a :: b :: l)) with (last_sample (b :: l));
      [reflexivity|].
    unfold last_sample. cbn [rev].
    destruct (rev l ++ [b]) eqn:E; [|reflexivity].
    destruct (rev l); discriminate.
Qed.

Lemma sums_of_initial (cap : Capture) : sums_of cap [] initial_state.
Proof. repeat split. Qed.

Lemma sums_of_body (cap : Capture) (sample_stride : Z) (fps : float)
    (samples : list Sample) (st : ScanState) :
  sums_of cap samples st ->
  sums_of cap (samples ++ decoded cap [frame_index st])
          (loop_body cap sample_stride fps st).
Proof.
  unfold sums_of. cbv zeta. intros (Hn & Hp & Hl & Hc & Hh & Hv & Hg).
  unfold decoded, loop_body. cbn [flat_map].
  destruct (read_at cap (frame_index st)) as [s|].
  2:{ cbn [app]. rewrite app_nil_r. repeat split; assumption. }
  cbn [app].
  rewrite successive_snoc, length_app, last_sample_snoc, !map_app.
  cbn [map length option_map]. rewrite !fsum_snoc.
  destruct (prev_gray st) as [pg|] eqn:Hpg.
  - destruct (last_sample samples) as [p|] eqn:Hlast; [|discriminate].
    cbn [option_map] in Hg. injection Hg as ->.
    destruct (motion_against _ _ (gray p) (gray s)) as [mv band] eqn:Hm.
    cbn -[frame_scores motion_against]. rewrite fsum_snoc, Hm.
    cbn [fst snd].
    repeat split; try (f_equal; assumption); try lia.
    destruct samples as [|a l]; [discriminate|].
    rewrite Hv. reflexivity.
  - destruct (last_sample samples) as [p|] eqn:Hlast; [discriminate|].
    assert (samples = []) as ->.
    { unfold last_sample in Hlast. destruct samples as [|a l]; [reflexivity|].
      cbn [rev] in Hlast. destruct (rev l); discriminate. }
    cbn -[frame_scores]. cbn in Hn. rewrite Hv.
    repeat split; try (f_equal; assumption); try lia.
Qed.

Lemma decoded_cons (cap : Capture) (i : Z) (l : list Z) :
  decoded cap (i :: l) = decoded cap [i] ++ decoded cap l.
Proof. unfold decoded. cbn [flat_map]. now rewrite app_nil_r. Qed.

Lemma sums_of_loop (cap : Capture) (total_frames sample_stride : Z)
    (fps : float) (fuel : nat) :
  forall samples st,
    sums_of cap samples st ->
    sums_of cap
      (samples
       ++ decoded cap (visited cap total_frames sample_stride fps fuel st))
      (scan_loop cap total_frames sample_stride fps fuel st).
Proof.
  induction fuel as [|fuel IH]; intros samples st Hst; cbn [visited scan_loop].
  - cbn. now rewrite app_nil_r.
  - destruct (frame_index st <? total_frames).
    + apply (sums_of_body cap sample_stride fps) in Hst.
      apply IH in Hst. now rewrite decoded_cons, app_assoc.
    + cbn. now rewrite app_nil_r.
Qed.

(** After the loop the sums are those of the frames decoded at the indices
    [0, stride, 2*stride, ...] below the frame count. *)
Lemma scan_sums (cap : Capture) (total_frames sample_stride : Z)
    (fps : float) :
  1 <= sample_stride ->
  sums_of cap (decoded cap (sample_indices total_frames sample_stride))
          (scan cap total_frames sample_stride fps).
Proof.
  intros Hs. unfold scan.
  rewrite <- (visited_scan cap total_frames sample_stride fps Hs).
  apply (sums_of_loop cap total_frames sample_stride fps
           (Z.to_nat total_frames) [] initial_state).
  apply sums_of_initial.
Qed.

(** X8.  The signals as functions of the sampled frames.  Let the sampled
    frames be the frames decoded at the indices [0, stride, 2*stride, ...]
    below the frame count, in order, and [n] their number.  When the
    payload is not the fallback payload, [sampledFrames] is [n];
    [portraitSignal], [landscapeSignal] and [centeredFaceVerticalSignal]
    are the sums from left to right of [portrait_score],
    [landscape_score] and [centered_face] over the sampled frames,
    divided by [n], clamped to [[0, 1]] and rounded to four decimals;
    [horizontalMotionSignal] is the sum of the band differences of each
    sampled frame to the sampled frame before it, divided by
    [max(1, n - 1)], clamped and rounded; the motion values are 0.0
    followed by the mean difference of each sampled frame to the one
    before it; and [highMotionShortClipSignal] is 1.35 times the fraction
    of the motion values above a threshold, clamped and rounded (the
    threshold is the one the run computes; the statement leaves its value
    open, so it does not depend on how the mean and the standard deviation
    of the motion values are rounded).  An index that does not decode
    leaves no trace: the frame after it is compared with the last frame
    that did decode. *)
Theorem signals_of_sampled_frames (env : Env) (args : Args) :
  let cap := VideoCapture env (input args) in
  let h := shape_h cap in
  let w := shape_w cap in
  let samples :=
    decoded cap (sample_indices (total_frames_of cap)
                   (stride_of cap (sample_ratio args))) in
  let n := Z.of_nat (length samples) in
  let values :=
    0%float
    :: map (fun q => fst (motion_against h w (gray (fst q))
                                         (gray (snd q))))
           (successive samples) in
  let p := printed (main env args) in
  p <> fallback_payload ->
  sampledFrames p = n
  /\ portraitSignal p
     = py_round
         (clamp (fsum (map (fun s => portrait_score (frame_scores h w s))
                           samples) / of_Z n) 0 1) 4
  /\ landscapeSignal p
     = py_round
         (clamp (fsum (map (fun s => landscape_score (frame_scores h w s))
                           samples) / of_Z n) 0 1) 4
  /\ centeredFaceVerticalSignal p
     = py_round
         (clamp (fsum (map (fun s => centered_face (frame_scores h w s))
                           samples) / of_Z n) 0 1) 4
  /\ horizontalMotionSignal p
     = py_round
         (clamp (fsum (map (fun q => snd (motion_against h w (gray (fst q))
                                                         (gray (snd q))))
                           (successive samples))
                 / of_Z (Z.max 1 (n - 1))) 0 1) 4
  /\ motion_values (scan_of cap (sample_ratio args)) = values
  /\ exists threshold,
       highMotionShortClipSignal p
       = py_round (clamp (fraction_above values threshold * 1.35) 0 1) 4.
Proof.
  intros cap h w samples n values p. subst p. rewrite main_cases. cbv zeta.
  fold cap.
  pose proof (scan_sums cap (total_frames_of cap)
                (stride_of cap (sample_ratio args)) (fps_of cap)
                (stride_of_positive cap (sample_ratio args))) as Hsums.
  fold (scan_of cap (sample_ratio args)) in Hsums. fold samples in Hsums.
  unfold sums_of in Hsums. cbv zeta in Hsums. fold h w in Hsums.
  destruct Hsums as (Hn & Hp & Hl & Hc & Hh & Hv & _). fold n in Hn.
  destruct (_ || (sampled_frames _ <=? 0)) eqn:Hcase;
    cbn [printed print_and_return]; [contradiction|].
  intros _. apply orb_false_elim in Hcase as [_ Hpos].
  apply Z.leb_gt in Hpos.
  unfold build_payload.
  cbn [sampledFrames portraitSignal landscapeSignal
       centeredFaceVerticalSignal horizontalMotionSignal].
  rewrite Hp, Hl, Hc, Hh, Hn.
  repeat (split; [reflexivity|]).
  assert (Hvalues : motion_values (scan_of cap (sample_ratio args)) = values)
    by (rewrite Hv; destruct samples; [cbn in n; lia|reflexivity]).
  split; [exact Hvalues|].
  exists (high_motion_threshold_of values).
  cbn [highMotionShortClipSignal]. rewrite Hvalues. reflexivity.
Qed.

(** The flashing clip: 22 sampled frames; the portrait and landscape
    signals of its blank frames. *)
Lemma signals_of_flash :
  sampledFrames (printed (main (Synthetic.studio Synthetic.flash)
                               (Synthetic.cli 0.115))) = 22
  /\ length (decoded Synthetic.flash
               (sample_indices 198 (stride_of Synthetic.flash 0.115)))
     = 22%nat
  /\ portraitSignal (printed (main (Synthetic.studio Synthetic.flash)
                                   (Synthetic.cli 0.115))) = 0%float
  /\ landscapeSignal (printed (main (Synthetic.studio Synthetic.flash)
                                    (Synthetic.cli 0.115))) = 0.55%float.
Proof.
  assert (Hne : printed (main (Synthetic.studio Synthetic.flash)
                              (Synthetic.cli 0.115)) <> fallback_payload)
    by (intros E; apply (f_equal sampledFrames) in E; vm_compute in E;
        discriminate).
  destruct (signals_of_sampled_frames (Synthetic.studio Synthetic.flash)
              (Synthetic.cli 0.115) Hne) as (Hn & _).
  split; [rewrite Hn; vm_compute; reflexivity|].
  repeat split; vm_compute; reflexivity.
Defined.

#[local] Open Scope Z_scope.

(* ================================================================== *)
(** * The MoviePy pipeline: segments and report *)

Module PipelineFacts.

Import Pipeline.

#[local] Open Scope float_scope.

(** What [parse_segments] promises of a row: the three fields are values
    within their bounds, rounded to three decimals, and before the rounding
    the end is not less than 0.35 seconds after the start. *)
Definition row_within (duration : float) (r : row) : Prop :=
  exists s e v,
    start r = py_round s 3 /\ end_ r = py_round e 3
    /\ speed r = py_round v 3
    /\ between 0 s duration = true /\ between 0 e duration = true
    /\ between 1.0 v 1.8 = true
    /\ (e - s <? 0.35) = false.

(** No row starts before the row in front of it. *)
Fixpoint ascending_starts (l : list row) : Prop :=
  match l with
  | a :: (b :: _) as t => (start b <? start a) = false /\ ascending_starts t
  | _ => True
  end.

Lemma insert_by_start_In (r q : row) (l : list row) :
  In q (insert_by_start r l) <-> q = r \/ In q l.
Proof.
  induction l as [|a l IH]; cbn.
  - intuition congruence.
  - destruct (start a <? start r); cbn; rewrite ?IH; intuition congruence.
Qed.

Lemma sort_by_start_In (q : row) (l : list row) :
  In q (sort_by_start l) <-> In q l.
Proof.
  unfold sort_by_start. induction l as [|a l IH]; cbn; [tauto|].
  rewrite insert_by_start_In, IH. intuition congruence.
Qed.

Lemma insert_by_start_length (r : row) (l : list row) :
  length (insert_by_start r l) = S (length l).
Proof.
  induction l as [|a l IH]; cbn; [reflexivity|].
  destruct (start a <? start r); cbn; now rewrite ?IH.
Qed.

Lemma sort_by_start_length (l : list row) :
  length (sort_by_start l) = length l.
Proof.
  unfold sort_by_start. induction l as [|a l IH]; cbn; [reflexivity|].
  now rewrite insert_by_start_length, IH.
Qed.

Lemma insert_by_start_ascending (r : row) (l : list row) :
  ascending_starts l -> ascending_starts (insert_by_start r l).
Proof.
  induction l as [|a l IH]; intros Hl; [exact I|].
  cbn [insert_by_start]. destruct (start a <? start r) eqn:Har.
  - destruct l as [|b l].
    + cbn. split; [now apply FloatFacts.ltb_asym|exact I].
    + destruct Hl as [Hab Hl]. specialize (IH Hl).
      cbn [insert_by_start] in *.
      destruct (start b <? start r).
      * split; assumption.
      * split; [now apply FloatFacts.ltb_asym|exact IH].
  - split; assumption.
Qed.

Lemma sort_by_start_ascending (l : list row) :
  ascending_starts (sort_by_start l).
Proof.
  unfold sort_by_start. induction l as [|a l IH]; [exact I|].
  cbn [fold_right]. now apply insert_by_start_ascending.
Qed.

Section Library.

Variable json_loads : string -> option json.
Variable float_of_str : string -> option float.

#[local] Abbreviation parse_items := (Pipeline.parse_items float_of_str).
#[local] Abbreviation parse_segments :=
  (Pipeline.parse_segments json_loads float_of_str).
#[local] Abbreviation main := (Pipeline.main json_loads float_of_str).

Lemma parse_items_within (duration : float) (items : list json) :
  (0 <=? duration) = true ->
  forall out rows,
    Pipeline.parse_items float_of_str items duration out = Some rows ->
    Forall (row_within duration) out ->
    Forall (row_within duration) rows
    /\ (length rows <= length out + length items)%nat.
Proof.
  intros Hd. induction items as [|item items IH]; intros out rows E Hout.
  - cbn in E. injection E as <-. split; [exact Hout|lia].
  - cbn [Pipeline.parse_items] in E.
    assert (Hskip : Pipeline.parse_items float_of_str items duration out
                    = Some rows ->
                    Forall (row_within duration) rows
                    /\ (length rows <= length out + length (item :: items))%nat).
    { intros E'. destruct (IH _ _ E' Hout) as [H1 H2]. cbn [length].
      split; [exact H1|lia]. }
    destruct item as [| | | | |l|d]; try (now apply Hskip).
    destruct (number float_of_str d "start" 0) as [s|]; [|discriminate].
    destruct (number float_of_str d "end" 0) as [e|]; [|discriminate].
    destruct (number float_of_str d "speed" 1) as [v|]; [|discriminate].
    destruct (clamp e 0 duration - clamp s 0 duration <? 0.35) eqn:Hshort;
      [now apply Hskip|].
    apply IH in E.
    + destruct E as [H1 H2]. rewrite length_app in H2. cbn [length] in *.
      split; [exact H1|lia].
    + apply Forall_app. split; [exact Hout|].
      constructor; [|constructor].
      exists (clamp s 0 duration), (clamp e 0 duration), (clamp v 1 1.8).
      cbn [start end_ speed].
      repeat split; try reflexivity; try exact Hshort;
        apply clamp_between; try exact Hd; reflexivity.
Qed.

(** X9.  [parse_segments(raw, duration)] for a duration between 0 and
    [9e12] seconds (up to there every clamped value times 1000 stays below
    [2^53], where [py_round] is [round]), when it returns: every row holds
    a start and an end that were clamped to [[0, duration]] and a speed
    that was clamped to [[1.0, 1.8]], each then rounded to three decimals;
    before the rounding the end is at least 0.35 after the start (the test
    [end - start < 0.35] is false); the rows are in ascending order of
    their start; there are no more rows than items; and text that is not
    JSON, or JSON that is not a list, gives no row. *)
Theorem parse_segments_contract (raw : string) (duration : float)
    (rows : list row) :
  (0 <=? duration) = true ->
  (duration <=? 9e12) = true ->
  parse_segments raw duration = Some rows ->
  Forall (row_within duration) rows
  /\ ascending_starts rows
  /\ (forall items, json_loads raw = Some (JList items) ->
                    (length rows <= length items)%nat)
  /\ ((forall items, json_loads raw <> Some (JList items)) -> rows = []).
Proof.
  intros Hd _ E. unfold Pipeline.parse_segments in E.
  assert (Hnone : rows = [] ->
            (forall items, json_loads raw <> Some (JList items)) ->
            Forall (row_within duration) rows
            /\ ascending_starts rows
            /\ (forall items, json_loads raw = Some (JList items) ->
                              (length rows <= length items)%nat)
            /\ ((forall items, json_loads raw <> Some (JList items)) ->
                rows = [])).
  { intros -> Hno. split; [constructor|]. split; [exact I|].
    split; [|reflexivity]. intros items Hi. now apply Hno in Hi. }
  destruct (json_loads raw) as [[| | | | |items|]|] eqn:Hl;
    try (injection E as <-; apply Hnone; [reflexivity|discriminate]).
  destruct (Pipeline.parse_items float_of_str items duration [])
    as [out|] eqn:Hp; [|discriminate].
  injection E as <-.
  destruct (parse_items_within duration items Hd [] out Hp (Forall_nil _))
    as [Hw Hlen].
  split.
  { apply Forall_forall. intros r Hr. apply (proj1 (sort_by_start_In _ _)) in Hr.
    rewrite Forall_forall in Hw. now apply Hw. }
  split; [apply sort_by_start_ascending|].
  split.
  { intros items' [= <-]. rewrite sort_by_start_length. exact Hlen. }
  intros H. exfalso. now apply (H items).
Qed.

(** *** [main] *)

Lemma build_clips_returned (env : Env) (args : Args)
    (segments : list segment) :
  forall idx clip_paths result,
    build_clips env args idx segments clip_paths = (result, true) ->
    result
    = clip_paths
      ++ map (fun i => joinpath env (output_dir args) (clip_name i))
           (seq idx (length segments))
    /\ Forall (fun s => exists r, s = Dict r) segments.
Proof.
  induction segments as [|s segments IH]; intros idx paths result E.
  - cbn in E. injection E as <-. cbn. rewrite app_nil_r.
    split; [reflexivity|constructor].
  - cbn [build_clips] in E. destruct s as [r|a b]; cbn in E; [|discriminate].
    destruct (renders env _ _ _ _ _); [|discriminate].
    apply IH in E as [-> Hall]. cbn [length seq map].
    rewrite <- app_assoc. split; [reflexivity|].
    constructor; [now exists r|exact Hall].
Qed.

(** X10.  A run of the pipeline that finds no valid segment renders
    nothing.  When the output directory can be made, the input exists,
    MoviePy is imported, the clip opens with a positive duration and
    [parse_segments] returns no row (as it does for the default
    [--segments-json] of an empty list), [main] replaces the empty list by
    the tuple [(0.0, min(duration, 20.0))], the loop then fails on
    [segment["start"]], and the run prints [ok: false] with the error
    [pipeline_failed] and no clip path, exits with status 0 and has written
    no clip. *)
Theorem pipeline_without_segments_fails (env : Env) (args : Args)
    (source : Clip) (seconds : float) :
  mkdir env (output_dir args) = true ->
  path_exists env (input args) = true ->
  moviepy_imports env = true ->
  VideoFileClip env (input args) = Some source ->
  duration source = Some seconds ->
  (0 <? seconds) = true ->
  parse_segments (segments_json args) seconds = Some [] ->
  main env args
  = Returned {| printed := {| ok := false; error := Some pipeline_failed;
                              clipPaths := []; combinedPath := None |};
                exit_status := 0;
                written := [] |}.
Proof.
  intros Hmk Hin Himp Hopen Hdur Hpos Hparse. unfold Pipeline.main.
  rewrite Hmk, Hin, Himp, Hopen, Hdur. cbn [negb].
  destruct (ltb_facts _ _ Hpos) as (_ & Hle & _ & _ & Hne).
  unfold or_else, truthy. rewrite Hne. cbn [negb]. rewrite Hle, Hparse.
  destruct (mode_ args); reflexivity.
Qed.

(** X11.  What a run of the pipeline that returns has printed.  The exit
    status is 0.  With [ok: false] an error is named, there is no clip
    path and no combined path, even when clips of earlier segments have
    been written.  With [ok: true] there is no error, [parse_segments]
    returned at least one row, one clip was written per row (per row of
    the first three in vertical mode), the paths are [clip_01.mp4],
    [clip_02.mp4], ... in the output directory in that order, and the
    combined path is [combined.mp4] there. *)
Theorem pipeline_report (env : Env) (args : Args) (o : Outcome) :
  main env args = Returned o ->
  exit_status o = 0%Z
  /\ (ok (printed o) = false ->
      error (printed o) <> None
      /\ clipPaths (printed o) = []
      /\ combinedPath (printed o) = None)
  /\ (ok (printed o) = true ->
      error (printed o) = None
      /\ combinedPath (printed o)
         = Some (joinpath env (output_dir args) "combined.mp4")
      /\ written o = clipPaths (printed o)
      /\ exists source rows n,
           VideoFileClip env (input args) = Some source
           /\ parse_segments (segments_json args)
                (match duration source with
                 | Some d => or_else d 0
                 | None => 0
                 end) = Some rows
           /\ n = match mode_ args with
                  | vertical => Nat.min 3 (length rows)
                  | horizontal => length rows
                  end
           /\ (1 <= n)%nat
           /\ clipPaths (printed o)
              = map (fun i => joinpath env (output_dir args) (clip_name i))
                    (seq 1 n)).
Proof.
  unfold Pipeline.main, failed.
  destruct (mkdir env (output_dir args)); [|discriminate].
  destruct (path_exists env (input args));
    [|intros [= <-]; cbn; repeat split; discriminate].
  destruct (moviepy_imports env);
    [|intros [= <-]; cbn; repeat split; discriminate].
  cbn [negb].
  destruct (VideoFileClip env (input args)) as [source|];
    [|intros [= <-]; cbn; repeat split; discriminate].
  set (seconds := match duration source with
                  | Some d => or_else d 0
                  | None => 0
                  end).
  destruct (seconds <=? 0);
    [intros [= <-]; cbn; repeat split; discriminate|].
  destruct (parse_segments (segments_json args) seconds) as [rows|] eqn:Hp;
    [|intros [= <-]; cbn; repeat split; discriminate].
  set (segments := match mode_ args with
                   | vertical => firstn 3 _
                   | horizontal => _
                   end).
  destruct (build_clips env args 1 segments []) as [clip_paths returned]
    eqn:Hb.
  destruct returned; cbn [negb];
    [|intros [= <-]; cbn; repeat split; discriminate].
  apply build_clips_returned in Hb as [Hpaths Hdicts]. cbn [app] in Hpaths.
  assert (Hrows : rows <> []
                  /\ length segments
                     = match mode_ args with
                       | vertical => Nat.min 3 (length rows)
                       | horizontal => length rows
                       end).
  { destruct rows as [|r rows].
    - exfalso. subst segments.
      destruct (mode_ args); inversion Hdicts as [|? ? [r Hr] _];
        discriminate.
    - split; [discriminate|]. subst segments.
      destruct (mode_ args);
        rewrite ?length_firstn, length_map; reflexivity. }
  destruct Hrows as [Hne Hlen].
  assert (Hn : (1 <= length segments)%nat).
  { rewrite Hlen. destruct rows; [contradiction|].
    destruct (mode_ args); cbn [length]; lia. }
  destruct clip_paths as [|p ps].
  { destruct (length segments); [lia|discriminate]. }
  destruct (combines env (mode_ args) (length (p :: ps)));
    [|intros [= <-]; cbn; repeat split; discriminate].
  intros [= <-]. cbn [exit_status printed ok error clipPaths combinedPath
                      written].
  split; [reflexivity|]. split; [discriminate|]. intros _.
  repeat (split; [reflexivity|]).
  exists source, rows, (length segments).
  split; [reflexivity|]. split; [exact Hp|]. split; [exact Hlen|].
  split; [exact Hn|exact Hpaths].
Qed.

End Library.

(** *** A run on sample data *)

(** A library whose [json.loads] reads the text [[]] as the empty list and
    any other text as four items: a segment from 40 to 50 at speed 2.5, a
    segment of 0.2 seconds, an item that is not a dict, and a segment from
    -3 to 10. *)
Definition sample_loads (raw : string) : option json :=
  if (raw =? "[]")%string then Some (JList [])
  else
    Some (JList
            [ JDict [("start", JInt 40); ("end", JInt 50);
                     ("speed", JFloat 2.5)]%string;
              JDict [("start", JFloat 5.0); ("end", JFloat 5.2)]%string;
              JInt 3;
              JDict [("end", JInt 10); ("start", JInt (-3))]%string ]).

Definition no_number (s : string) : option float := None.

(** A world in which every call succeeds, with a clip of one minute. *)
Definition sample_studio : Env :=
  {| mkdir := fun _ => true;
     joinpath := fun d name => (d ++ "/" ++ name)%string;
     path_exists := fun _ => true;
     moviepy_imports := true;
     VideoFileClip := fun _ => Some {| duration := Some 60.0 |};
     renders := fun _ _ _ _ _ => true;
     combines := fun _ _ => true |}.

Definition sample_cli (m : mode) (segments : string) : Args :=
  {| input := "in.mp4"; output_dir := "out"; mode_ := m;
     segments_json := segments |}.

Lemma parse_segments_of_sample :
  (0 <=? 60.0) = true
  /\ (60.0 <=? 9e12) = true
  /\ Pipeline.parse_segments sample_loads no_number "segments" 60.0
     = Some [ {| start := 0; end_ := 10; speed := 1 |};
              {| start := 40; end_ := 50; speed := 1.8 |} ]
  /\ Forall (row_within 60.0)
       [ {| start := 0; end_ := 10; speed := 1 |};
         {| start := 40; end_ := 50; speed := 1.8 |} ].
Proof.
  assert (E : Pipeline.parse_segments sample_loads no_number "segments" 60.0
              = Some [ {| start := 0; end_ := 10; speed := 1 |};
                       {| start := 40; end_ := 50; speed := 1.8 |} ])
    by (vm_compute; reflexivity).
  split; [reflexivity|]. split; [reflexivity|]. split; [exact E|].
  exact (proj1 (parse_segments_contract sample_loads no_number
                  "segments" 60.0 _ eq_refl eq_refl E)).
Defined.

Lemma pipeline_with_default_segments :
  Pipeline.parse_segments sample_loads no_number "[]" 60.0 = Some []
  /\ Pipeline.main sample_loads no_number sample_studio (sample_cli vertical "[]")
     = Returned {| printed := {| ok := false; error := Some pipeline_failed;
                                 clipPaths := []; combinedPath := None |};
                   exit_status := 0;
                   written := [] |}.
Proof.
  split; [reflexivity|].
  exact (pipeline_without_segments_fails sample_loads no_number sample_studio
           (sample_cli vertical "[]") {| duration := Some 60.0 |} 60.0
           eq_refl eq_refl eq_refl eq_refl eq_refl eq_refl eq_refl).
Defined.

Lemma pipeline_with_two_segments :
  exists o,
    Pipeline.main sample_loads no_number sample_studio (sample_cli vertical "segments")
    = Returned o
    /\ exit_status o = 0%Z
    /\ clipPaths (printed o) = ["out/clip_01.mp4"; "out/clip_02.mp4"]%string
    /\ combinedPath (printed o) = Some "out/combined.mp4"%string.
Proof.
  eexists. split; [vm_compute; reflexivity|].
  match goal with
  | |- context [exit_status ?o] =>
      destruct (pipeline_report sample_loads no_number sample_studio
                  (sample_cli vertical "segments") o ltac:(vm_compute; reflexivity))
        as (Hexit & _ & _)
  end.
  split; [exact Hexit|]. split; reflexivity.
Defined.

End PipelineFacts.

#[local] Open Scope Z_scope.

(* ================================================================== *)
(** * The transcription script: timestamps and cues *)

Module TranscribeFacts.

Import Transcribe.

Lemma round_half_even_nonneg (n e : Z) : 0 <= n -> 0 <= round_half_even n e.
Proof.
  intros Hn. unfold round_half_even.
  destruct (Z.leb_spec 0 e) as [He|He].
  - apply Z.mul_nonneg_nonneg; [exact Hn|]. apply Z.pow_nonneg. lia.
  - assert (Hd : 0 < 2 ^ (- e)) by (apply Z.pow_pos_nonneg; lia).
    assert (Hq : 0 <= n / 2 ^ (- e)) by (apply Z.div_pos; lia).
    destruct (_ <? _); [exact Hq|]. destruct (_ <? _); [lia|].
    destruct (Z.even _); lia.
Qed.

(** Rounding a positive mantissa never gives a negative double. *)
Lemma binary_round_aux_sign (mx ex : Z) (lx : location) :
  match binary_round_aux prec emax false mx ex lx with
  | S754_finite s _ _ => s = false
  | _ => True
  end.
Proof.
  unfold binary_round_aux.
  destruct (shr_fexp prec emax mx ex lx) as [mrs' e'].
  destruct (shr_fexp prec emax _ e' loc_Exact) as [mrs'' e''].
  destruct (shr_m mrs''); try exact I.
  destruct (e'' <=? emax - prec); [reflexivity|exact I].
Qed.

(** The number of milliseconds is never negative. *)
Lemma round_int_millis (seconds : float) (total : Z) :
  round_int (py_max 0 (or_else seconds 0) * 1000) = Some total ->
  0 <= total.
Proof.
  set (safe := py_max 0 (or_else seconds 0)).
  assert (Hsafe : match Prim2SF safe with
                  | S754_finite s _ _ => s = false
                  | S754_infinity s => s = false
                  | _ => True
                  end).
  { unfold safe, py_max. destruct (0 <? or_else seconds 0)%float eqn:H.
    - rewrite ltb_spec, FloatFacts.Prim2SF_zero in H.
      destruct (Prim2SF (or_else seconds 0)) as [s|s| |s m e];
        try exact I; destruct s; try reflexivity; discriminate.
    - rewrite FloatFacts.Prim2SF_zero. exact I. }
  unfold round_int. rewrite mul_spec.
  change (Prim2SF 1000) with (S754_finite false 8796093022208000 (-43)).
  destruct (Prim2SF safe) as [s|s| |s m e]; cbn [SF64mul SFmul];
    try discriminate.
  - intros [= <-]. lia.
  - subst s. cbn [xorb].
    pose proof (binary_round_aux_sign
                  (Zpos (m * 8796093022208000)) (e + -43) loc_Exact) as Hs.
    destruct (binary_round_aux _ _ _ _ _ _) as [s'|s'| |s' m' e'];
      try discriminate.
    + intros [= <-]. lia.
    + subst s'. intros [= <-]. now apply round_half_even_nonneg.
Qed.

Lemma string_length_append (a b : string) :
  String.length (a ++ b) = (String.length a + String.length b)%nat.
Proof. induction a as [|c a IH]; cbn; [reflexivity|now rewrite IH]. Qed.

Definition two_digits_ok (n : nat) : bool :=
  (String.length (format_0d 2 (Z.of_nat n)) =? 2)%nat.

Definition three_digits_ok (n : nat) : bool :=
  (String.length (format_0d 3 (Z.of_nat n)) =? 3)%nat.

Lemma two_digits_checked : forallb two_digits_ok (seq 0 100) = true.
Proof. vm_compute. reflexivity. Qed.

Lemma three_digits_checked : forallb three_digits_ok (seq 0 1000) = true.
Proof. vm_compute. reflexivity. Qed.

Lemma format_02d_length (n : Z) :
  0 <= n < 100 -> String.length (format_0d 2 n) = 2%nat.
Proof.
  intros Hn. pose proof two_digits_checked as H.
  rewrite forallb_forall in H. specialize (H (Z.to_nat n)).
  unfold two_digits_ok in H. rewrite Z2Nat.id in H by lia.
  apply Nat.eqb_eq, H, in_seq. lia.
Qed.

Lemma format_03d_length (n : Z) :
  0 <= n < 1000 -> String.length (format_0d 3 n) = 3%nat.
Proof.
  intros Hn. pose proof three_digits_checked as H.
  rewrite forallb_forall in H. specialize (H (Z.to_nat n)).
  unfold three_digits_ok in H. rewrite Z2Nat.id in H by lia.
  apply Nat.eqb_eq, H, in_seq. lia.
Qed.

(** X12.  [_format_srt_timestamp(seconds)].  A value that is not positive
    (a negative number, a zero, a NaN) is written [00:00:00,000].  When
    the function returns, its result is [HH:MM:SS,mmm] for the number of
    milliseconds nearest to [max(0.0, seconds) * 1000.0] (ties to even):
    minutes and seconds are below 60, milliseconds below 1000, the four
    fields add up to that number, and the text has exactly twelve
    characters below one hundred hours.  (It raises only when the product
    is infinite.) *)
Theorem format_srt_timestamp_contract (seconds : float) :
  ((0 <? seconds)%float = false ->
   _format_srt_timestamp seconds = Some "00:00:00,000"%string)
  /\ (forall s, _format_srt_timestamp seconds = Some s ->
      exists total hours minutes secs millis,
        round_int (py_max 0 (or_else seconds 0) * 1000) = Some total
        /\ total = ((hours * 60 + minutes) * 60 + secs) * 1000 + millis
        /\ 0 <= hours /\ 0 <= minutes < 60 /\ 0 <= secs < 60
        /\ 0 <= millis < 1000
        /\ s = (format_0d 2 hours ++ ":" ++ format_0d 2 minutes ++ ":"
                ++ format_0d 2 secs ++ "," ++ format_0d 3 millis)%string
        /\ (hours < 100 -> String.length s = 12%nat))
  /\ (_format_srt_timestamp seconds = None ->
      round_int (py_max 0 (or_else seconds 0) * 1000) = None
      /\ (0 <? seconds)%float = true).
Proof.
  assert (Hzero : (0 <? seconds)%float = false ->
                  _format_srt_timestamp seconds
                  = Some "00:00:00,000"%string).
  { intros Hs. unfold _format_srt_timestamp.
    assert (E : py_max 0 (or_else seconds 0) = 0%float).
    { unfold py_max, or_else. destruct (truthy seconds).
      - now rewrite Hs.
      - reflexivity. }
    rewrite E. vm_compute. reflexivity. }
  split; [exact Hzero|]. split.
  - intros s. unfold _format_srt_timestamp.
    destruct (round_int _) as [total|] eqn:Hr; [|discriminate].
    pose proof (round_int_millis seconds total Hr) as Ht.
    intros [= <-].
    set (hours := total / 3600000).
    set (r1 := total - hours * 3600000).
    set (minutes := r1 / 60000).
    set (r2 := r1 - minutes * 60000).
    set (secs := r2 / 1000).
    set (millis := r2 - secs * 1000).
    pose proof (Z.div_mod total 3600000 ltac:(lia)) as H1.
    pose proof (Z.mod_pos_bound total 3600000 ltac:(lia)) as B1.
    pose proof (Z.div_mod r1 60000 ltac:(lia)) as H2.
    pose proof (Z.mod_pos_bound r1 60000 ltac:(lia)) as B2.
    pose proof (Z.div_mod r2 1000 ltac:(lia)) as H3.
    pose proof (Z.mod_pos_bound r2 1000 ltac:(lia)) as B3.
    fold hours in H1. fold minutes in H2. fold secs in H3.
    assert (Hh : 0 <= hours) by (apply Z.div_pos; lia).
    assert (Hr1 : 0 <= r1 < 3600000) by (unfold r1; lia).
    assert (Hm : 0 <= minutes < 60).
    { split; [apply Z.div_pos; lia|apply Z.div_lt_upper_bound; lia]. }
    assert (Hr2 : 0 <= r2 < 60000) by (unfold r2; lia).
    assert (Hs : 0 <= secs < 60).
    { split; [apply Z.div_pos; lia|apply Z.div_lt_upper_bound; lia]. }
    assert (Hms : 0 <= millis < 1000) by (unfold millis; lia).
    exists total, hours, minutes, secs, millis.
    split; [reflexivity|]. split; [unfold millis, r2, r1; lia|].
    repeat (split; [lia|]). split; [reflexivity|].
    intros H100.
    repeat (rewrite string_length_append || cbn [String.length]).
    rewrite !format_02d_length, format_03d_length by lia. reflexivity.
  - intros Hnone. split.
    + unfold _format_srt_timestamp in Hnone.
      destruct (round_int _); [discriminate|reflexivity].
    + destruct (0 <? seconds)%float eqn:Hs; [reflexivity|].
      rewrite (Hzero eq_refl) in Hnone. discriminate.
Qed.

(** *** The cues of the SRT file *)

Section Strings.

Variable strip : string -> string.

(** The test of [_write_srt] on a cue. *)
Definition written_cue (c : cue) : bool :=
  negb (strip (text c) =? "")%string
  && negb (end_ c <=? start c + 0.01)%float.

(** The lines of [_write_srt] come in blocks of four, the first line of
    block [k] being the number [k]. *)
Definition numbered (lines : list string) (n : nat) : Prop :=
  length lines = (4 * n)%nat
  /\ forall k, (k < n)%nat ->
       nth_error lines (4 * k) = Some (str (Z.of_nat k + 1))
       /\ nth_error lines (4 * k + 3) = Some ""%string.

Lemma srt_lines_numbered (cues : list cue) :
  forall n lines0 lines,
    numbered lines0 n ->
    srt_lines strip cues (Z.of_nat n + 1) lines0 = Some lines ->
    numbered lines (n + length (filter written_cue cues)).
Proof.
  induction cues as [|c cues IH]; intros n lines0 lines Hnum E.
  - cbn in E. injection E as <-. cbn. now rewrite Nat.add_0_r.
  - cbn [srt_lines] in E. cbn [filter]. unfold written_cue at 1.
    destruct (strip (text c) =? "")%string; cbn [negb andb];
      [now apply (IH n lines0)|].
    destruct (end_ c <=? start c + 0.01)%float; cbn [negb];
      [now apply (IH n lines0)|].
    destruct (_format_srt_timestamp (start c)) as [from|]; [|discriminate].
    destruct (_format_srt_timestamp (end_ c)) as [to|]; [|discriminate].
    replace (Z.of_nat n + 1 + 1) with (Z.of_nat (S n) + 1) in E by lia.
    apply IH in E.
    + cbn [length].
      replace (n + S (length (filter written_cue cues)))%nat
        with (S n + length (filter written_cue cues))%nat by lia.
      exact E.
    + destruct Hnum as [Hlen Hblocks]. split.
      * rewrite length_app. cbn [length]. lia.
      * intros k Hk. destruct (Nat.eq_dec k n) as [->|Hne].
        -- rewrite !nth_error_app2 by lia.
           replace (4 * n - length lines0)%nat with 0%nat by lia.
           replace (4 * n + 3 - length lines0)%nat with 3%nat by lia.
           split; reflexivity.
        -- rewrite !nth_error_app1 by lia. apply Hblocks. lia.
Qed.

Lemma cues_of_length (segments : list Segment) :
  forall cues,
    (length (cues_of strip segments cues)
     <= length cues + length segments)%nat.
Proof.
  induction segments as [|g segments IH]; intros cues; cbn [cues_of length].
  - lia.
  - destruct (strip (segment_text g) =? "")%string;
      [specialize (IH cues); lia|].
    destruct (_ <=? _)%float; [specialize (IH cues); lia|].
    match goal with
    | |- context [cues_of strip segments ?c] => specialize (IH c)
    end.
    rewrite length_app in IH. cbn [length] in IH. lia.
Qed.

(** X13.  The SRT file against the count of the report.  [main] keeps a
    segment as a cue by testing its times before rounding them to three
    decimals; [_write_srt] tests the cue again, on the rounded times.  The
    lines of the SRT file come in blocks of four, numbered 1, 2, 3, ...
    without a gap, one block per cue that passes the test of
    [_write_srt]; their number is at most [segmentCount], the number of
    cues, which is at most the number of segments.  (It can be smaller: a
    cue from 0.0 to 0.0104 seconds is counted and written to the JSON
    file, and its rounded end 0.01 keeps it out of the SRT file.) *)
Theorem srt_blocks_and_segment_count (segments : list Segment)
    (lines : list string) :
  let cues := cues_of strip segments [] in
  let segmentCount := length cues in
  srt_lines strip cues 1 [] = Some lines ->
  numbered lines (length (filter written_cue cues))
  /\ (length (filter written_cue cues) <= segmentCount)%nat
  /\ (segmentCount <= length segments)%nat.
Proof.
  intros cues segmentCount E.
  split; [|split].
  - apply (srt_lines_numbered cues 0 [] lines); [|exact E].
    split; [reflexivity|]. intros k Hk. lia.
  - apply filter_length_le.
  - apply (cues_of_length segments []).
Qed.

End Strings.

(** A transcription of two segments: one second of speech, and a segment
    from 0.0 to 0.0104 seconds. *)
Definition two_segments : list Segment :=
  [ {| segment_text := "hello"; segment_start := 1.0; segment_end := 2.0;
       avg_logprob := Some (-0.25)%float |};
    {| segment_text := "hi"; segment_start := 0.0; segment_end := 0.0104;
       avg_logprob := None |} ].

Lemma srt_of_two_segments :
  length (cues_of (fun s => s) two_segments []) = 2%nat
  /\ srt_lines (fun s => s) (cues_of (fun s => s) two_segments []) 1 []
     = Some ["1"; "00:00:01,000 --> 00:00:02,000"; "hello"; ""]%string
  /\ length (filter (written_cue (fun s => s))
               (cues_of (fun s => s) two_segments [])) = 1%nat
  /\ numbered ["1"; "00:00:01,000 --> 00:00:02,000"; "hello"; ""]%string 1.
Proof.
  assert (E : srt_lines (fun s => s) (cues_of (fun s => s) two_segments [])
                1 []
              = Some ["1"; "00:00:01,000 --> 00:00:02,000"; "hello"; ""]%string)
    by (vm_compute; reflexivity).
  split; [reflexivity|]. split; [exact E|]. split; [reflexivity|].
  exact (proj1 (srt_blocks_and_segment_count (fun s => s) two_segments _ E)).
Defined.

End TranscribeFacts.

#[local] Open Scope Z_scope.

(* ================================================================== *)
(** * The local inference server: the arguments of [generate] *)

Module LlamaServerFacts.

Import LlamaServer.

#[local] Open Scope float_scope.

(** [max(low, min(value, high))], the value first in [min]: between the
    bounds for every value; a NaN gives the lower bound. *)
Lemma max_min_between (value low high : float) :
  (low <=? high) = true ->
  between low (py_max low (py_min value high)) high = true.
Proof.
  intros Hlh. destruct (leb_refl _ _ Hlh) as [Hl Hh].
  unfold py_max, py_min, between.
  destruct (high <? value) eqn:Hv.
  - destruct (low <? high); now rewrite ?Hl, ?Hh, ?Hlh.
  - destruct (low <? value) eqn:Hlv.
    + rewrite (FloatFacts.ltb_leb _ _ Hlv). cbn [andb].
      apply leb_total; [exact Hh| |exact Hv].
      apply FloatFacts.ltb_leb in Hlv. exact (proj2 (leb_refl _ _ Hlv)).
    + now rewrite Hl, Hlh.
Qed.

(** X14.  The arguments [completions] passes to [model.generate], for
    every request and prompt: [max_new_tokens] lies between 32 and 1200,
    [temperature] between 0.0 and 1.2 and [top_p] between 0.1 and 1.0 (a
    NaN becomes the lower bound).  A temperature of zero is not passed on:
    like [null] it is replaced by 0.2, and sampling is switched on.
    Sampling is off only for a negative or NaN temperature, and then the
    temperature passed is 0.0.  A [max_new_tokens] of zero counts as
    absent: [max_tokens] is used, or 512. *)
Theorem generation_arguments (req : CompletionRequest) (prompt : string) :
  let g := generation_of req prompt in
  (32 <= gen_max_new_tokens g <= 1200)%Z
  /\ between 0 (gen_temperature g) 1.2 = true
  /\ between 0.1 (gen_top_p g) 1 = true
  /\ (temperature req = None \/ temperature req = Some 0 ->
      gen_do_sample g = true /\ gen_temperature g = 0.2)
  /\ (gen_do_sample g = false ->
      gen_temperature g = 0
      /\ exists t, temperature req = Some t /\ (0 <=? t) = false)
  /\ (max_new_tokens req = Some 0%Z \/ max_new_tokens req = None ->
      gen_max_new_tokens g
      = match max_tokens req with
        | Some n => if (n =? 0)%Z then 512%Z
                    else Z.max 32 (Z.min n 1200)
        | None => 512%Z
        end).
Proof.
  intros g. subst g. unfold generation_of.
  cbn [gen_max_new_tokens gen_temperature gen_top_p gen_do_sample].
  split; [lia|]. split; [now apply max_min_between|].
  split; [now apply max_min_between|]. split; [|split].
  - intros [-> | ->]; cbn; split; vm_compute; reflexivity.
  - unfold some_float.
    destruct (temperature req) as [t|]; [|vm_compute; discriminate].
    destruct (truthy t) eqn:Ht; [|vm_compute; discriminate].
    intros Hs. split.
    + unfold py_max, py_min. destruct (1.2 <? t) eqn:H12.
      * assert (H0 : (0 <? t) = true)
          by (apply (ltb_leb_trans 0 1.2 t); [reflexivity|];
              now apply FloatFacts.ltb_leb).
        congruence.
      * now rewrite Hs.
    + exists t. split; [reflexivity|].
      unfold truthy in Ht. rewrite eqb_spec in Ht. rewrite ltb_spec in Hs.
      rewrite leb_spec. unfold SFeqb, SFltb, SFleb in *.
      rewrite (FloatFacts.SFcompare_antisym (Prim2SF 0) (Prim2SF t)) in Ht.
      destruct (SFcompare (Prim2SF 0) (Prim2SF t)) as [[]|];
        cbn in Ht; congruence.
  - intros [-> | ->]; cbn [some_int Z.eqb];
      (destruct (max_tokens req) as [n|]; cbn [some_int]; [|reflexivity]);
      destruct (n =? 0)%Z; reflexivity.
Qed.

End LlamaServerFacts.
